(** * mindstone: a shallow embedding of the graph primitives, the dotted-path
    lookup, the transport envelope, the gate network and the worker dispatch.

    Python objects are modelled as follows.
    - A [dict] that is only looked up by key is a [gmap]; a [dict] whose
      iteration order is observable (generation state, envelopes, platforms)
      is an insertion-ordered association list, see [Py.dict].
    - A [set] is a [gset]; the order in which Python iterates over a set is
      not specified, so the gate network takes it as a parameter.
    - A raised exception is the [Raise] outcome of [Py.result]; code that
      mutates [self] before raising runs in the state-and-error monad
      [Py.M]. *)

From Stdlib Require Import ZArith String Ascii List.
From stdpp Require Import base option gmap sets list strings pretty.

Set Warnings "-register-all,-clear-no-such-hyp".

Local Open Scope string_scope.

(** ** Python values, exceptions and dictionaries *)
Module Py.

(** The built-in exception classes that the modelled code raises or
    catches.  [OutsideModel] is not a Python class: it marks the few places
    where Python goes on with something that the value universe below cannot
    express (a dictionary key that is not a string, the text of a float or
    arithmetic on floats). *)
Inductive exn_class :=
| ValueError | KeyError | TypeError | AttributeError | IndexError
| RuntimeError | RuntimeWarning | NotImplementedError | OverflowError
| OutsideModel.

Definition class_name (c : exn_class) : string :=
  match c with
  | ValueError => "ValueError" | KeyError => "KeyError" | TypeError => "TypeError"
  | AttributeError => "AttributeError" | IndexError => "IndexError"
  | RuntimeError => "RuntimeError" | RuntimeWarning => "RuntimeWarning"
  | NotImplementedError => "NotImplementedError" | OverflowError => "OverflowError"
  | OutsideModel => "OutsideModel"
  end.

(** An exception: the built-in class it is an instance of, the name of its
    own class ([e.__class__.__name__], which differs for a subclass defined
    by a library) and [str(e)]. *)
Record exn := Exn { exn_cls : exn_class; exn_name : string; exn_msg : string }.

Inductive result (A : Type) :=
| Ok (a : A)
| Raise (e : exn).
Arguments Ok {A} a.
Arguments Raise {A} e.

#[export] Instance result_ret : MRet result := @Ok.
#[export] Instance result_bind : MBind result := λ A B f m,
  match m with Ok a => f a | Raise e => Raise e end.

#[export] Instance result_fmap : FMap result := λ A B f m,
  match m with Ok a => Ok (f a) | Raise e => Raise e end.

Definition raise {A} (c : exn_class) (msg : string) : result A :=
  Raise (Exn c (class_name c) msg).

(** The state-and-error monad: a Python method that mutates [self] and may
    raise.  The state survives the exception. *)
Definition M (S A : Type) : Type := S → result A * S.

#[export] Instance M_ret {S} : MRet (M S) := λ A a s, (Ok a, s).
#[export] Instance M_bind {S} : MBind (M S) := λ A B f m s,
  match m s with
  | (Ok a, s') => f a s'
  | (Raise e, s') => (Raise e, s')
  end.

Definition get {S} : M S S := λ s, (Ok s, s).
Definition put {S} (s : S) : M S unit := λ _, (Ok tt, s).
Definition modify {S} (f : S → S) : M S unit := λ s, (Ok tt, f s).
Definition throw {S A} (c : exn_class) (msg : string) : M S A :=
  λ s, (Raise (Exn c (class_name c) msg), s).
Definition lift {S A} (r : result A) : M S A := λ s, (r, s).

(** The values that travel through gates and over the wire.  A float is
    carried by its IEEE-754 binary64 bit pattern; the keys of a mapping are
    strings. *)
Inductive value :=
| VNone
| VBool (b : bool)
| VInt (n : Z)
| VFloat (bits : Z)
| VStr (s : string)
| VList (l : list value)
| VDict (d : list (string * value)).

(** An insertion-ordered [dict] with string keys. *)
Definition dict (A : Type) : Type := list (string * A).

Section dict.
Context {A : Type}.

(** [d.get(k)] *)
Fixpoint dict_get (d : dict A) (k : string) : option A :=
  match d with
  | [] => None
  | (k', v) :: d' => if String.eqb k' k then Some v else dict_get d' k
  end.

Definition dict_mem (d : dict A) (k : string) : bool :=
  match dict_get d k with Some _ => true | None => false end.

(** [d[k] = v]: an existing key keeps its position, a new key goes last. *)
Fixpoint dict_set (d : dict A) (k : string) (v : A) : dict A :=
  match d with
  | [] => [(k, v)]
  | (k', v') :: d' =>
      if String.eqb k' k then (k', v) :: d' else (k', v') :: dict_set d' k v
  end.

(** [del d[k]] when [k] is present; [d.pop(k, None)] discards the value. *)
Fixpoint dict_del (d : dict A) (k : string) : dict A :=
  match d with
  | [] => []
  | (k', v') :: d' =>
      if String.eqb k' k then d' else (k', v') :: dict_del d' k
  end.

(** [d.update(other)] *)
Definition dict_update (d other : dict A) : dict A :=
  fold_left (λ acc kv, dict_set acc kv.1 kv.2) other d.

Definition dict_keys (d : dict A) : list string := fst <$> d.
End dict.

(** *** Equality *)









(** A [for] loop whose body may raise: the first exception ends the loop. *)
Fixpoint for_each {A S} (body : S → A → result S) (l : list A) (s : S) : result S :=
  match l with
  | [] => Ok s
  | x :: l' => s' ← body s x; for_each body l' s'
  end.

(** The same for a body that also changes the state of [self]. *)
Fixpoint for_eachM {A S T} (body : T → A → M S T) (l : list A) (t : T) : M S T :=
  match l with
  | [] => mret t
  | x :: l' => t' ← body t x; for_eachM body l' t'
  end.

(** [repr] of a string, without escapes. *)
Definition repr_str (s : string) : string := "'" ++ s ++ "'".

(** [sep.join(items)] *)
Fixpoint join (sep : string) (items : list string) : string :=
  match items with
  | [] => ""
  | [x] => x
  | x :: rest => x ++ sep ++ join sep rest
  end.

End Py.
Export Py.


(** ** [_utils.py]: dictionary utilities *)
Module Utils.

(** [inner_merge(to_update, key, mapping)].  The containers it is used on
    hold dictionaries only, so [isinstance(to_update.get(key, None), dict)]
    is the test for the presence of [key]. *)
Definition inner_merge {A} (to_update : dict (dict A)) (key : string)
    (mapping : dict A) : dict (dict A) :=
  match dict_get to_update key with
  | Some item => dict_set to_update key (dict_update item mapping)
  | None => dict_set to_update key mapping
  end.

(** [str.split(sep)] for a non-empty separator: [skip] counts the characters
    of a matched separator that are still to be dropped, [cur] is the piece
    being read. *)
Fixpoint split_from (sep s : string) (skip : nat) (cur : string) : list string :=
  match s with
  | EmptyString => [cur]
  | String a s' =>
      match skip with
      | S n => split_from sep s' n cur
      | O =>
          if String.prefix sep s
          then cur :: split_from sep s' (String.length sep - 1) ""
          else split_from sep s' 0 (cur ++ String a "")
      end
  end.

Definition split (s sep : string) : result (list string) :=
  match sep with
  | EmptyString => raise ValueError "empty separator"
  | _ => Ok (split_from sep s 0 "")
  end.

(** [sub in s] for two strings. *)
Fixpoint contains (sub s : string) : bool :=
  String.prefix sub s ||
  match s with
  | EmptyString => false
  | String _ s' => contains sub s'
  end.

(** [key in l] for a string [key] and a list [l]: only a string compares
    equal to a string. *)
Definition list_has_str (key : string) (l : list value) : bool :=
  existsb (λ v, match v with VStr s => String.eqb s key | _ => false end) l.

(** [_get_nested_util(route, mapping)].  [key not in mapping] and
    [mapping[key]] are written out for each kind of value that [mapping] can
    be once the walk has left the top-level dictionary. *)
Fixpoint _get_nested_util (route : list string) (mapping : value) : result value :=
  match route with
  | [] => raise IndexError "pop from empty list"
  | key :: route' =>
      match mapping with
      | VNone => Ok VNone
      | VDict d =>
          match dict_get d key with
          | None => Ok VNone
          | Some item =>
              match route' with
              | [] => Ok item
              | _ => _get_nested_util route' item
              end
          end
      | VStr s =>
          if contains key s
          then raise TypeError "string indices must be integers"
          else Ok VNone
      | VList l =>
          if list_has_str key l
          then raise TypeError "list indices must be integers or slices, not str"
          else Ok VNone
      | VBool _ => raise TypeError "argument of type 'bool' is not iterable"
      | VInt _ => raise TypeError "argument of type 'int' is not iterable"
      | VFloat _ => raise TypeError "argument of type 'float' is not iterable"
      end
  end.

Definition get_nested_with (keys : string) (mapping : value) (delimiter : string)
    : result value :=
  route ← split keys delimiter; _get_nested_util route mapping.

(** [get_nested(keys, mapping)] with the default delimiter. *)
Definition get_nested (keys : string) (mapping : value) : result value :=
  get_nested_with keys mapping ".".

(** The observation map of a servo, as [ServoComponent.read] builds it. *)
Definition servo_observations : value :=
  VDict [("servo", VDict [("angle", VInt 90); ("is_active", VBool false)])].

(** A mapping whose values are mappings all the way down to depth [n]. *)
Fixpoint mappings_to_depth (n : nat) (v : value) : Prop :=
  match n with
  | O => True
  | S n' =>
      match v with
      | VDict d => ∀ k item, dict_get d k = Some item → mappings_to_depth n' item
      | VNone => True
      | _ => False
      end
  end.

(** A value that is neither a container nor [None]. *)
Definition is_scalar (v : value) : bool :=
  match v with
  | VBool _ | VInt _ | VFloat _ => true
  | _ => false
  end.

End Utils.
(** ** [_graph.py]: directed graphs as a dict of successor sets *)
Module Graph.

(** A node's container is a [set] or a subclass of [set] that carries more
    data (a [Gate]); the graph functions only touch the set part.  Each node
    owns its container, as [add_node] with its default and [add_gate] make
    them: no two nodes share one set object. *)
Class SetLike (K C : Type) `{Countable K} := {
  members : C → gset K;
  with_members : gset K → C → C;
  members_with_members : ∀ s c, members (with_members s c) = s
}.

#[export] Instance gset_SetLike `{Countable K} : SetLike K (gset K) := {|
  members := λ s, s;
  with_members := λ s _, s;
  members_with_members := λ _ _, eq_refl
|}.

Section graph.
Context `{Countable K} `{!SetLike K C}.
(** [repr(key)], for the message of a [KeyError]. *)
Variable repr : K → string.

Implicit Types graph : gmap K C.

(** [graph[key] = container] *)
Definition add_node graph (key : K) (container : C) : gmap K C :=
  <[key := container]> graph.

(** The body of the loop of [remove_node]:
    [if key in graph[node_key]: graph[node_key].remove(key)]. *)
Definition discard_inbound (key : K) graph (node_key : K) : gmap K C :=
  match graph !! node_key with
  | Some node =>
      if decide (key ∈ members node)
      then <[node_key := with_members (members node ∖ {[key]}) node]> graph
      else graph
  | None => graph
  end.

Definition remove_node graph (key : K) : gmap K C :=
  if decide (key ∈ dom graph) then
    let graph' := delete key graph in
    set_fold (λ node_key g, discard_inbound key g node_key) graph' (dom graph')
  else graph.

Definition add_edge graph (from_key to_key : K) : result (gmap K C) :=
  if decide (from_key = to_key) then
    raise ValueError "A node cannot be connected to itself"
  else
    match graph !! from_key with
    | Some node =>
        Ok (<[from_key := with_members (members node ∪ {[to_key]}) node]> graph)
    | None => raise KeyError (repr from_key)
    end.

(** [set.remove] raises [KeyError] on a missing element. *)
Definition remove_edge graph (from_key to_key : K) : result (gmap K C) :=
  match graph !! from_key with
  | Some node =>
      if decide (to_key ∈ members node)
      then Ok (<[from_key := with_members (members node ∖ {[to_key]}) node]> graph)
      else raise KeyError (repr to_key)
  | None => raise KeyError (repr from_key)
  end.

Definition get_in_neighbors graph (key : K) : gset K :=
  dom (filter (λ kn, key ∈ members kn.2) graph).

Definition get_out_neighbors graph (key : K) : result (gset K) :=
  match graph !! key with
  | Some node => Ok (members node)
  | None => raise KeyError (repr key)
  end.

Definition get_in_degree graph (key : K) : nat :=
  size (get_in_neighbors graph key).

(** [get_isolated] only asks for the out-degree of keys of the graph, so
    the lookup cannot fail. *)
Definition get_isolated graph : gset K :=
  dom (filter (λ kn, get_in_degree graph kn.1 = 0 ∧ size (members kn.2) = 0) graph).

(** What the loop of [remove_node] does to one container. *)
Definition strip (key : K) (node : C) : C :=
  if decide (key ∈ members node)
  then with_members (members node ∖ {[key]}) node
  else node.

(** Some node of the graph has [key] among its successors. *)
Definition has_edge_to graph (key : K) : Prop :=
  ∃ node_key node, graph !! node_key = Some node ∧ key ∈ members node.

End graph.

(** A graph over strings with one node [a] whose only successor [b] is not
    a node. *)
Definition dangling : gmap string (gset string) := {[ "a" := {[ "b" ]} ]}.

End Graph.


(** ** [connection.py]: the Request/Response envelope *)
Module Connection.

Definition bytes : Type := list Byte.byte.

(** The [msgpack] package is a dependency of the repository, not part of it:
    [dumps] and [loads] are taken as an interface.  Both may raise. *)
Class Codec := {
  dumps : value → result bytes;
  loads : bytes → result value
}.

(** The types that annotate the fields of the two dataclasses. *)
Inductive field_type := TFloat | TList | TDict | TStr.

Definition isinstance (v : value) (t : field_type) : bool :=
  match t, v with
  | TFloat, VFloat _ => true
  | TList, VList _ => true
  | TDict, VDict _ => true
  | TStr, VStr _ => true
  | _, _ => false
  end.

(** A dataclass: its [__annotations__] in declaration order, and the class
    attributes that [@dataclass] leaves behind, which are the defaults of the
    fields that have one.  A field without a default is not an attribute of
    the class. *)
Record dataclass := {
  cls_name : string;
  annotations : list (string * field_type);
  class_attrs : dict value
}.

(** An instance of a dataclass: its fields in declaration order.  Two
    instances are equal when they are of the same class and their fields
    are. *)
Record instance := {
  cls_of : string;
  fields : dict value
}.

Definition Request_cls : dataclass := {|
  cls_name := "Request";
  annotations := [("sent_time", TFloat); ("items", TList)];
  class_attrs := []
|}.

Definition Response_cls : dataclass := {|
  cls_name := "Response";
  annotations := [("received_time", TFloat); ("sent_time", TFloat);
                  ("feedback", TDict); ("error", TStr)];
  class_attrs := [("feedback", VNone); ("error", VNone)]
|}.

(** [Request(sent_time, items)] *)
Definition Request (sent_time items : value) : instance :=
  {| cls_of := "Request";
     fields := [("sent_time", sent_time); ("items", items)] |}.

(** [Response(received_time, sent_time, feedback, error)] *)
Definition Response (received_time sent_time feedback error : value) : instance :=
  {| cls_of := "Response";
     fields := [("received_time", received_time); ("sent_time", sent_time);
                ("feedback", feedback); ("error", error)] |}.


(** [getattr(instance, name)] for a field of the instance. *)
Definition field (r : instance) (name : string) : value :=
  default VNone (dict_get (fields r) name).


Definition is_none (v : value) : bool :=
  match v with VNone => true | _ => false end.

(** [Response.error_occurred] *)
Definition error_occurred (r : instance) : bool := negb (is_none (field r "error")).

(** The generated [__init__], called with the decoded mapping as keyword
    arguments. *)
Definition init_field (datacls : dataclass) (kwargs : dict value)
    (ann : string * field_type) : result (string * value) :=
  match dict_get kwargs ann.1 with
  | Some v => Ok (ann.1, v)
  | None =>
      match dict_get (class_attrs datacls) ann.1 with
      | Some v => Ok (ann.1, v)
      | None =>
          raise TypeError
            ("__init__() missing 1 required positional argument: " ++ repr_str ann.1)
      end
  end.

Definition instantiate (datacls : dataclass) (kwargs : dict value) : result instance :=
  match List.find (λ k, negb (dict_mem (annotations datacls) k)) (dict_keys kwargs) with
  | Some k =>
      raise TypeError ("__init__() got an unexpected keyword argument " ++ repr_str k)
  | None =>
      fs ← mapM (init_field datacls kwargs) (annotations datacls);
      Ok {| cls_of := cls_name datacls; fields := fs |}
  end.

(** The condition of the comprehension in [_get_unsatisfied_fields]:
    [not isinstance(mapping.get(field, None), field_type)
     and getattr(datacls, field) is not None].
    The right operand is only evaluated when the left one holds, and
    [getattr] raises for a name that is not an attribute of the class. *)
Definition field_unsatisfied (datacls : dataclass) (mapping : dict value)
    (field : string) (field_type : field_type) : result bool :=
  if isinstance (default VNone (dict_get mapping field)) field_type then Ok false
  else
    match dict_get (class_attrs datacls) field with
    | Some attr => Ok (negb (is_none attr))
    | None =>
        raise AttributeError
          ("type object " ++ repr_str (cls_name datacls)
           ++ " has no attribute " ++ repr_str field)
    end.

Fixpoint collect_unsatisfied (datacls : dataclass) (mapping : dict value)
    (anns : list (string * field_type)) : result (list string) :=
  match anns with
  | [] => Ok []
  | (field, field_type) :: anns' =>
      b ← field_unsatisfied datacls mapping field field_type;
      rest ← collect_unsatisfied datacls mapping anns';
      Ok (if b : bool then field :: rest else rest)
  end.

(** The result is a set in Python; it is listed here in the order of the
    annotations. *)
Definition _get_unsatisfied_fields (datacls : dataclass) (mapping : value)
    : result (list string) :=
  match mapping with
  | VDict m => collect_unsatisfied datacls m (annotations datacls)
  | _ => raise AttributeError "object has no attribute 'get'"
  end.

(** The first field, in the order of the annotations, whose value in
    [mapping] is not of the annotated type and which has no default. *)
Definition first_unsatisfied_required (datacls : dataclass) (mapping : dict value)
    : option (string * field_type) :=
  List.find
    (λ ann, negb (isinstance (default VNone (dict_get mapping ann.1)) ann.2)
            && negb (dict_mem (class_attrs datacls) ann.1))
    (annotations datacls).



Section codec.
Context `{Codec}.


(** [msgpack.dumps(to_encode.copy())] *)
Definition encode_transaction (to_encode : dict value) : result bytes :=
  dumps (VDict to_encode).

Definition _decode_transaction (datacls : dataclass) (to_decode : bytes)
    : result instance :=
  decoded ← loads to_decode;
  unsatisfied ← _get_unsatisfied_fields datacls decoded;
  match unsatisfied with
  | _ :: _ =>
      raise ValueError
        ("Received does not satisfy the following fields: " ++ join ", " unsatisfied)
  | [] =>
      match decoded with
      | VDict kwargs => instantiate datacls kwargs
      | _ => raise TypeError "argument after ** must be a mapping"
      end
  end.

Definition decode_request (to_decode : bytes) : result instance :=
  _decode_transaction Request_cls to_decode.

Definition decode_response (to_decode : bytes) : result instance :=
  _decode_transaction Response_cls to_decode.

End codec.
End Connection.

(** ** The msgpack wire format

    A model of the format for the value universe of this development (nil,
    booleans, integers, binary64 floats, strings, arrays, string-keyed maps),
    written from the format's public description.  It instantiates [Codec]
    so that payloads can be written down as bytes. *)
Module Msgpack.
Local Open Scope list_scope.
Import Connection.

Definition byte_of_Z (z : Z) : Byte.byte :=
  default Byte.x00 (Byte.of_N (Z.to_N (z mod 256))).

Definition Z_of_byte (b : Byte.byte) : Z := Z.of_N (Byte.to_N b).

(** The [n] low bytes of [z], most significant first. *)
Fixpoint be_bytes (n : nat) (z : Z) : bytes :=
  match n with
  | O => []
  | S n' => byte_of_Z (z / 256 ^ Z.of_nat n') :: be_bytes n' z
  end.

Definition be_value (bs : bytes) : Z :=
  fold_left (λ acc b, (acc * 256 + Z_of_byte b)%Z) bs 0%Z.

(** The header of a string, array or map of [n] elements. *)
Definition pack_len (fix_base : Z) (fix_max : Z) (wide : list (Z * nat))
    (n : nat) : result bytes :=
  let z := Z.of_nat n in
  if (z <? fix_max)%Z then Ok [byte_of_Z (fix_base + z)]
  else
    match List.find (λ w, (z <? 256 ^ Z.of_nat w.2)%Z) wide with
    | Some (tag, width) => Ok (byte_of_Z tag :: be_bytes width z)
    | None => raise ValueError "object is too large"
    end.

Definition pack_int (n : Z) : result bytes :=
  if ((0 <=? n) && (n <? 128))%Z then Ok [byte_of_Z n]
  else if ((-32 <=? n) && (n <? 0))%Z then Ok [byte_of_Z (n + 256)]
  else if (0 <=? n)%Z then
    if (n <? 2 ^ 8)%Z then Ok (byte_of_Z 0xcc :: be_bytes 1 n)
    else if (n <? 2 ^ 16)%Z then Ok (byte_of_Z 0xcd :: be_bytes 2 n)
    else if (n <? 2 ^ 32)%Z then Ok (byte_of_Z 0xce :: be_bytes 4 n)
    else if (n <? 2 ^ 64)%Z then Ok (byte_of_Z 0xcf :: be_bytes 8 n)
    else raise OverflowError "Integer value out of range"
  else
    if (- 2 ^ 7 <=? n)%Z then Ok (byte_of_Z 0xd0 :: be_bytes 1 (n + 2 ^ 8))
    else if (- 2 ^ 15 <=? n)%Z then Ok (byte_of_Z 0xd1 :: be_bytes 2 (n + 2 ^ 16))
    else if (- 2 ^ 31 <=? n)%Z then Ok (byte_of_Z 0xd2 :: be_bytes 4 (n + 2 ^ 32))
    else if (- 2 ^ 63 <=? n)%Z then Ok (byte_of_Z 0xd3 :: be_bytes 8 (n + 2 ^ 64))
    else raise OverflowError "Integer value out of range".

Definition pack_str (s : string) : result bytes :=
  let body := String.list_byte_of_string s in
  hd ← pack_len 0xa0 32 [(0xd9%Z, 1%nat); (0xda%Z, 2%nat); (0xdb%Z, 4%nat)] (length body);
  Ok (hd ++ body).

Fixpoint pack (v : value) : result bytes :=
  match v with
  | VNone => Ok [byte_of_Z 0xc0]
  | VBool false => Ok [byte_of_Z 0xc2]
  | VBool true => Ok [byte_of_Z 0xc3]
  | VInt n => pack_int n
  | VFloat bits => Ok (byte_of_Z 0xcb :: be_bytes 8 bits)
  | VStr s => pack_str s
  | VList l =>
      hd ← pack_len 0x90 16 [(0xdc%Z, 2%nat); (0xdd%Z, 4%nat)] (length l);
      body ← (fix pack_all (l : list value) : result bytes :=
                match l with
                | [] => Ok []
                | x :: l' => a ← pack x; b ← pack_all l'; Ok (a ++ b)
                end) l;
      Ok (hd ++ body)
  | VDict d =>
      hd ← pack_len 0x80 16 [(0xde%Z, 2%nat); (0xdf%Z, 4%nat)] (length d);
      body ← (fix pack_all (d : list (string * value)) : result bytes :=
                match d with
                | [] => Ok []
                | (k, x) :: d' =>
                    a ← pack_str k; b ← pack x; c ← pack_all d'; Ok (a ++ b ++ c)
                end) d;
      Ok (hd ++ body)
  end.

Definition take_bytes (n : nat) (bs : bytes) : result (bytes * bytes) :=
  if (length bs <? n)%nat then raise ValueError "Unpack failed: incomplete input"
  else Ok (take n bs, drop n bs).

(** A big-endian unsigned number of [width] bytes. *)
Definition unpack_uint (width : nat) (bs : bytes) : result (Z * bytes) :=
  '(hd, rest) ← take_bytes width bs; Ok (be_value hd, rest).

Definition unpack_sint (width : nat) (bs : bytes) : result (Z * bytes) :=
  '(u, rest) ← unpack_uint width bs;
  let half := (256 ^ Z.of_nat width / 2)%Z in
  Ok (if (u <? half)%Z then u else (u - 2 * half)%Z, rest).

Definition unpack_str (n : nat) (bs : bytes) : result (value * bytes) :=
  '(body, rest) ← take_bytes n bs; Ok (VStr (String.string_of_list_byte body), rest).

(** [n] objects in a row, each read by [one]. *)
Fixpoint unpack_seq {A} (one : bytes → result (A * bytes)) (n : nat) (bs : bytes)
    : result (list A * bytes) :=
  match n with
  | O => Ok ([], bs)
  | S n' =>
      '(x, rest) ← one bs;
      '(xs, rest') ← unpack_seq one n' rest;
      Ok (x :: xs, rest')
  end.

(** A map entry; the key of a map has to be a string. *)
Definition unpack_entry (one : bytes → result (value * bytes)) (bs : bytes)
    : result ((string * value) * bytes) :=
  '(k, rest) ← one bs;
  match k with
  | VStr key => '(v, rest') ← one rest; Ok ((key, v), rest')
  | _ => raise ValueError "key is not allowed for map key when strict_map_key=True"
  end.

Definition unpack_array (one : bytes → result (value * bytes)) (n : nat) (bs : bytes)
    : result (value * bytes) :=
  '(xs, rest) ← unpack_seq one n bs; Ok (VList xs, rest).

Definition unpack_map (one : bytes → result (value * bytes)) (n : nat) (bs : bytes)
    : result (value * bytes) :=
  '(kvs, rest) ← unpack_seq (unpack_entry one) n bs;
  Ok (VDict (fold_left (λ acc kv, dict_set acc kv.1 kv.2) kvs []), rest).

(** One object off the front of [bs].  [fuel] bounds the nesting depth;
    types outside the universe (bin, ext, float32) are refused. *)
Fixpoint unpack (fuel : nat) (bs : bytes) : result (value * bytes) :=
  match fuel with
  | O => Raise (Exn ValueError "StackError" "recursion limit exceeded.")
  | S fuel' =>
      match bs with
      | [] => raise ValueError "Unpack failed: incomplete input"
      | b :: rest =>
          let t := Z_of_byte b in
          if (t <? 0x80)%Z then Ok (VInt t, rest)
          else if (t <? 0x90)%Z then unpack_map (unpack fuel') (Z.to_nat (t - 0x80)) rest
          else if (t <? 0xa0)%Z then unpack_array (unpack fuel') (Z.to_nat (t - 0x90)) rest
          else if (t <? 0xc0)%Z then unpack_str (Z.to_nat (t - 0xa0)) rest
          else if (t =? 0xc0)%Z then Ok (VNone, rest)
          else if (t =? 0xc2)%Z then Ok (VBool false, rest)
          else if (t =? 0xc3)%Z then Ok (VBool true, rest)
          else if (t =? 0xcb)%Z then '(f, r) ← unpack_uint 8 rest; Ok (VFloat f, r)
          else if (t =? 0xcc)%Z then '(n, r) ← unpack_uint 1 rest; Ok (VInt n, r)
          else if (t =? 0xcd)%Z then '(n, r) ← unpack_uint 2 rest; Ok (VInt n, r)
          else if (t =? 0xce)%Z then '(n, r) ← unpack_uint 4 rest; Ok (VInt n, r)
          else if (t =? 0xcf)%Z then '(n, r) ← unpack_uint 8 rest; Ok (VInt n, r)
          else if (t =? 0xd0)%Z then '(n, r) ← unpack_sint 1 rest; Ok (VInt n, r)
          else if (t =? 0xd1)%Z then '(n, r) ← unpack_sint 2 rest; Ok (VInt n, r)
          else if (t =? 0xd2)%Z then '(n, r) ← unpack_sint 4 rest; Ok (VInt n, r)
          else if (t =? 0xd3)%Z then '(n, r) ← unpack_sint 8 rest; Ok (VInt n, r)
          else if (t =? 0xd9)%Z then
            '(n, r) ← unpack_uint 1 rest; unpack_str (Z.to_nat n) r
          else if (t =? 0xda)%Z then
            '(n, r) ← unpack_uint 2 rest; unpack_str (Z.to_nat n) r
          else if (t =? 0xdb)%Z then
            '(n, r) ← unpack_uint 4 rest; unpack_str (Z.to_nat n) r
          else if (t =? 0xdc)%Z then
            '(n, r) ← unpack_uint 2 rest; unpack_array (unpack fuel') (Z.to_nat n) r
          else if (t =? 0xdd)%Z then
            '(n, r) ← unpack_uint 4 rest; unpack_array (unpack fuel') (Z.to_nat n) r
          else if (t =? 0xde)%Z then
            '(n, r) ← unpack_uint 2 rest; unpack_map (unpack fuel') (Z.to_nat n) r
          else if (t =? 0xdf)%Z then
            '(n, r) ← unpack_uint 4 rest; unpack_map (unpack fuel') (Z.to_nat n) r
          else if (0xe0 <=? t)%Z then Ok (VInt (t - 256), rest)
          else raise OutsideModel "bin, ext and float32 objects"
      end
  end.

Definition unpackb (bs : bytes) : result value :=
  '(v, rest) ← unpack (S (length bs)) bs;
  match rest with
  | [] => Ok v
  | _ => Raise (Exn ValueError "ExtraData" "unpack(b) received extra data.")
  end.

(** The values that the format can carry: integers of 64 bits, strings and
    containers whose length fits 32 bits, mappings without a repeated key. *)
Fixpoint packable (v : value) : Prop :=
  match v with
  | VNone | VBool _ => True
  | VInt n => (- 2 ^ 63 ≤ n < 2 ^ 64)%Z
  | VFloat bits => (0 ≤ bits < 2 ^ 64)%Z
  | VStr s => (Z.of_nat (length (String.list_byte_of_string s)) < 2 ^ 32)%Z
  | VList l =>
      (Z.of_nat (length l) < 2 ^ 32)%Z ∧ foldr (λ x acc, packable x ∧ acc) True l
  | VDict d =>
      (Z.of_nat (length d) < 2 ^ 32)%Z ∧ NoDup (d.*1) ∧
      foldr (λ kx acc,
               (Z.of_nat (length (String.list_byte_of_string kx.1)) < 2 ^ 32)%Z ∧
               packable kx.2 ∧ acc) True d
  end.

(** The nesting depth of a value. *)
Fixpoint depth (v : value) : nat :=
  match v with
  | VList l => S (max_list (depth <$> l))
  | VDict d => S (max_list ((λ kx, depth kx.2) <$> d))
  | _ => 1
  end.

(** The bytes of a value that can be packed. *)
Definition enc (v : value) : bytes :=
  match pack v with Ok b => b | Raise _ => [] end.

Definition enc_entry (kx : string * value) : bytes :=
  enc (VStr kx.1) ++ enc kx.2.

(** Packing succeeds, and unpacking the bytes in front of any others gives
    the value back and leaves the others. *)
Definition round_trip (v : value) : Prop :=
  packable v →
  ∃ b, pack v = Ok b ∧ (depth v ≤ length b)%nat ∧
       ∀ fuel rest, (depth v ≤ fuel)%nat → unpack fuel (b ++ rest) = Ok (v, rest).

(** [msgpack.dumps({})]: a request with neither [sent_time] nor [items]. *)
Definition empty_map_payload : bytes := [byte_of_Z 0x80].

(** The bytes of a mapping that can be packed. *)
Definition payload_of (mapping : dict value) : bytes :=
  match pack (VDict mapping) with
  | Ok b => b
  | Raise _ => []
  end.

#[export] Instance msgpack_codec : Codec := {| dumps := pack; loads := unpackb |}.

End Msgpack.

(** ** [gatenetwork.py]: the orchestration engine *)
Module GateNetwork.
Import Graph Utils.

(** The order in which a [for] loop visits the elements of a set.  Python
    does not specify it; any order that lists exactly the elements is
    allowed. *)
Class SetOrder := {
  iter_set : gset string → list string;
  iter_set_perm : ∀ s, iter_set s ≡ₚ elements s
}.

(** A [Gate] is a [set] (of the tags of its children) that carries a
    procedure.  The procedure is a function of the feed it finds in
    [gate.feed]; it may raise.  No client is attached to the gates
    ([add_gate]'s default), so [Gate.run] sends nothing after the
    procedure. *)
Record Gate := {
  children : gset string;
  _procedure : value → result value
}.

#[export] Instance Gate_SetLike : SetLike string Gate := {|
  members := children;
  with_members := λ s g, {| children := s; _procedure := _procedure g |};
  members_with_members := λ _ _, eq_refl
|}.

(** [Gate(procedure)] *)
Definition new_gate (procedure : value → result value) : Gate :=
  {| children := ∅; _procedure := procedure |}.

(** The value of [_conditional_edges] for an edge: [(path, evaluator, target)]. *)
Record condition := {
  location : string;
  evaluator : value → value → result bool;
  target : value
}.

(** The network is a [dict] from tags to gates with a few attributes.
    [invoked] and [warned] are not attributes of the class: they record, in
    order, the gates whose procedure has been called and the warnings
    emitted. *)
Record GateNetwork := {
  gates : gmap string Gate;
  epoch_count : Z;
  _max_epochs : option Z;
  _conditional_edges : gmap (string * string) condition;
  invoked : list string;
  warned : list string
}.

Definition empty_network : GateNetwork := {|
  gates := ∅; epoch_count := 0; _max_epochs := None;
  _conditional_edges := ∅; invoked := []; warned := []
|}.

Definition with_gates (g : gmap string Gate) (net : GateNetwork) : GateNetwork :=
  {| gates := g; epoch_count := epoch_count net; _max_epochs := _max_epochs net;
     _conditional_edges := _conditional_edges net; invoked := invoked net;
     warned := warned net |}.

Definition with_epoch_count (n : Z) (net : GateNetwork) : GateNetwork :=
  {| gates := gates net; epoch_count := n; _max_epochs := _max_epochs net;
     _conditional_edges := _conditional_edges net; invoked := invoked net;
     warned := warned net |}.

Definition with_max_epochs (n : option Z) (net : GateNetwork) : GateNetwork :=
  {| gates := gates net; epoch_count := epoch_count net; _max_epochs := n;
     _conditional_edges := _conditional_edges net; invoked := invoked net;
     warned := warned net |}.

Definition with_conditional_edges (c : gmap (string * string) condition)
    (net : GateNetwork) : GateNetwork :=
  {| gates := gates net; epoch_count := epoch_count net; _max_epochs := _max_epochs net;
     _conditional_edges := c; invoked := invoked net; warned := warned net |}.

Definition log_invoked (tag : string) (net : GateNetwork) : GateNetwork :=
  {| gates := gates net; epoch_count := epoch_count net; _max_epochs := _max_epochs net;
     _conditional_edges := _conditional_edges net;
     invoked := (invoked net ++ [tag])%list; warned := warned net |}.

Definition log_warning (msg : string) (net : GateNetwork) : GateNetwork :=
  {| gates := gates net; epoch_count := epoch_count net; _max_epochs := _max_epochs net;
     _conditional_edges := _conditional_edges net;
     invoked := invoked net; warned := (warned net ++ [msg])%list |}.

(** *** Building a network *)

Definition set_max_epochs (n : Z) : M GateNetwork unit :=
  if (n <? 1)%Z then throw ValueError "The max epochs can't be less than 1."
  else modify (with_max_epochs (Some n)).

Definition get_max_epochs : M GateNetwork (option Z) :=
  net ← get; mret (_max_epochs net).

Definition add_gate (tag : string) (procedure : value → result value)
    : M GateNetwork unit :=
  modify (λ net, with_gates (add_node (gates net) tag (new_gate procedure)) net).

Definition remove_gate (tag : string) : M GateNetwork unit :=
  modify (λ net, with_gates (remove_node (gates net) tag) net).

Definition add_edge (from_tag to_tag : string) : M GateNetwork unit :=
  net ← get;
  g ← lift (Graph.add_edge repr_str (gates net) from_tag to_tag);
  put (with_gates g net).

Definition remove_edge (from_tag to_tag : string) : M GateNetwork unit :=
  net ← get;
  g ← lift (Graph.remove_edge repr_str (gates net) from_tag to_tag);
  put (with_gates g net).

(** [add_conditional_edge] without a fallback: the condition is registered
    before the edge is added. *)
Definition add_condition (from_tag to_tag : string) (cond : condition)
    : M GateNetwork unit :=
  modify (λ net, with_conditional_edges
                   (<[(from_tag, to_tag) := cond]> (_conditional_edges net)) net);;
  add_edge from_tag to_tag.

(** [lambda a, b: not evaluator(a, b)] *)
Definition negated (evaluator : value → value → result bool)
    : value → value → result bool :=
  λ a b, negb <$> evaluator a b.

(** [add_conditional_edge(from_tag, to_tag, target, path, evaluator,
    fallback_tag)]; the recursive call for the fallback has no fallback of
    its own. *)
Definition add_conditional_edge (from_tag to_tag : string) (target : value)
    (path : string) (evaluator : value → value → result bool)
    (fallback_tag : option string) : M GateNetwork unit :=
  add_condition from_tag to_tag
    {| location := path; evaluator := evaluator; target := target |};;
  match fallback_tag with
  | Some fallback =>
      add_condition from_tag fallback
        {| location := path; evaluator := negated evaluator; target := target |}
  | None => mret tt
  end.

Definition remove_conditional_edge (from_tag to_tag : string) : M GateNetwork unit :=
  modify (λ net, with_conditional_edges
                   (delete (from_tag, to_tag) (_conditional_edges net)) net);;
  remove_edge from_tag to_tag.

(** *** Resolution *)

(** [self[tag].run(feed)] *)
Definition run_gate (tag : string) (feed : value) : M GateNetwork value :=
  net ← get;
  match gates net !! tag with
  | None => throw KeyError (repr_str tag)
  | Some gate =>
      modify (log_invoked tag);;
      lift (_procedure gate feed)
  end.

(** The generation state of [_resolve_all]. *)
Record generation := {
  current_generation : dict value;
  unsatisfied : dict (dict value);
  resolved : dict value;
  to_be_evaluated : dict (dict value)
}.

(** The key of a pair that [dict.update] stores: a list or a dictionary is
    not hashable; a hashable key that is not a string is outside the value
    universe, whose mappings have string keys. *)
Definition pair_key (k : value) : result string :=
  match k with
  | VStr s => Ok s
  | VList _ => raise TypeError "unhashable type: 'list'"
  | VDict _ => raise TypeError "unhashable type: 'dict'"
  | VNone | VBool _ | VInt _ | VFloat _ =>
      raise OutsideModel "a dictionary key that is not a string"
  end.

(** The characters of a string, each as a string of its own.  A byte below
    128 is one character; how the other bytes group into characters is
    outside the model. *)
Definition characters (s : string) : result (list value) :=
  let l := list_ascii_of_string s in
  if forallb (λ a, (nat_of_ascii a <? 128)%nat) l
  then Ok ((λ a, VStr (String a EmptyString)) <$> l)
  else raise OutsideModel "the characters of a string with bytes above 127".

(** What [dict.update] makes of element number [index] of an iterable that
    is not a mapping.  The element is turned into a sequence, which has to
    have two members, the key and the value: a list is its items, a
    dictionary its keys, a string its characters; another value is not
    iterable. *)
Definition update_pair (index : nat) (element : value) : result (string * value) :=
  members ←
    match element with
    | VList l => Ok l
    | VDict d => Ok (VStr <$> dict_keys d)
    | VStr s => characters s
    | VNone | VBool _ | VInt _ | VFloat _ =>
        raise TypeError
          ("cannot convert dictionary update sequence element #" ++ pretty index
           ++ " to a sequence")
    end;
  match members with
  | [k; v] => key ← pair_key k; Ok (key, v)
  | _ =>
      raise ValueError
        ("dictionary update sequence element #" ++ pretty index ++ " has length "
         ++ pretty (length members) ++ "; 2 is required")
  end.

(** The pairs of the elements of an iterable, in order; the first element
    that is not a pair ends the update with its error. *)
Fixpoint update_pairs (index : nat) (elements : list value) : result (dict value) :=
  match elements with
  | [] => Ok []
  | element :: rest =>
      pair ← update_pair index element;
      pairs ← update_pairs (S index) rest;
      Ok (pair :: pairs)
  end.

(** The argument of [super_result.update(...)] at line 205:
    [descendants[parent_tag] if descendants[parent_tag] is not None else {}],
    as the key/value pairs that [update] assigns, in order.  A mapping gives
    its items.  A scalar makes [update] raise.  A list is an iterable of
    pairs; the pairs are listed as they come, so that a key may occur more
    than once, and [dict_update] assigns them one after the other.  A string
    is an iterable of its characters, each a sequence of length one: the
    empty string updates nothing and any other raises at its first
    character. *)
Definition update_argument (result : value) : Py.result (dict value) :=
  match result with
  | VNone => Ok []
  | VDict d => Ok d
  | VBool _ | VInt _ | VFloat _ => raise TypeError "object is not iterable"
  | VList l => update_pairs 0 l
  | VStr EmptyString => Ok []
  | VStr (String _ _) =>
      raise ValueError "dictionary update sequence element #0 has length 1; 2 is required"
  end.

Section resolve.
Context `{SetOrder}.

Definition issubset (s : gset string) (d : dict value) : bool :=
  bool_decide (set_Forall (λ k, dict_mem d k = true) s).

(** Lines 198-210: the part of the loop body that the two kinds of edge
    share. *)
Definition satisfy_or_defer (current_generation_copy : dict value)
    (current_tag : string) (current_result : value) (child_tag : string)
    (unconditional_parents : gset string) (st : generation) : result generation :=
  let descendants :=
    dict_update (default [] (dict_get (unsatisfied st) child_tag))
                current_generation_copy in
  let unsatisfied' := dict_del (unsatisfied st) child_tag in
  if issubset unconditional_parents descendants then
    '(current', super_result) ←
      for_each
        (λ '(cur, super_result) parent_tag,
           arg ← update_argument (default VNone (dict_get descendants parent_tag));
           Ok (dict_del cur parent_tag, dict_update super_result arg))
        (iter_set unconditional_parents)
        (current_generation st, []);
    Ok {| current_generation := current';
          unsatisfied := unsatisfied';
          resolved := resolved st;
          to_be_evaluated := inner_merge (to_be_evaluated st) child_tag super_result |}
  else
    Ok {| current_generation := current_generation st;
          unsatisfied := inner_merge unsatisfied' child_tag [(current_tag, current_result)];
          resolved := resolved st;
          to_be_evaluated := to_be_evaluated st |}.

(** Lines 183-210: one child of the current gate. *)
Definition prime_child (net : GateNetwork) (current_generation_copy : dict value)
    (current_tag : string) (current_result : value)
    (st : generation) (child_tag : string) : result generation :=
  match _conditional_edges net !! (current_tag, child_tag) with
  | Some conditional_edge =>
      match current_result with
      | VDict _ =>
          v ← get_nested (location conditional_edge) current_result;
          live ← evaluator conditional_edge v (target conditional_edge);
          if live : bool then
            satisfy_or_defer current_generation_copy current_tag current_result
              child_tag {[current_tag]} st
          else Ok st
      | _ => Ok st
      end
  | None =>
      let unconditional_parents :=
        filter (λ parent_tag, (parent_tag, child_tag) ∉ dom (_conditional_edges net))
               (get_in_neighbors (gates net) child_tag) in
      satisfy_or_defer current_generation_copy current_tag current_result
        child_tag unconditional_parents st
  end.

(** Lines 174-210: one entry of the snapshot of the current generation. *)
Definition prime_gate (net : GateNetwork) (current_generation_copy : dict value)
    (st : generation) (entry : string * value) : result generation :=
  let '(current_tag, current_result) := entry in
  match gates net !! current_tag with
  | None => raise KeyError (repr_str current_tag)
  | Some current_gate =>
      if decide (children current_gate = ∅) then
        match dict_get (current_generation st) current_tag with
        | Some r =>
            Ok {| current_generation := dict_del (current_generation st) current_tag;
                  unsatisfied := unsatisfied st;
                  resolved := dict_set (resolved st) current_tag r;
                  to_be_evaluated := to_be_evaluated st |}
        | None => raise KeyError (repr_str current_tag)
        end
      else
        for_each (prime_child net current_generation_copy current_tag current_result)
                 (iter_set (children current_gate)) st
  end.

(** Lines 212-213: the gates primed in this epoch run, in the order in which
    they were primed, and their results enter the current generation. *)
Definition run_primed (acc : dict value) (entry : string * dict value)
    : M GateNetwork (dict value) :=
  r ← run_gate entry.1 (VDict entry.2);
  mret (dict_set acc entry.1 r).

(** One pass of the body of [while True], up to and including the increment
    of [epoch_count]. *)
Definition epoch (st : generation) : M GateNetwork generation :=
  net ← get;
  let current_generation_copy := current_generation st in
  st' ← lift (for_each (prime_gate net current_generation_copy)
                       current_generation_copy
                       {| current_generation := current_generation st;
                          unsatisfied := unsatisfied st;
                          resolved := resolved st;
                          to_be_evaluated := [] |});
  results ← for_eachM run_primed (to_be_evaluated st') [];
  modify (λ net, with_epoch_count (epoch_count net + 1) net);;
  mret {| current_generation := dict_update (current_generation st') results;
          unsatisfied := unsatisfied st';
          resolved := resolved st';
          to_be_evaluated := to_be_evaluated st' |}.

(** Line 216: [not len(current_generation) or self.epoch_count == self._max_epochs] *)
Definition finished (net : GateNetwork) (st : generation) : bool :=
  match current_generation st with
  | [] => true
  | _ => bool_decide (Some (epoch_count net) = _max_epochs net)
  end.

(** The [while True] loop.  [None] is the answer of a run that has not
    returned after [fuel] epochs. *)
Fixpoint resolve_loop (fuel : nat) (st : generation)
    : M GateNetwork (option (dict value)) :=
  match fuel with
  | O => mret None
  | S fuel' =>
      st' ← epoch st;
      net ← get;
      if finished net st' then mret (Some (resolved st'))
      else resolve_loop fuel' st'
  end.

(** The body of the loop [k] times over, without the test of line 216. *)
Fixpoint epochs (k : nat) (st : generation) : M GateNetwork generation :=
  match k with
  | O => mret st
  | S k' => st' ← epoch st; epochs k' st'
  end.

(** The tags in the current generation after each of the next [k] epochs. *)
Fixpoint generations (k : nat) (st : generation) : M GateNetwork (list (list string)) :=
  match k with
  | O => mret []
  | S k' =>
      st' ← epoch st;
      rest ← generations k' st';
      mret (dict_keys (current_generation st') :: rest)
  end.

Definition initial_generation (starting_tag : string) (r : value) : generation :=
  {| current_generation := [(starting_tag, r)];
     unsatisfied := []; resolved := []; to_be_evaluated := [] |}.

Definition _resolve_all (fuel : nat) (starting_tag : string) (initial_feed : value)
    : M GateNetwork (option (dict value)) :=
  r ← run_gate starting_tag initial_feed;
  modify (with_epoch_count 0);;
  resolve_loop fuel (initial_generation starting_tag r).

(** Lines 79-81 of [GateNetwork.run]: the warning about isolated gates. *)
Definition warn_isolated : M GateNetwork unit :=
  net ← get;
  let isolated := get_isolated (gates net) in
  if bool_decide (isolated ≠ ∅) && bool_decide (1 < size (gates net))%nat
  then modify (log_warning ("Isolated: " ++ join ", " (iter_set isolated)))
  else mret tt.

(** [GateNetwork.run] *)
Definition run (fuel : nat) (starting_tag : string) (feed : value)
    : M GateNetwork (option (dict value)) :=
  warn_isolated;; _resolve_all fuel starting_tag feed.

(** The activation followed by exactly [k] epochs and the return of
    [resolved]: what [_resolve_all] does when the test of line 216 first
    holds at the end of epoch [k]. *)
Definition resolve_exactly (k : nat) (starting_tag : string) (initial_feed : value)
    : M GateNetwork (option (dict value)) :=
  r ← run_gate starting_tag initial_feed;
  modify (with_epoch_count 0);;
  st ← epochs k (initial_generation starting_tag r);
  mret (Some (resolved st)).

(** The activation of [_resolve_all] followed by [k] epochs, reported as the
    tags in the current generation after each epoch. *)
Definition trace (k : nat) (starting_tag : string) (initial_feed : value)
    : M GateNetwork (list (list string)) :=
  r ← run_gate starting_tag initial_feed;
  modify (with_epoch_count 0);;
  generations k (initial_generation starting_tag r).

End resolve.

(** Two networks with the same gates, edges, conditions and ceiling; they
    may differ in the epoch counter and in what has been recorded. *)
Definition same_wiring (net net0 : GateNetwork) : Prop :=
  gates net = gates net0 ∧
  _conditional_edges net = _conditional_edges net0 ∧
  _max_epochs net = _max_epochs net0.

(** [net'] is [net] after some gates have run: nothing but the record of
    invocations and warnings has changed. *)
Definition framed (net net' : GateNetwork) : Prop :=
  same_wiring net' net ∧ epoch_count net' = epoch_count net.

(** *** Three networks *)

(** Gates A, B, C with the unconditional edges A→B and B→C. *)
Definition chain (pA pB pC : value → result value) : M GateNetwork unit :=
  add_gate "A" pA;; add_gate "B" pB;; add_gate "C" pC;;
  add_edge "A" "B";; add_edge "B" "C".

Definition chain_network (pA pB pC : value → result value) : GateNetwork := {|
  gates := <["A" := {| children := {["B"]}; _procedure := pA |}]>
           (<["B" := {| children := {["C"]}; _procedure := pB |}]>
           (<["C" := new_gate pC]> ∅));
  epoch_count := 0; _max_epochs := None;
  _conditional_edges := ∅; invoked := []; warned := []
|}.



(** [lambda a, b: a is b] on booleans. *)
Definition same_bool (a b : value) : result bool :=
  match a, b with
  | VBool x, VBool y => Ok (eqb x y)
  | _, _ => Ok false
  end.

(** A procedure that returns the same mapping whatever it is fed. *)
Definition always (d : dict value) : value → result value := λ _, Ok (VDict d).

(** Two gates that keep each other live: each has a conditional edge to the
    other whose predicate holds on every result.  ([add_edge] rejects an edge
    from a gate to itself, so the shortest loop has two gates.) *)
Definition ping_pong : M GateNetwork unit :=
  add_gate "A" (always [("go", VBool true)]);;
  add_gate "B" (always [("go", VBool true)]);;
  add_conditional_edge "A" "B" (VBool true) "go" same_bool None;;
  add_conditional_edge "B" "A" (VBool true) "go" same_bool None.

Definition ping_pong_network : GateNetwork := {|
  gates := <["A" := {| children := {["B"]}; _procedure := always [("go", VBool true)] |}]>
           (<["B" := {| children := {["A"]}; _procedure := always [("go", VBool true)] |}]> ∅);
  epoch_count := 0; _max_epochs := None;
  _conditional_edges :=
    <[("A", "B") := {| location := "go"; evaluator := same_bool; target := VBool true |}]>
    (<[("B", "A") := {| location := "go"; evaluator := same_bool; target := VBool true |}]> ∅);
  invoked := []; warned := []
|}.

(** Procedures for a run of the chain: each gate adds its own entry to what
    it is fed. *)
Definition stamp (key : string) (feed : value) : result value :=
  match feed with
  | VDict d => Ok (VDict (dict_set d key (VBool true)))
  | _ => Ok (VDict [(key, VBool true)])
  end.

#[export] Instance elements_order : SetOrder := {|
  iter_set := elements;
  iter_set_perm := λ _, reflexivity _
|}.

End GateNetwork.

(** ** [worker.py]: the request dispatch of the worker *)
Module Worker.
Import Utils Connection.

(** *** Components and platforms *)

(** A component class of a platform: the required arguments of its
    constructor ([get_required_args], without [self]) and the constructor
    itself, called with keyword arguments. *)
Record component_class (C : Type) := {
  required_setup_args : list string;
  construct : dict value → result C
}.
Arguments required_setup_args {C} _.
Arguments construct {C} _.

(** What the worker asks of the components of the hardware drivers.
    [platform_types] is the registry that [add_platform] fills at import
    time; [operation c name] is [getattr(c, name)], a callable that takes
    keyword arguments, or the error of the lookup; [read] is [None] for a
    component without a [read] attribute. *)
Class Driver (C : Type) := {
  platform_types : dict (dict (component_class C));
  operation : C → string → result (dict value → M C unit);
  read : C → option (M C value);
  cleanup : M C unit
}.

Section worker.
Context {C : Type} `{Driver C} `{Codec}.

(** A [PlatformABC] instance: a dict of components with the component types
    of its class. *)
Record Platform := {
  component_types : dict (component_class C);
  components : dict C
}.

(** The attributes of [Worker] that the request path uses.  A routine is
    the tuple [(executor, operation, kwargs, interval)]. *)
Record Worker := {
  _platform : option Platform;
  _routines : dict (value * value * value * value)
}.

Definition new_worker : Worker := {| _platform := None; _routines := [] |}.

Definition with_platform (p : option Platform) (w : Worker) : Worker :=
  {| _platform := p; _routines := _routines w |}.

Definition with_routines (r : dict (value * value * value * value)) (w : Worker)
    : Worker :=
  {| _platform := _platform w; _routines := r |}.

Definition with_components (cs : dict C) (p : Platform) : Platform :=
  {| component_types := component_types p; components := cs |}.

(** *** Python glue *)

(** [str(v)] as [str.format] inserts it, for the values that have a text in
    the model. *)
Definition py_str (v : value) : result string :=
  match v with
  | VStr s => Ok s
  | VNone => Ok "None"
  | VBool true => Ok "True"
  | VBool false => Ok "False"
  | VInt n => Ok (pretty n)
  | VFloat _ | VList _ | VDict _ => raise OutsideModel "text of a float or a container"
  end.

(** [repr(v)] *)
Definition py_repr (v : value) : result string :=
  match v with
  | VStr s => Ok (repr_str s)
  | _ => py_str v
  end.

(** A value used to look a key up in a dict with string keys: a string is
    looked up, another hashable value is not a key, a list or a dict is not
    hashable. *)
Definition lookup_key (v : value) : result (option string) :=
  match v with
  | VStr s => Ok (Some s)
  | VList _ => raise TypeError "unhashable type: 'list'"
  | VDict _ => raise TypeError "unhashable type: 'dict'"
  | _ => Ok None
  end.

(** A value used as the key of a new entry. *)
Definition store_key (v : value) : result string :=
  match v with
  | VStr s => Ok s
  | VList _ => raise TypeError "unhashable type: 'list'"
  | VDict _ => raise TypeError "unhashable type: 'dict'"
  | _ => raise OutsideModel "a key that is not a string"
  end.

(** [v] in the place of keyword arguments after the two stars: it has to be
    a mapping. *)
Definition as_kwargs (v : value) : result (dict value) :=
  match v with
  | VDict d => Ok d
  | _ => raise TypeError "argument after ** must be a mapping"
  end.

(** The binding of keyword arguments to the parameters of a function:
    [params] lists each parameter with its default, if it has one.  The
    result has every parameter. *)
Definition bind_parameter (name : string) (kwargs : dict value)
    (param : string * option value) : result (string * value) :=
  match dict_get kwargs param.1, param.2 with
  | Some v, _ => Ok (param.1, v)
  | None, Some d => Ok (param.1, d)
  | None, None =>
      raise TypeError
        (name ++ "() missing 1 required positional argument: " ++ repr_str param.1)
  end.

Definition bind_arguments (name : string) (params : list (string * option value))
    (kwargs : dict value) : result (dict value) :=
  match List.find (λ k, negb (dict_mem params k)) (dict_keys kwargs) with
  | Some k =>
      raise TypeError (name ++ "() got an unexpected keyword argument " ++ repr_str k)
  | None => mapM (bind_parameter name kwargs) params
  end.

(** A bound parameter. *)
Definition arg (args : dict value) (name : string) : value :=
  default VNone (dict_get args name).

(** The truth value of [v]. *)
Definition truthy (v : value) : bool :=
  match v with
  | VNone => false
  | VBool b => b
  | VInt n => negb (n =? 0)%Z
  | VFloat bits => negb ((bits =? 0)%Z || (bits =? 0x8000000000000000)%Z)
  | VStr s => negb (String.eqb s "")
  | VList l => match l with [] => false | _ => true end
  | VDict d => match d with [] => false | _ => true end
  end.

Definition component_not_found (key : string) : string :=
  "Component '" ++ key ++ "' could not be found.".

(** *** [PlatformABC] *)

(** Runs a method of the component stored under [key] and stores the
    component back, also when the method raises. *)
Definition on_component {A} (key : string) (c : C) (m : M C A) : M Platform A :=
  λ p, let '(r, c') := m c in (r, with_components (dict_set (components p) key c') p).

Definition Platform_remove_component (key : value) : M Platform unit :=
  k ← lift (lookup_key key);
  p ← get;
  match k ≫= dict_get (components p) with
  | Some c =>
      let k := default "" k in
      on_component k c cleanup;;
      modify (λ p, with_components (dict_del (components p) k) p)
  | None => mret tt
  end.

Definition Platform_add_component (key type : value) (kwargs : dict value)
    : M Platform unit :=
  Platform_remove_component key;;
  t ← lift (lookup_key type);
  p ← get;
  match t ≫= dict_get (component_types p) with
  | None =>
      type_text ← lift (py_str type);
      throw RuntimeError
        ("Component type '" ++ type_text ++ "' is not supported. Try: "
         ++ join ", " (dict_keys (component_types p)))
  | Some cls =>
      if forallb (dict_mem kwargs) (required_setup_args cls) then
        c ← lift (construct cls kwargs);
        k ← lift (store_key key);
        modify (λ p, with_components (dict_set (components p) k c) p)
      else
        key_text ← lift (py_str key);
        throw RuntimeError
          ("Component setup for '" ++ key_text
           ++ "' does not satisfy all the required fields ("
           ++ join ", " (required_setup_args cls) ++ ").")
  end.

(** A method of [self._platform] called from the worker: the attribute
    lookup on [None] raises. *)
Definition on_platform {A} (method : string) (m : M Platform A) : M Worker A :=
  λ w,
    match _platform w with
    | None =>
        (raise AttributeError
           ("'NoneType' object has no attribute " ++ repr_str method), w)
    | Some p => let '(r, p') := m p in (r, with_platform (Some p') w)
    end.

(** [key in self._platform], which raises when there is no platform. *)
Definition in_platform (key : value) : M Worker (option (string * C)) :=
  w ← get;
  match _platform w with
  | None => throw TypeError "argument of type 'NoneType' is not iterable"
  | Some p =>
      k ← lift (lookup_key key);
      mret (k ≫= λ k, (λ c, (k, c)) <$> dict_get (components p) k)
  end.

(** *** The methods of [Worker] behind the request table, each on its bound
    arguments *)

Definition add_platform (args : dict value) : M Worker value :=
  t ← lift (lookup_key (arg args "type"));
  match t ≫= dict_get platform_types with
  | Some cts =>
      modify (with_platform (Some {| component_types := cts; components := [] |}));;
      mret VNone
  | None => text ← lift (py_repr (arg args "type")); throw KeyError text
  end.

Definition remove_platform (args : dict value) : M Worker value :=
  modify (with_platform None);; mret VNone.

Definition add_routine (args : dict value) : M Worker value :=
  found ← in_platform (arg args "executor");
  match found with
  | None =>
      text ← lift (py_str (arg args "executor"));
      throw RuntimeError (component_not_found text)
  | Some _ =>
      k ← lift (store_key (arg args "key"));
      modify (λ w, with_routines
                     (dict_set (_routines w) k
                        (arg args "executor", arg args "operation",
                         arg args "kwargs", arg args "interval")) w);;
      mret VNone
  end.

Definition remove_routine (args : dict value) : M Worker value :=
  k ← lift (lookup_key (arg args "key"));
  modify (λ w, match k with
               | Some k => with_routines (dict_del (_routines w) k) w
               | None => w
               end);;
  mret VNone.

Definition add_component (args : dict value) : M Worker value :=
  let setup := if is_none (arg args "setup") then VDict [] else arg args "setup" in
  w ← get;
  match _platform w with
  | None => throw AttributeError "'NoneType' object has no attribute 'add_component'"
  | Some _ =>
      kwargs ← lift (as_kwargs setup);
      match List.find (dict_mem kwargs) ["self"; "key"; "type"] with
      | Some k =>
          throw TypeError
            ("add_component() got multiple values for argument " ++ repr_str k)
      | None =>
          on_platform "add_component"
            (Platform_add_component (arg args "key") (arg args "type") kwargs);;
          mret VNone
      end
  end.

Definition remove_component (args : dict value) : M Worker value :=
  on_platform "remove_component" (Platform_remove_component (arg args "key"));;
  mret VNone.

Definition execute_component (args : dict value) : M Worker value :=
  let kwargs := if is_none (arg args "kwargs") then VDict [] else arg args "kwargs" in
  found ← in_platform (arg args "key");
  match found with
  | None =>
      text ← lift (py_str (arg args "key"));
      throw RuntimeError (component_not_found text)
  | Some (k, c) =>
      match arg args "operation" with
      | VStr name =>
          op ← lift (operation c name);
          kw ← lift (as_kwargs kwargs);
          on_platform "__getitem__" (on_component k c (op kw));;
          mret VNone
      | _ => throw TypeError "getattr(): attribute name must be string"
      end
  end.

(** [set(selected)], as the tags it can contain. *)
Definition selected_tags (selected : value) : result (list string) :=
  match selected with
  | VList l =>
      ks ← mapM lookup_key l;
      Ok (omap id ks)
  | VStr s => Ok ((λ a, String a "") <$> list_ascii_of_string s)
  | VDict d => Ok (dict_keys d)
  | _ => raise TypeError "object is not iterable"
  end.

(** The comprehension of [get_observations] over the items of the platform. *)
Definition read_selected (to_read_from : option (list string)) (acc : dict value)
    (entry : string * C) : M Platform (dict value) :=
  match read entry.2 with
  | Some reader =>
      if match to_read_from with
         | Some tags => bool_decide (entry.1 ∈ tags)
         | None => true
         end
      then
        obs ← on_component entry.1 entry.2 reader;
        mret (dict_set acc entry.1 obs)
      else mret acc
  | None => mret acc
  end.

Definition get_observations (args : dict value) : M Worker value :=
  let selected := arg args "selected" in
  to_read_from ←
    (if truthy selected then lift (Some <$> selected_tags selected)
     else
       w ← get;
       match _platform w with
       | None => throw AttributeError "'NoneType' object has no attribute 'keys'"
       | Some _ => mret None
       end);
  obs ← on_platform "items"
          (p ← get; for_eachM (read_selected to_read_from) (components p) []);
  mret (VDict obs).

Definition get_components (args : dict value) : M Worker value :=
  w ← get;
  match _platform w with
  | None => throw TypeError "'NoneType' object is not iterable"
  | Some p => mret (VList (VStr <$> dict_keys (components p)))
  end.

Definition get_routines (args : dict value) : M Worker value :=
  w ← get; mret (VList (VStr <$> dict_keys (_routines w))).

(** *** The request table *)

(** An entry of [method_handlers]: the name of the method, its parameters
    with their defaults, and the method. *)
Record handler := {
  handler_name : string;
  parameters : list (string * option value);
  body : dict value → M Worker value
}.

Definition method_handlers : dict (dict handler) := [
  ("add", [
     ("component", {| handler_name := "add_component";
                      parameters := [("key", None); ("type", None); ("setup", Some VNone)];
                      body := add_component |});
     ("routine", {| handler_name := "add_routine";
                    parameters := [("key", None); ("interval", None); ("executor", None);
                                   ("operation", None); ("kwargs", None)];
                    body := add_routine |});
     ("platform", {| handler_name := "add_platform";
                     parameters := [("type", None)];
                     body := add_platform |})]);
  ("remove", [
     ("component", {| handler_name := "remove_component";
                      parameters := [("key", None)];
                      body := remove_component |});
     ("routine", {| handler_name := "remove_routine";
                    parameters := [("key", None)];
                    body := remove_routine |});
     ("platform", {| handler_name := "remove_platform";
                     parameters := [];
                     body := remove_platform |})]);
  ("execute", [
     ("component", {| handler_name := "execute_component";
                      parameters := [("key", None); ("operation", None);
                                     ("kwargs", Some VNone)];
                      body := execute_component |})]);
  ("get", [
     ("observations", {| handler_name := "get_observations";
                         parameters := [("selected", Some VNone)];
                         body := get_observations |});
     ("components", {| handler_name := "get_components";
                       parameters := [];
                       body := get_components |});
     ("routines", {| handler_name := "get_routines";
                     parameters := [];
                     body := get_routines |})])
].

(** [method, resource, kwargs = item] *)
Definition unpack_item (item : value) : result (value * value * value) :=
  let three (l : list value) : result (value * value * value) :=
    match l with
    | [a; b; c] => Ok (a, b, c)
    | [] | [_] | [_; _] =>
        raise ValueError
          ("not enough values to unpack (expected 3, got "
           ++ pretty (length l) ++ ")")
    | _ => raise ValueError "too many values to unpack (expected 3)"
    end in
  match item with
  | VList l => three l
  | VStr s => three ((λ a, VStr (String a "")) <$> list_ascii_of_string s)
  | VDict d => three (VStr <$> dict_keys d)
  | _ => raise TypeError "cannot unpack non-iterable object"
  end.

(** The body of the loop of [_process_request_items].  The two [print]
    statements come first: the first concatenates [method] to a string, the
    second calls [kwargs.items()]. *)
Definition process_item (response : dict (dict value)) (item : value)
    : M Worker (dict (dict value)) :=
  '(method, resource, kwargs) ← lift (unpack_item item);
  match method with
  | VStr method =>
      match kwargs with
      | VDict kwargs =>
          match dict_get method_handlers method with
          | None =>
              throw RuntimeError
                ("Received method '" ++ method ++ "' is invalid. Try: "
                 ++ join ", " (dict_keys method_handlers))
          | Some handlers =>
              r ← lift (lookup_key resource);
              match r ≫= λ r, (λ h, (r, h)) <$> dict_get handlers r with
              | None => text ← lift (py_repr resource); throw KeyError text
              | Some (resource, h) =>
                  args ← lift (bind_arguments (handler_name h) (parameters h) kwargs);
                  result ← body h args;
                  mret (if is_none result then response
                        else inner_merge response method [(resource, result)])
              end
          end
      | _ => throw AttributeError "object has no attribute 'items'"
      end
  | _ => throw TypeError "can only concatenate str to str"
  end.

Definition _process_request_items (items : list value) : M Worker (dict (dict value)) :=
  for_eachM process_item items [].

(** The feedback mapping as a value. *)
Definition feedback_value (response : dict (dict value)) : value :=
  VDict ((λ entry, (entry.1, VDict entry.2)) <$> response).

(** [except (RuntimeError, RuntimeWarning, ValueError)]; [NotImplementedError]
    is a subclass of [RuntimeError]. *)
Definition caught (e : exn) : bool :=
  match exn_cls e with
  | RuntimeError | RuntimeWarning | ValueError | NotImplementedError => true
  | _ => false
  end.

(** [a: b] as line 142 formats the class name and the text of the error. *)
Definition error_text (e : exn) : string := exn_name e ++ ": " ++ exn_msg e.

(** The body of the [try] block of [_on_receive]. *)
Definition handle (received : bytes) : M Worker value :=
  received_request ← lift (decode_request received);
  match field received_request "items" with
  | VList items =>
      response ← _process_request_items items;
      mret (feedback_value response)
  | _ => throw TypeError "object is not iterable"
  end.

(** [_on_receive] up to the encoding: the mapping [feedback_to_send].  The
    two readings of the clock are arguments. *)
Definition respond (received : bytes) (received_time sent_time : Z)
    : M Worker (dict value) :=
  λ w,
    let feedback_to_send := [("received_time", VFloat received_time); ("error", VNone)] in
    match handle received w with
    | (Ok feedback, w') =>
        (Ok (dict_set (dict_set feedback_to_send "feedback" feedback)
                      "sent_time" (VFloat sent_time)), w')
    | (Raise e, w') =>
        if caught e then
          (Ok (dict_set (dict_set feedback_to_send "error" (VStr (error_text e)))
                        "sent_time" (VFloat sent_time)), w')
        else (Raise e, w')
    end.

Definition _on_receive (received : bytes) (received_time sent_time : Z)
    : M Worker bytes :=
  feedback_to_send ← respond received received_time sent_time;
  lift (encode_transaction feedback_to_send).

(** *** The request items whose failure is reported to the controller *)







End worker.

(** *** Requests to a worker on the debug platform *)

(** A request item. *)
Definition item (method resource : string) (kwargs : dict value) : value :=
  VList [VStr method; VStr resource; VDict kwargs].

(** The mapping that [ClientABC.send_request] encodes. *)
Definition request (items : list value) : dict value :=
  [("sent_time", VFloat 0x3ff8000000000000); ("items", VList items)].

(** Sets the debug platform up with an output pin and a servo. *)
Definition setup_items : list value := [
  item "add" "platform" [("type", VStr "debug")];
  item "add" "component"
    [("key", VStr "led"); ("type", VStr "output"); ("setup", VDict [("pin_id", VInt 3)])];
  item "add" "component"
    [("key", VStr "arm"); ("type", VStr "servo");
     ("setup", VDict [("output_pin", VInt 4)])]
].

End Worker.

(** ** The debug platform of [worker.py] *)
Module DebugPlatform.
Import Utils Connection Worker.

(** [DebugOutputPin], [DebugPWMPin] and [ServoComponent] over a
    [DebugPWMPin].  What the pins print is left out. *)
Inductive debug_component :=
| DebugOutputPin (id : value) (_state : bool)
| DebugPWMPin (id frequency duty_cycle : value)
| ServoComponent (is_active : bool) (angle : value) (output : debug_component)
    (_settings : dict value).

(** [ServoComponent.default_settings]: 50, 0.0005, 0.0025 and 180. *)
Definition default_settings : dict value := [
  ("frequency", VInt 50);
  ("start_on_time", VFloat 0x3f40624dd2f1a9fc);
  ("end_on_time", VFloat 0x3f647ae147ae147b);
  ("max_angle", VInt 180)
].

(** [intersect_update(a, b)] *)
Definition intersect_update (a b : dict value) : dict value :=
  (λ entry, (entry.1, default entry.2 (dict_get b entry.1))) <$> a.

Definition new_output_pin (kwargs : dict value) : result debug_component :=
  args ← bind_arguments "__init__" [("pin_id", None)] kwargs;
  Ok (DebugOutputPin (arg args "pin_id") false).

Definition new_pwm_pin (kwargs : dict value) : result debug_component :=
  args ← bind_arguments "__init__" [("pin_id", None); ("frequency", None)] kwargs;
  Ok (DebugPWMPin (arg args "pin_id") (arg args "frequency") (VFloat 0)).

Definition new_servo (kwargs : dict value) : result debug_component :=
  args ← bind_arguments "__init__" [("output_pin", None); ("settings", Some VNone)] kwargs;
  settings ←
    match arg args "settings" with
    | VNone => Ok []
    | VDict d => Ok d
    | VBool _ | VInt _ | VFloat _ => raise TypeError "argument is not iterable"
    | VStr _ | VList _ => raise OutsideModel "settings that are not a mapping"
    end;
  let _settings := intersect_update default_settings settings in
  Ok (ServoComponent false (VFloat 0)
        (DebugPWMPin (arg args "output_pin") (arg _settings "frequency") (VFloat 0))
        _settings).

(** The component types of the debug platform, in the order of their
    registration. *)
Definition debug_component_types : dict (component_class debug_component) := [
  ("output", {| required_setup_args := ["pin_id"]; construct := new_output_pin |});
  ("pwm", {| required_setup_args := ["pin_id"; "frequency"]; construct := new_pwm_pin |});
  ("servo", {| required_setup_args := ["output_pin"]; construct := new_servo |})
].

(** A method without parameters other than [self]. *)
Definition nullary (name : string) (f : debug_component → result debug_component)
    : dict value → M debug_component unit :=
  λ kwargs c,
    match bind_arguments name [] kwargs with
    | Raise e => (Raise e, c)
    | Ok _ => match f c with Ok c' => (Ok tt, c') | Raise e => (Raise e, c) end
    end.

(** A method with one parameter. *)
Definition unary (name param : string)
    (f : value → debug_component → result debug_component)
    : dict value → M debug_component unit :=
  λ kwargs c,
    match bind_arguments name [(param, None)] kwargs with
    | Raise e => (Raise e, c)
    | Ok args =>
        match f (arg args param) c with
        | Ok c' => (Ok tt, c')
        | Raise e => (Raise e, c)
        end
    end.

(** [getattr(c, name)] for the methods that the classes define; the arithmetic
    on floats behind [ServoComponent.start] and an accepted
    [ServoComponent.set_angle] is outside the model, and so are the
    attributes that every object inherits. *)
Definition debug_operation (c : debug_component) (name : string)
    : result (dict value → M debug_component unit) :=
  let missing := raise AttributeError ("object has no attribute " ++ repr_str name) in
  let not_callable := Ok (λ _ c, (raise TypeError "object is not callable", c)) in
  let inherited := raise OutsideModel "an attribute inherited from object" in
  if String.prefix "_" name then inherited else
  match c with
  | DebugOutputPin id st =>
      if String.eqb name "set_high" then Ok (nullary name (λ _, Ok (DebugOutputPin id true)))
      else if String.eqb name "set_low" then Ok (nullary name (λ _, Ok (DebugOutputPin id false)))
      else if String.eqb name "toggle" then Ok (nullary name (λ _, Ok (DebugOutputPin id (negb st))))
      else if String.eqb name "read" then Ok (nullary name Ok)
      else if String.eqb name "cleanup" then Ok (nullary name Ok)
      else if String.eqb name "id" || String.eqb name "state" then not_callable
      else missing
  | DebugPWMPin id frequency duty_cycle =>
      if String.eqb name "start" then
        Ok (unary name "duty_cycle" (λ dc _, Ok (DebugPWMPin id frequency dc)))
      else if String.eqb name "stop" then Ok (nullary name Ok)
      else if String.eqb name "change_frequency" then
        Ok (unary name "frequency" (λ f _, Ok (DebugPWMPin id f duty_cycle)))
      else if String.eqb name "change_duty_cycle" then
        Ok (unary name "duty_cycle" (λ dc _, Ok (DebugPWMPin id frequency dc)))
      else if String.eqb name "cleanup" then Ok (nullary name Ok)
      else if String.eqb name "id" || String.eqb name "frequency"
              || String.eqb name "duty_cycle" then not_callable
      else missing
  | ServoComponent is_active angle output settings =>
      if String.eqb name "set_angle" then
        Ok (unary name "angle" (λ _ _,
              if is_active then raise OutsideModel "arithmetic on floats"
              else raise RuntimeWarning
                     "Could not set angle. Servo can't be used without first being activated."))
      else if String.eqb name "start" then
        Ok (nullary name (λ _, raise OutsideModel "arithmetic on floats"))
      else if String.eqb name "stop" then
        Ok (nullary name (λ _, Ok (ServoComponent false angle output settings)))
      else if String.eqb name "get_angle" then Ok (nullary name Ok)
      else if String.eqb name "read" then Ok (nullary name Ok)
      else if String.eqb name "cleanup" then Ok (nullary name Ok)
      else if String.eqb name "get_setting" then
        Ok (unary name "key" (λ key c,
              match key with
              | VStr k => if dict_mem settings k then Ok c else raise KeyError (repr_str k)
              | VList _ | VDict _ => raise TypeError "unhashable type"
              | _ => raise KeyError "key"
              end))
      else if String.eqb name "add_pin" || String.eqb name "remove_pin" then
        inherited
      else if String.eqb name "is_active" || String.eqb name "angle"
              || String.eqb name "pins" || String.eqb name "pin_types"
              || String.eqb name "default_settings" then not_callable
      else missing
  end.

(** [component.read()], for the classes that have it. *)
Definition debug_read (c : debug_component) : option (M debug_component value) :=
  match c with
  | DebugOutputPin _ st => Some (λ c, (Ok (VDict [("state", VBool st)]), c))
  | DebugPWMPin _ _ _ => None
  | ServoComponent is_active angle _ _ =>
      Some (λ c, (Ok (VDict [("angle", angle); ("is_active", VBool is_active)]), c))
  end.

#[export] Instance debug_driver : Driver debug_component := {|
  platform_types := [("debug", debug_component_types)];
  operation := debug_operation;
  read := debug_read;
  cleanup := λ c, (Ok tt, c)
|}.

(** A worker on which [setup_items] have been processed: the debug platform
    with the output pin [led] and the servo [arm]. *)
Definition debug_worker : Worker :=
  (_process_request_items setup_items new_worker).2.


Definition unknown_method : bytes :=
  Msgpack.payload_of (request [item "frobnicate" "component" []]).





Definition toggle_and_read : bytes :=
  Msgpack.payload_of
    (request [item "execute" "component"
                [("key", VStr "led"); ("operation", VStr "toggle")];
              item "get" "observations" [("selected", VList [VStr "led"])]]).

End DebugPlatform.

(** ** [_graph.py]: paths and cycles *)
Module GraphWalks.
Import Graph.
Local Open Scope list_scope.
Section walks.
Context `{Countable K} `{!SetLike K C}.
Variable repr : K → string.
(** The order in which Python iterates over a set or over the keys of the
    graph. *)
Variable iter_set : gset K → list K.

Implicit Types graph : gmap K C.

(** What Python raises when the recursion of [_get_paths_util] is deeper
    than the interpreter allows; [RecursionError] is a subclass of
    [RuntimeError]. *)
Definition recursion_error {A} : result A :=
  Raise (Exn RuntimeError "RecursionError" "maximum recursion depth exceeded").

(** [_get_paths_util(graph, key, paths, prepended, start)]: the value it
    returns and the list [paths] that it appends to.  [fuel] is the depth of
    recursion that the interpreter still allows. *)
Fixpoint _get_paths_util (fuel : nat) graph (key : K) (paths : list (list K))
    (prepended : list K) (start : option K)
    : result (option (list K) * list (list K)) :=
  match fuel with
  | O => recursion_error
  | S fuel' =>
      let prepended := prepended ++ [key] in
      out_neighbors ← get_out_neighbors repr graph key;
      if bool_decide (out_neighbors = ∅) || bool_decide (Some key = start)
      then Ok (Some prepended, paths)
      else
        let start := default key start in
        paths' ← for_each
                   (λ paths child,
                      '(new_path, paths) ←
                        _get_paths_util fuel' graph child paths prepended (Some start);
                      Ok (match new_path with
                          | Some ((_ :: _) as path) => paths ++ [path]
                          | _ => paths
                          end))
                   (iter_set out_neighbors) paths;
        Ok (None, paths')
  end.

(** The body of the loop over the successors, lines 144-147. *)
Definition visit graph (fuel : nat) (prepended : list K) (start : K)
    (paths : list (list K)) (child : K) : result (list (list K)) :=
  '(new_path, paths) ← _get_paths_util fuel graph child paths prepended (Some start);
  Ok (match new_path with
      | Some ((_ :: _) as path) => paths ++ [path]
      | _ => paths
      end).

(** [sorted(paths, key=lambda x: len(x))]: a stable sort. *)
Fixpoint insert_by_length (path : list K) (sorted : list (list K)) : list (list K) :=
  match sorted with
  | [] => [path]
  | p :: rest =>
      if (length path <? length p)%nat then path :: p :: rest
      else p :: insert_by_length path rest
  end.

Definition sorted_by_length (paths : list (list K)) : list (list K) :=
  fold_left (λ acc path, insert_by_length path acc) paths [].

Definition get_complete_paths (fuel : nat) graph (key : K) (sort : bool)
    : result (list (list K)) :=
  '(_, paths) ← _get_paths_util fuel graph key [] [] None;
  Ok (if sort then sorted_by_length paths else paths).

Definition get_all_complete_paths (fuel : nat) graph : result (list (list K)) :=
  for_each (λ paths key, new ← get_complete_paths fuel graph key false; Ok (paths ++ new))
           (iter_set (dom graph)) [].

(** The loop of [is_acyclic]. *)
Fixpoint no_closed_path (paths : list (list K)) : result bool :=
  match paths with
  | [] => Ok true
  | path :: rest =>
      match head path, last path with
      | Some first, Some final =>
          if decide (first = final) then Ok false else no_closed_path rest
      | _, _ => raise IndexError "list index out of range"
      end
  end.

Definition is_acyclic (fuel : nat) graph : result bool :=
  paths ← get_all_complete_paths fuel graph; no_closed_path paths.

(** [b] is a successor of the node [a]. *)
Definition edge graph (a b : K) : Prop :=
  ∃ node, graph !! a = Some node ∧ b ∈ members node.

(** Each key of the list is a successor of the one before it. *)
Fixpoint walk graph (path : list K) : Prop :=
  match path with
  | a :: (b :: _) as rest => edge graph a b ∧ walk graph rest
  | _ => True
  end.

(** A walk of at least one edge that ends where it starts. *)
Definition has_cycle graph : Prop :=
  ∃ k path, path ≠ [] ∧ walk graph (k :: path) ∧ last path = Some k.

(** A set of nodes that the walk of [_get_paths_util] cannot leave: every
    one of them has a successor among them. *)
Definition trap graph (X : gset K) : Prop :=
  ∀ x, x ∈ X → ∃ y, y ∈ X ∧ edge graph x y.

End walks.

(** [PoseMiddleware.join_arms], on the graph of the arms: the tags are
    strings and every arm owns a plain set of successors. *)
Definition join_arms (iter_set : gset string → list string) (fuel : nat)
    (from_tag to_tag : string) : M (gmap string (gset string)) unit :=
  graph ← get;
  graph' ← lift (add_edge repr_str graph from_tag to_tag);
  put graph';;
  acyclic ← lift (is_acyclic repr_str iter_set fuel graph');
  if acyclic : bool then mret tt
  else throw RuntimeError
         ("The joint '" ++ from_tag ++ "' to '" ++ to_tag
          ++ "' creates a cycle in the body's model.")%string.

(** Three nodes: [a] leads to [b], and [b] and [c] lead to each other. *)
Definition lasso : gmap string (gset string) :=
  {[ "a" := {[ "b" ]}; "b" := {[ "c" ]}; "c" := {[ "b" ]} ]}.

(** Two nodes that lead to each other. *)
Definition two_cycle : gmap string (gset string) :=
  {[ "a" := {[ "b" ]}; "b" := {[ "a" ]} ]}.

(** [a] leads to [b], [b] to [c]. *)
Definition three_chain : gmap string (gset string) :=
  {[ "a" := {[ "b" ]}; "b" := {[ "c" ]}; "c" := ∅ ]}.

End GraphWalks.

(** ** [gatenetwork.py]: dead conditions and the injection handler *)
Module GateNetworkMore.
Import Graph Utils GateNetwork.

(** The two [continue] statements of lines 187-193: the conditional edge
    with the condition [cond] is not followed from a gate whose result is
    [r], because [r] is not a mapping or because the evaluator answers
    false. *)
Definition dead (cond : condition) (r : value) : Prop :=
  match r with
  | VDict _ =>
      ∃ v, get_nested (location cond) r = Ok v ∧
           evaluator cond v (target cond) = Ok false
  | _ => True
  end.

(** The name of the type of a value, for the text of an error. *)
Definition type_name (v : value) : string :=
  match v with
  | VNone => "NoneType" | VBool _ => "bool" | VInt _ => "int"
  | VFloat _ => "float" | VStr _ => "str" | VList _ => "list" | VDict _ => "dict"
  end.

(** [InjectionHandler.__call__]: the handler is a [dict]; [self] is its
    entries.  The feed is updated in place and returned. *)
Definition InjectionHandler (self : dict value) (feed : value) : result value :=
  match feed with
  | VNone => Ok (VDict (dict_update [] self))
  | VDict d => Ok (VDict (dict_update d self))
  | _ => raise AttributeError
           ("'" ++ type_name feed ++ "' object has no attribute 'update'")
  end.

(** Gates A and B with a conditional edge from A to B and no fallback. *)
Definition gated (pA pB : value → result value) (target : value) (path : string)
    (evaluator : value → value → result bool) : M GateNetwork unit :=
  add_gate "A" pA;; add_gate "B" pB;;
  add_conditional_edge "A" "B" target path evaluator None.

Definition gated_network (pA pB : value → result value) (target : value)
    (path : string) (evaluator : value → value → result bool) : GateNetwork := {|
  gates := <["A" := {| children := {["B"]}; _procedure := pA |}]>
           (<["B" := new_gate pB]> ∅);
  epoch_count := 0; _max_epochs := None;
  _conditional_edges :=
    <[("A", "B") := {| location := path; evaluator := evaluator; target := target |}]> ∅;
  invoked := []; warned := []
|}.

(** Gates A, B and D with the unconditional edges A→B, A→D and B→D: D has
    two parents, one of which runs an epoch after the other. *)
Definition join (pA pB pD : value → result value) : M GateNetwork unit :=
  add_gate "A" pA;; add_gate "B" pB;; add_gate "D" pD;;
  add_edge "A" "B";; add_edge "A" "D";; add_edge "B" "D".

Definition join_network (pA pB pD : value → result value) : GateNetwork := {|
  gates := <["A" := {| children := {["B"; "D"]}; _procedure := pA |}]>
           (<["B" := {| children := {["D"]}; _procedure := pB |}]>
           (<["D" := new_gate pD]> ∅));
  epoch_count := 0; _max_epochs := None;
  _conditional_edges := ∅; invoked := []; warned := []
|}.
(** A network with the single gate [A]. *)
Definition lone_network (pA : value → result value) : GateNetwork := {|
  gates := <["A" := new_gate pA]> ∅;
  epoch_count := 0; _max_epochs := None;
  _conditional_edges := ∅; invoked := []; warned := []
|}.

End GateNetworkMore.

(** ** [worker.py]: the clean-up of a platform *)
Module WorkerMore.
Import Utils Connection Worker.

Section platform.
Context {C : Type} `{Driver C}.

(** The check that the iterator of a [dict] makes at every step: the dict
    must have the size it had when the iteration began. *)
Definition changed_size (used : nat) : M (Platform (C:=C)) unit :=
  p ← get;
  if (length (components p) =? used)%nat then mret tt
  else throw RuntimeError "dictionary changed size during iteration".

(** The loop of [PlatformABC.cleanup] over [self.keys()], which is a view of
    the dict that the body deletes from. *)
Fixpoint cleanup_loop (used : nat) (tags : list string) : M (Platform (C:=C)) unit :=
  changed_size used;;
  match tags with
  | [] => mret tt
  | tag :: tags' => Platform_remove_component (VStr tag);; cleanup_loop used tags'
  end.

(** [PlatformABC.cleanup] *)
Definition Platform_cleanup : M (Platform (C:=C)) unit :=
  p ← get; cleanup_loop (length (components p)) (dict_keys (components p)).

End platform.
End WorkerMore.

(** ** [connection.py] and [controller.py]: what the controller reads from a
    response *)
Module Observer.
Import Utils Connection.

(** [v[key]] for a string [key].  [None] stands for the [KeyError] of a
    dict that does not have the key. *)
Definition getitem (v : value) (key : string) : result (option value) :=
  match v with
  | VDict d => Ok (dict_get d key)
  | VStr _ => raise TypeError "string indices must be integers"
  | VList _ => raise TypeError "list indices must be integers or slices, not str"
  | _ => raise TypeError
           ("'" ++ GateNetworkMore.type_name v ++ "' object is not subscriptable")
  end.

(** [Response.observations]: [self.feedback["get"]["observations"]], with
    the [KeyError] of either subscript caught; the property then returns
    [None]. *)
Definition observations (r : instance) : result value :=
  got ← getitem (field r "feedback") "get";
  match got with
  | None => Ok VNone
  | Some g => obs ← getitem g "observations"; Ok (default VNone obs)
  end.

(** An entry of [ObserverMiddlewareABC._observables]: the key
    [(tag, parameter)] and the value [(component + "." + field,
    transformer)]. *)
Record observable := {
  obs_tag : string;
  obs_parameter : string;
  obs_key : string;
  obs_transformer : value → result value
}.

Section handle.
Context {S : Type}.
(** The abstract method of the middleware. *)
Variable handle_observation : string → string → value → M S unit.

(** [ObserverMiddlewareABC.handle] *)
Definition handle (observables : list observable) (response : instance) : M S unit :=
  obs ← lift (observations response);
  if is_none obs then mret tt
  else
    for_eachM
      (λ _ o,
         observed_value ← lift (get_nested_with (obs_key o) obs ".");
         if is_none observed_value then mret tt
         else
           x ← lift (obs_transformer o observed_value);
           handle_observation (obs_tag o) (obs_parameter o) x)
      observables tt.
End handle.

End Observer.

(** ** [connection.py]: the TCP transport *)
Module Transport.
Import Utils Connection Msgpack.
Local Open Scope list_scope.

(** ASCII whitespace, as [bytes.strip] without an argument understands it:
    space, tab, line feed, vertical tab, form feed and carriage return. *)
Definition is_space (b : Byte.byte) : bool :=
  let z := Z_of_byte b in (z =? 32)%Z || ((9 <=? z)%Z && (z <=? 13)%Z).

Fixpoint lstrip (bs : bytes) : bytes :=
  match bs with
  | b :: bs' => if is_space b then lstrip bs' else bs
  | [] => []
  end.

Definition rstrip (bs : bytes) : bytes := reverse (lstrip (reverse bs)).

(** [bytes.strip()] *)
Definition strip (bs : bytes) : bytes := rstrip (lstrip bs).

(** [socket.recv(bufsize)] on a stream whose peer has sent [sent]: at most
    [bufsize] bytes from the front of what was sent. *)
Definition recv (bufsize : nat) (sent received : bytes) : Prop :=
  received `prefix_of` sent ∧ (length received ≤ bufsize)%nat.

(** [_TCPRequestHandler.handle], from the bytes that [recv(1024)] returned
    to the bytes that [sendall] sends back. *)
Definition TCP_handle {W} (request_handler : bytes → M W bytes) (received : bytes)
    : M W bytes :=
  request_handler (strip received).

(** The mapping that [ClientABC.send_request] encodes; [now] is the reading
    of the clock. *)
Definition request_mapping (now : Z) (items : list value) : dict value :=
  [("sent_time", VFloat now); ("items", VList items)].

End Transport.
(** ** [controller.py]: the requests that a controller builds *)
Module Controller.
Import Utils Connection Worker.

(** *** Text *)

Definition is_ascii (s : string) : bool :=
  forallb (λ a, (nat_of_ascii a <? 128)%nat) (list_ascii_of_string s).

Definition ascii_lower (a : ascii) : ascii :=
  let n := nat_of_ascii a in
  if ((65 <=? n) && (n <=? 90))%nat then ascii_of_nat (n + 32) else a.

Definition ascii_upper (a : ascii) : ascii :=
  let n := nat_of_ascii a in
  if ((97 <=? n) && (n <=? 122))%nat then ascii_of_nat (n - 32) else a.

Definition is_letter (a : ascii) : bool :=
  let n := nat_of_ascii a in
  (((65 <=? n) && (n <=? 90)) || ((97 <=? n) && (n <=? 122)))%nat.

(** The characters below 128 that [str.strip] removes: tab to carriage
    return, the four separators, and the space. *)
Definition is_space_char (a : ascii) : bool :=
  let n := nat_of_ascii a in
  (((9 <=? n) && (n <=? 13)) || ((28 <=? n) && (n <=? 32)))%nat.

Fixpoint drop_spaces (l : list ascii) : list ascii :=
  match l with
  | a :: l' => if is_space_char a then drop_spaces l' else l
  | [] => []
  end.

(** [s.lower().strip()] for a string of characters below 128; the case
    and the white space of other characters are outside the model. *)
Definition lower_strip (s : string) : result string :=
  if is_ascii s then
    let lowered := ascii_lower <$> list_ascii_of_string s in
    Ok (string_of_list_ascii (reverse (drop_spaces (reverse (drop_spaces lowered)))))
  else raise OutsideModel "case and white space of characters above 127".

(** [s.title()], for a string of characters below 128: a letter is in
    upper case after a character that is not a letter and in lower case
    after a letter. *)
Fixpoint title_from (after_letter : bool) (l : list ascii) : list ascii :=
  match l with
  | [] => []
  | a :: l' =>
      (if is_letter a then (if after_letter then ascii_lower a else ascii_upper a) else a)
      :: title_from (is_letter a) l'
  end.

Definition title (s : string) : string :=
  string_of_list_ascii (title_from false (list_ascii_of_string s)).

(** *** The controller *)

(** The attributes of [ControllerABC] that the building of a request uses:
    whether a client is set, the request items stored so far, and the key
    of the platform. *)
Record ControllerABC := {
  client_is_set : bool;
  _request_items : list (string * string * dict value);
  _platform_type_key : option string
}.

Definition with_request_items (items : list (string * string * dict value))
    (c : ControllerABC) : ControllerABC :=
  {| client_is_set := client_is_set c; _request_items := items;
     _platform_type_key := _platform_type_key c |}.

Definition with_platform_type_key (key : option string) (c : ControllerABC)
    : ControllerABC :=
  {| client_is_set := client_is_set c; _request_items := _request_items c;
     _platform_type_key := key |}.

Section controller.
Context {C : Type} `{Driver C}.
(** The order in which a set of names is iterated, for the text of an
    error. *)
Variable iter_names : list string → list string.

(** [get_available_platforms()] *)
Definition get_available_platforms : list string := dict_keys platform_types.

(** [get_available_platform_components(platform_key)] *)
Definition get_available_platform_components (platform_key : string)
    : result (list string) :=
  match dict_get platform_types platform_key with
  | Some component_types => Ok (dict_keys component_types)
  | None => raise KeyError (repr_str platform_key)
  end.

(** [_check_resource_type(resource, key, available)], where [available] is
    a set of names.  It returns the key, which is a name of the set. *)
Definition _check_resource_type (resource : string) (key : value)
    (available : list string) : result string :=
  k ← lookup_key key;
  match k with
  | Some name =>
      if bool_decide (name ∈ available) then Ok name
      else raise ValueError
             (title resource ++ " key '" ++ name ++ "' is invalid. Try: "
              ++ join ", " (iter_names available))
  | None =>
      text ← py_str key;
      raise ValueError
        (title resource ++ " key '" ++ text ++ "' is invalid. Try: "
         ++ join ", " (iter_names available))
  end.

Definition _check_platform_is_set : M ControllerABC string :=
  c ← get;
  match _platform_type_key c with
  | Some key => mret key
  | None => throw NotImplementedError "A platform has not been set."
  end.

Definition add_request_item (method resource : string) (kwargs : dict value)
    : M ControllerABC unit :=
  c ← get;
  if client_is_set c then
    m ← lift (lower_strip method);
    r ← lift (lower_strip resource);
    modify (with_request_items (_request_items c ++ [(m, r, kwargs)])%list)
  else throw NotImplementedError "Can't submit request as a client has not been set.".

Definition add_platform (type : value) : M ControllerABC unit :=
  name ← lift (_check_resource_type "platform" type get_available_platforms);
  modify (with_platform_type_key (Some name));;
  add_request_item "add" "platform" [("type", type)].

Definition add_component (key type : value) (setup : dict value)
    : M ControllerABC unit :=
  platform_key ← _check_platform_is_set;
  available ← lift (get_available_platform_components platform_key);
  lift (_check_resource_type "component" type available);;
  add_request_item "add" "component"
    [("key", key); ("type", type); ("setup", VDict setup)].

Definition add_routine (key interval executor operation : value) (kwargs : dict value)
    : M ControllerABC unit :=
  _check_platform_is_set;;
  add_request_item "add" "routine"
    [("key", key); ("interval", interval); ("executor", executor);
     ("operation", operation); ("kwargs", VDict kwargs)].

Definition remove_platform : M ControllerABC unit :=
  add_request_item "remove" "platform" [].

Definition remove_component (key : value) : M ControllerABC unit :=
  _check_platform_is_set;; add_request_item "remove" "component" [("key", key)].

Definition remove_routine (key : value) : M ControllerABC unit :=
  _check_platform_is_set;; add_request_item "remove" "routine" [("key", key)].

Definition execute_component (key operation : value) (kwargs : dict value)
    : M ControllerABC unit :=
  _check_platform_is_set;;
  add_request_item "execute" "component"
    [("key", key); ("operation", operation); ("kwargs", VDict kwargs)].

Definition get_observations (selected : value) : M ControllerABC unit :=
  _check_platform_is_set;;
  add_request_item "get" "observations" [("selected", selected)].

Definition get_components : M ControllerABC unit :=
  _check_platform_is_set;; add_request_item "get" "components" [].

Definition get_routines : M ControllerABC unit :=
  _check_platform_is_set;; add_request_item "get" "routines" [].

(** A call of one of the ten methods of [WorkerABC] on a controller. *)
Inductive call :=
| AddPlatform (type : value)
| AddComponent (key type : value) (setup : dict value)
| AddRoutine (key interval executor operation : value) (kwargs : dict value)
| RemovePlatform
| RemoveComponent (key : value)
| RemoveRoutine (key : value)
| ExecuteComponent (key operation : value) (kwargs : dict value)
| GetObservations (selected : value)
| GetComponents
| GetRoutines.

Definition perform (c : call) : M ControllerABC unit :=
  match c with
  | AddPlatform type => add_platform type
  | AddComponent key type setup => add_component key type setup
  | AddRoutine key interval executor operation kwargs =>
      add_routine key interval executor operation kwargs
  | RemovePlatform => remove_platform
  | RemoveComponent key => remove_component key
  | RemoveRoutine key => remove_routine key
  | ExecuteComponent key operation kwargs => execute_component key operation kwargs
  | GetObservations selected => get_observations selected
  | GetComponents => get_components
  | GetRoutines => get_routines
  end.

End controller.
End Controller.

(** ** [worker.py]: what a selection of components reads *)
Module Readings.
Import Utils Connection Worker.
Section readings.
Context {C : Type} `{Driver C}.

(** What [component.read()] returns, for a component that has a [read]
    which returns. *)
Definition reading (c : C) : option value :=
  match read c with
  | Some reader => match reader c with (Ok v, _) => Some v | _ => None end
  | None => None
  end.

(** The readings of the components whose tag is one of [tags], in the order
    of the platform. *)
Definition selected_readings (tags : list string) (components : dict C) : dict value :=
  omap (λ entry : string * C,
          if bool_decide (entry.1 ∈ tags)
          then (λ v, (entry.1, v)) <$> reading entry.2
          else None) components.

End readings.
End Readings.


(** * Properties *)

(** ** Graph primitives *)
Module GraphFacts.
Import Graph.

Section facts.
Context `{Countable K} `{!SetLike K C}.

Implicit Types graph : gmap K C.

Lemma strip_members key node : key ∉ members (strip key node).
Proof.
  unfold strip. case_decide as Hin; [|done].
  rewrite members_with_members. set_solver.
Qed.

Lemma discard_inbound_lookup key graph node_key n :
  discard_inbound key graph node_key !! n
  = if decide (n = node_key) then strip key <$> graph !! n else graph !! n.
Proof.
  unfold discard_inbound, strip.
  destruct (graph !! node_key) as [node|] eqn:Hnode.
  - case_decide as Hin.
    + rewrite lookup_insert. destruct (decide (node_key = n)) as [->|Hne].
      * rewrite decide_True by done. rewrite Hnode. simpl. by rewrite decide_True.
      * by rewrite decide_False by done.
    + case_decide; [|done]. subst. rewrite Hnode. simpl. by rewrite decide_False.
  - case_decide; [|done]. subst. by rewrite Hnode.
Qed.

(** The loop visits every key once; a visited container is stripped. *)
Lemma discard_fold_lookup key graph (X : gset K) n :
  set_fold (λ node_key g, discard_inbound key g node_key) graph X !! n
  = if decide (n ∈ X) then strip key <$> graph !! n else graph !! n.
Proof.
  revert n.
  refine (set_fold_ind_L (λ acc Y, ∀ n,
    acc !! n = if decide (n ∈ Y) then strip key <$> graph !! n else graph !! n)
    _ _ _ _ X).
  - intros n. by rewrite decide_False by set_solver.
  - intros x Y acc Hx IH n. rewrite discard_inbound_lookup, IH.
    destruct (decide (n = x)) as [->|Hne].
    + rewrite decide_False by done. by rewrite decide_True by set_solver.
    + destruct (decide (n ∈ Y)).
      * by rewrite decide_True by set_solver.
      * by rewrite decide_False by set_solver.
Qed.

Lemma remove_node_lookup graph key n :
  key ∈ dom graph →
  remove_node graph key !! n
  = if decide (n = key) then None else strip key <$> graph !! n.
Proof.
  intros Hk. unfold remove_node. rewrite decide_True by done. simpl.
  rewrite discard_fold_lookup.
  destruct (decide (n = key)) as [->|Hne].
  - rewrite decide_False; [by rewrite lookup_delete_eq|].
    rewrite dom_delete_L. set_solver.
  - rewrite lookup_delete_ne by done.
    case_decide as Hin; [done|].
    apply not_elem_of_dom in Hin. rewrite lookup_delete_ne in Hin by done.
    by rewrite Hin.
Qed.

Lemma remove_node_absent graph key :
  key ∉ dom graph → remove_node graph key = graph.
Proof. intros Hk. unfold remove_node. by rewrite decide_False. Qed.

(** C8, as amended: removing a key that is a node of the graph leaves it
    neither as a node nor as a successor of any remaining node. *)
Theorem remove_node_strips_registered_key graph key :
  key ∈ dom graph →
  (key ∉ dom (remove_node graph key)) ∧ (¬ has_edge_to (remove_node graph key) key).
Proof.
  intros Hk. split.
  - rewrite elem_of_dom, remove_node_lookup by done.
    rewrite decide_True by done. by intros [? ?].
  - intros (n & node & Hn & Hin).
    rewrite remove_node_lookup in Hn by done.
    case_decide; [done|].
    destruct (graph !! n) as [node0|]; simplify_eq/=.
    by apply strip_members in Hin.
Qed.

(** C10: an edge to a key that is not a node is accepted and stays: the
    target is among the successors of the source, is still not a node, is
    reported as having the source as in-neighbour, and [remove_node] on the
    target leaves the dangling edge where it is. *)
Theorem add_edge_accepts_dangling_target (repr : K → string) graph a b :
  a ∈ dom graph → b ≠ a → b ∉ dom graph →
  ∃ graph' node',
    add_edge repr graph a b = Ok graph' ∧
    graph' !! a = Some node' ∧ b ∈ members node' ∧
    (b ∉ dom graph') ∧
    a ∈ get_in_neighbors graph' b ∧
    remove_node graph' b = graph' ∧
    (∀ n, n ≠ a → graph' !! n = graph !! n).
Proof.
  intros [node Ha]%elem_of_dom Hne Hb.
  exists (<[a := with_members (members node ∪ {[b]}) node]> graph),
         (with_members (members node ∪ {[b]}) node).
  assert (Hdom : b ∉ dom (<[a := with_members (members node ∪ {[b]}) node]> graph)).
  { rewrite dom_insert_L. set_solver. }
  split_and!.
  - unfold add_edge. rewrite decide_False by done. by rewrite Ha.
  - by rewrite lookup_insert_eq.
  - rewrite members_with_members. set_solver.
  - done.
  - unfold get_in_neighbors. apply elem_of_dom.
    exists (with_members (members node ∪ {[b]}) node).
    apply map_lookup_filter_Some. split; [by rewrite lookup_insert_eq|].
    simpl. rewrite members_with_members. set_solver.
  - by apply remove_node_absent.
  - intros n Hn. by rewrite lookup_insert_ne.
Qed.

End facts.

(** C8, as stated, fails: [b] is not a node of [dangling], so [remove_node]
    returns at its guard and the edge from [a] to [b] is still there. *)
Lemma remove_node_keeps_dangling_edge :
  ¬ (∀ (graph : gmap string (gset string)) (key : string),
       (key ∉ dom (remove_node graph key)) ∧
       (¬ has_edge_to (remove_node graph key) key)).
Proof.
  intros Hclaim. destruct (Hclaim dangling "b") as [_ Hno].
  apply Hno. rewrite remove_node_absent.
  - exists "a", {[ "b" ]}. split; [done|]. simpl. set_solver.
  - unfold dangling. rewrite dom_singleton_L. set_solver.
Qed.

Lemma remove_node_strips_registered_key_witness :
  "b" ∈ dom (<["b" := ∅]> dangling) ∧
  ("b" ∉ dom (remove_node (<["b" := ∅]> dangling) "b")) ∧
  (¬ has_edge_to (remove_node (<["b" := ∅]> dangling) "b") "b").
Proof.
  assert (Hb : "b" ∈ dom (<["b" := ∅]> dangling)).
  { rewrite dom_insert_L. set_solver. }
  split; [exact Hb|].
  exact (remove_node_strips_registered_key (<["b" := ∅]> dangling) "b" Hb).
Defined.

Lemma add_edge_accepts_dangling_target_witness :
  ∃ graph' node',
    add_edge repr_str ({[ "a" := ∅ ]} : gmap string (gset string)) "a" "b" = Ok graph' ∧
    graph' !! "a" = Some node' ∧ "b" ∈ members node' ∧
    ("b" ∉ dom graph') ∧
    "a" ∈ get_in_neighbors graph' "b" ∧
    remove_node graph' "b" = graph' ∧
    (∀ n, n ≠ "a" → graph' !! n = ({[ "a" := ∅ ]} : gmap string (gset string)) !! n).
Proof.
  apply (add_edge_accepts_dangling_target repr_str {[ "a" := ∅ ]} "a" "b").
  - rewrite dom_singleton_L. set_solver.
  - done.
  - rewrite dom_singleton_L. set_solver.
Defined.

End GraphFacts.

(** ** Dotted-path lookup *)
Module UtilsFacts.
Import Utils.

Example split_two : split "servo.angle" "." = Ok ["servo"; "angle"].
Proof. reflexivity. Qed.

Example split_empty : split "" "." = Ok [""].
Proof. reflexivity. Qed.

Example split_trailing : split "a." "." = Ok ["a"; ""].
Proof. reflexivity. Qed.

Example get_nested_found :
  get_nested "servo.angle" (VDict [("servo", VDict [("angle", VInt 90)])]) = Ok (VInt 90).
Proof. reflexivity. Qed.

Example get_nested_absent :
  get_nested "servo.speed" (VDict [("servo", VDict [("angle", VInt 90)])]) = Ok VNone.
Proof. reflexivity. Qed.

Example get_nested_below_leaf :
  get_nested "servo.is_active.x" servo_observations
  = raise TypeError "argument of type 'bool' is not iterable".
Proof. reflexivity. Qed.

Lemma _get_nested_util_scalar key route v :
  is_scalar v = true → ∃ msg, _get_nested_util (key :: route) v = raise TypeError msg.
Proof. destruct v; try done; intros _; simpl; by eexists. Qed.

(** C9: a path that goes on below a scalar does not resolve to [None]: the
    walk asks whether the next segment is in the scalar, which raises
    [TypeError].  The segments [keys] are walked through dictionaries down to
    the scalar [leaf]; [rest] is what remains of the path. *)
Theorem get_nested_raises_below_scalar route rest mapping leaf :
  rest ≠ [] → route ≠ [] → is_scalar leaf = true →
  _get_nested_util route mapping = Ok leaf →
  ∃ msg, _get_nested_util (route ++ rest) mapping = raise TypeError msg.
Proof.
  intros Hrest Hroute Hleaf. revert mapping.
  induction route as [|key route IH]; [done|]. intros mapping Hwalk.
  destruct rest as [|r rest]; [done|].
  destruct mapping as [| | | |s|l|d]; simpl in *; try discriminate.
  - by destruct leaf.
  - destruct (contains key s); [discriminate|]. by simplify_eq.
  - destruct (list_has_str key l); [discriminate|]. by simplify_eq.
  - destruct (dict_get d key) as [item|] eqn:Hget; [|by simplify_eq].
    destruct route as [|key' route].
    + simplify_eq. simpl. by apply _get_nested_util_scalar.
    + simpl app. apply IH; done.
Qed.

Lemma get_nested_raises_below_scalar_witness :
  ∃ msg, get_nested "servo.is_active.x" servo_observations = raise TypeError msg.
Proof.
  apply (get_nested_raises_below_scalar ["servo"; "is_active"] ["x"]
           servo_observations (VBool false)); done.
Defined.

(** Where every value met on the way is a mapping or [None], the walk does
    not raise. *)
Lemma _get_nested_util_mappings route mapping :
  route ≠ [] → mappings_to_depth (length route) mapping →
  ∃ v, _get_nested_util route mapping = Ok v.
Proof.
  revert mapping. induction route as [|key route IH]; [done|].
  intros mapping _ Hm. simpl in Hm.
  destruct mapping as [| | | | |l|d]; try done; simpl; [by eexists|].
  destruct (dict_get d key) as [item|] eqn:Hget; [|by eexists].
  destruct route as [|key' route]; [by eexists|].
  apply IH; [done|]. by eapply Hm.
Qed.

End UtilsFacts.

(** ** Transport envelope *)
Module ConnectionFacts.
Import Connection Msgpack.

Example pack_empty_items :
  pack (VDict [("items", VList [])])
  = Ok (byte_of_Z <$> [0x81; 0xa5; 105; 116; 101; 109; 115; 0x90]%Z).
Proof. vm_compute. reflexivity. Qed.

Section codec.
Context `{Codec}.




Lemma collect_unsatisfied_raises datacls mapping anns field t :
  List.find
    (λ ann, negb (isinstance (default VNone (dict_get mapping ann.1)) ann.2)
            && negb (dict_mem (class_attrs datacls) ann.1)) anns = Some (field, t) →
  (∀ f v, dict_get (class_attrs datacls) f = Some v → v = VNone) →
  collect_unsatisfied datacls mapping anns
  = raise AttributeError
      ("type object " ++ repr_str (cls_name datacls)
       ++ " has no attribute " ++ repr_str field).
Proof.
  intros Hfind Hnone. induction anns as [|[f ft] anns IH]; [done|].
  simpl in Hfind. simpl. unfold field_unsatisfied, dict_mem in *.
  destruct (isinstance (default VNone (dict_get mapping f)) ft); simpl in *.
  - rewrite IH by done. reflexivity.
  - destruct (dict_get (class_attrs datacls) f) as [attr|] eqn:Hattr; simpl in *.
    + rewrite (Hnone _ _ Hattr). simpl. rewrite IH by done. reflexivity.
    + by simplify_eq.
Qed.

(** C3: what the code does on a payload with an unsatisfied required field.
    The decoder does not raise the [ValueError] that lists the unsatisfied
    fields: [getattr] on the first required field that is missing or of the
    wrong type raises [AttributeError], whose message names that one field
    and no other. *)
Theorem decode_stops_at_first_unsatisfied_field datacls payload mapping field t :
  datacls = Request_cls ∨ datacls = Response_cls →
  loads payload = Ok (VDict mapping) →
  first_unsatisfied_required datacls mapping = Some (field, t) →
  _decode_transaction datacls payload
  = raise AttributeError
      ("type object " ++ repr_str (cls_name datacls)
       ++ " has no attribute " ++ repr_str field).
Proof.
  intros Hcls Hloads Hfirst. unfold _decode_transaction. rewrite Hloads. simpl.
  rewrite (collect_unsatisfied_raises _ _ _ _ _ Hfirst); [done|].
  intros f v. destruct Hcls as [-> | ->]; cbn [class_attrs Request_cls Response_cls dict_get].
  - done.
  - destruct (String.eqb "feedback" f); [by intros [= <-]|].
    destruct (String.eqb "error" f); [by intros [= <-]|done].
Qed.

End codec.

Lemma decode_stops_at_first_unsatisfied_field_witness :
  decode_request empty_map_payload
  = raise AttributeError "type object 'Request' has no attribute 'sent_time'".
Proof.
  apply (decode_stops_at_first_unsatisfied_field Request_cls empty_map_payload []
           "sent_time" TFloat); [by left|reflexivity|reflexivity].
Defined.

(** Both required fields of the request are unsatisfied by the empty map; the
    error is not the validation error and does not name [items]. *)
Lemma empty_map_unsatisfied_fields :
  loads empty_map_payload = Ok (VDict []) ∧
  isinstance (default VNone (dict_get ([] : dict value) "sent_time")) TFloat = false ∧
  isinstance (default VNone (dict_get ([] : dict value) "items")) TList = false.
Proof. by vm_compute. Qed.

End ConnectionFacts.

(** ** Gate network *)
Module GateNetworkFacts.
Import Graph Utils.
Import GateNetwork.

(** *** The monad *)

Lemma bind_Ok {S A B} (m : M S A) (f : A → M S B) s a s' :
  m s = (Ok a, s') → (m ≫= f) s = f a s'.
Proof. intros Hm. unfold mbind, M_bind. by rewrite Hm. Qed.

Lemma bind_Raise {S A B} (m : M S A) (f : A → M S B) s e s' :
  m s = (Raise e, s') → (m ≫= f) s = (Raise e, s').
Proof. intros Hm. unfold mbind, M_bind. by rewrite Hm. Qed.

(** *** Steps of the resolution *)

Section steps.
Context `{SetOrder}.

Lemma iter_set_singleton x : iter_set {[x]} = [x].
Proof.
  pose proof (iter_set_perm {[x]}) as Hp. rewrite elements_singleton in Hp.
  by apply Permutation_singleton_r in Hp.
Qed.

Lemma iter_set_pair x y :
  x ≠ y → iter_set {[x; y]} = [x; y] ∨ iter_set {[x; y]} = [y; x].
Proof.
  intros Hne. pose proof (iter_set_perm {[x; y]}) as Hp.
  rewrite elements_disj_union, !elements_singleton in Hp by set_solver.
  simpl in Hp. symmetry in Hp. by apply Permutation_length_2_inv in Hp.
Qed.

Lemma issubset_singleton k d : issubset {[k]} d = dict_mem d k.
Proof.
  unfold issubset. destruct (dict_mem d k) eqn:Hk.
  - apply bool_decide_eq_true. by apply set_Forall_singleton.
  - apply bool_decide_eq_false. rewrite set_Forall_singleton. congruence.
Qed.

Lemma run_gate_lookup tag feed net gate :
  gates net !! tag = Some gate →
  run_gate tag feed net = (_procedure gate feed, log_invoked tag net).
Proof. intros Hg. unfold run_gate, mbind, M_bind, get. simpl. rewrite Hg. reflexivity. Qed.

Lemma resolve_loop_S fuel st net :
  resolve_loop (S fuel) st net
  = match epoch st net with
    | (Ok st', net') =>
        if finished net' st' then (Ok (Some (resolved st')), net')
        else resolve_loop fuel st' net'
    | (Raise e, net') => (Raise e, net')
    end.
Proof.
  simpl. unfold mbind at 1, M_bind at 1. destruct (epoch st net) as [[st'|e] net']; [|done].
  unfold mbind, M_bind, get. simpl. by destruct (finished net' st').
Qed.

Lemma epoch_step st net st' results net' :
  for_each (prime_gate net (current_generation st)) (current_generation st)
    {| current_generation := current_generation st; unsatisfied := unsatisfied st;
       resolved := resolved st; to_be_evaluated := [] |} = Ok st' →
  for_eachM run_primed (to_be_evaluated st') [] net = (Ok results, net') →
  epoch st net
  = (Ok {| current_generation := dict_update (current_generation st') results;
           unsatisfied := unsatisfied st'; resolved := resolved st';
           to_be_evaluated := to_be_evaluated st' |},
     with_epoch_count (epoch_count net' + 1) net').
Proof.
  intros Hprime Hrun. unfold epoch, mbind, M_bind, get, lift, modify, mret, M_ret.
  simpl. rewrite Hprime. simpl. rewrite Hrun. reflexivity.
Qed.

Lemma satisfy_sole_parent copy cur r child parent st rp arg :
  dict_get (dict_update (default [] (dict_get (unsatisfied st) child)) copy) parent
    = Some rp →
  update_argument rp = Ok arg →
  satisfy_or_defer copy cur r child {[parent]} st
  = Ok {| current_generation := dict_del (current_generation st) parent;
          unsatisfied := dict_del (unsatisfied st) child;
          resolved := resolved st;
          to_be_evaluated :=
            inner_merge (to_be_evaluated st) child (dict_update [] arg) |}.
Proof.
  intros Hget Harg. unfold satisfy_or_defer.
  rewrite issubset_singleton, iter_set_singleton. unfold dict_mem.
  cbn zeta. rewrite Hget. cbn -[update_argument dict_update dict_del inner_merge].
  rewrite Hget. cbn -[update_argument dict_update dict_del inner_merge].
  rewrite Harg. reflexivity.
Qed.

Lemma prime_gate_sole_child net copy st cur r child gate rp arg :
  gates net !! cur = Some gate → children gate = {[child]} →
  _conditional_edges net !! (cur, child) = None →
  filter (λ parent_tag, (parent_tag, child) ∉ dom (_conditional_edges net))
         (get_in_neighbors (gates net) child) = {[cur]} →
  dict_get (dict_update (default [] (dict_get (unsatisfied st) child)) copy) cur
    = Some rp →
  update_argument rp = Ok arg →
  prime_gate net copy st (cur, r)
  = Ok {| current_generation := dict_del (current_generation st) cur;
          unsatisfied := dict_del (unsatisfied st) child;
          resolved := resolved st;
          to_be_evaluated :=
            inner_merge (to_be_evaluated st) child (dict_update [] arg) |}.
Proof.
  intros Hgate Hchildren Hcond Hparents Hget Harg. unfold prime_gate.
  rewrite Hgate, Hchildren. rewrite decide_False by set_solver.
  rewrite iter_set_singleton. simpl. unfold prime_child.
  rewrite Hcond, Hparents. erewrite satisfy_sole_parent by done. reflexivity.
Qed.

Lemma prime_gate_sink net copy st cur r gate r' :
  gates net !! cur = Some gate → children gate = ∅ →
  dict_get (current_generation st) cur = Some r' →
  prime_gate net copy st (cur, r)
  = Ok {| current_generation := dict_del (current_generation st) cur;
          unsatisfied := unsatisfied st;
          resolved := dict_set (resolved st) cur r';
          to_be_evaluated := to_be_evaluated st |}.
Proof.
  intros Hgate Hchildren Hget. unfold prime_gate.
  rewrite Hgate, Hchildren. rewrite decide_True by done. by rewrite Hget.
Qed.

Lemma run_no_isolated fuel tag feed net :
  get_isolated (gates net) = ∅ →
  run fuel tag feed net = _resolve_all fuel tag feed net.
Proof.
  intros Hiso. unfold run, warn_isolated. erewrite bind_Ok; [reflexivity|].
  erewrite bind_Ok by reflexivity. rewrite Hiso.
  rewrite bool_decide_eq_false_2 by (by intros ?). reflexivity.
Qed.

Lemma _resolve_all_start fuel tag feed net r net1 :
  run_gate tag feed net = (Ok r, net1) →
  _resolve_all fuel tag feed net
  = resolve_loop fuel (initial_generation tag r) (with_epoch_count 0 net1).
Proof.
  intros Hrun. unfold _resolve_all. erewrite bind_Ok by exact Hrun. reflexivity.
Qed.

Lemma run_primed_one tag feed net gate r :
  gates net !! tag = Some gate → _procedure gate (VDict feed) = Ok r →
  for_eachM run_primed [(tag, feed)] [] net = (Ok [(tag, r)], log_invoked tag net).
Proof.
  intros Hgate Hr. cbn [for_eachM]. unfold run_primed. cbn [fst snd].
  unfold mbind, M_bind. rewrite (run_gate_lookup _ _ _ _ Hgate), Hr. reflexivity.
Qed.

Lemma finished_no_ceiling net st :
  _max_epochs net = None → current_generation st ≠ [] → finished net st = false.
Proof.
  intros Hmax Hcur. unfold finished. destruct (current_generation st); [done|].
  rewrite Hmax. by apply bool_decide_eq_false_2.
Qed.

Lemma finished_empty net st : current_generation st = [] → finished net st = true.
Proof. intros Hcur. unfold finished. by rewrite Hcur. Qed.



Lemma prime_child_live net copy cur d st child cond v :
  _conditional_edges net !! (cur, child) = Some cond →
  get_nested (location cond) (VDict d) = Ok v →
  evaluator cond v (target cond) = Ok true →
  prime_child net copy cur (VDict d) st child
  = satisfy_or_defer copy cur (VDict d) child {[cur]} st.
Proof.
  intros Hcond Hv Hlive. unfold prime_child. rewrite Hcond, Hv. simpl.
  by rewrite Hlive.
Qed.

Lemma epoch_sole_link net cur child gate child_gate r arg r' res tbe :
  gates net !! cur = Some gate → children gate = {[child]} →
  _conditional_edges net !! (cur, child) = None →
  filter (λ parent_tag, (parent_tag, child) ∉ dom (_conditional_edges net))
         (get_in_neighbors (gates net) child) = {[cur]} →
  update_argument r = Ok arg →
  gates net !! child = Some child_gate →
  _procedure child_gate (VDict (dict_update [] arg)) = Ok r' →
  epoch {| current_generation := [(cur, r)]; unsatisfied := [];
           resolved := res; to_be_evaluated := tbe |} net
  = (Ok {| current_generation := [(child, r')]; unsatisfied := [];
           resolved := res; to_be_evaluated := [(child, dict_update [] arg)] |},
     with_epoch_count (epoch_count net + 1) (log_invoked child net)).
Proof.
  intros Hgate Hchildren Hcond Hparents Harg Hchild Hrun.
  erewrite epoch_step.
  2:{ cbn [for_each current_generation unsatisfied resolved].
      erewrite prime_gate_sole_child; [reflexivity|done..| |done].
      cbn. by rewrite String.eqb_refl. }
  2:{ cbn. eapply run_primed_one; done. }
  cbn. rewrite String.eqb_refl. reflexivity.
Qed.

Lemma epoch_sink net cur gate r res tbe :
  gates net !! cur = Some gate → children gate = ∅ →
  epoch {| current_generation := [(cur, r)]; unsatisfied := [];
           resolved := res; to_be_evaluated := tbe |} net
  = (Ok {| current_generation := []; unsatisfied := [];
           resolved := dict_set res cur r; to_be_evaluated := [] |},
     with_epoch_count (epoch_count net + 1) net).
Proof.
  intros Hgate Hchildren.
  erewrite epoch_step.
  2:{ cbn [for_each current_generation unsatisfied resolved].
      erewrite prime_gate_sink; [reflexivity|done..|].
      cbn. by rewrite String.eqb_refl. }
  2:{ reflexivity. }
  cbn. rewrite String.eqb_refl. reflexivity.
Qed.


Lemma generations_S k st net st' net' rest net'' :
  epoch st net = (Ok st', net') →
  generations k st' net' = (Ok rest, net'') →
  generations (S k) st net = (Ok (dict_keys (current_generation st') :: rest), net'').
Proof.
  intros Hepoch Hrest. simpl. erewrite bind_Ok by exact Hepoch.
  erewrite bind_Ok by exact Hrest. reflexivity.
Qed.

Lemma same_wiring_refl net : same_wiring net net.
Proof. done. Qed.

Lemma same_wiring_step net net0 n tag :
  same_wiring net net0 →
  same_wiring (with_epoch_count n net) net0 ∧ same_wiring (log_invoked tag net) net0.
Proof. intros (? & ? & ?). done. Qed.

Lemma bind_ext {S A B} (m : M S A) (f g : A → M S B) s :
  (∀ a s', m s = (Ok a, s') → f a s' = g a s') → (m ≫= f) s = (m ≫= g) s.
Proof.
  intros Hfg. unfold mbind, M_bind.
  destruct (m s) as [[a|e] s']; [by apply Hfg|done].
Qed.

Lemma run_gate_framed tag feed net out net' :
  run_gate tag feed net = (out, net') → framed net net'.
Proof.
  unfold run_gate, mbind, M_bind, get, throw, modify, lift. simpl.
  destruct (gates net !! tag); intros [= <- <-]; done.
Qed.

Lemma run_primed_framed l acc net out net' :
  for_eachM run_primed l acc net = (out, net') → framed net net'.
Proof.
  revert acc net. induction l as [|entry l IH]; intros acc net.
  - intros [= <- <-]. done.
  - simpl. unfold mbind at 1, M_bind at 1. unfold run_primed at 1.
    unfold mbind at 1, M_bind at 1.
    destruct (run_gate entry.1 (VDict entry.2) net) as [[r|e] net1] eqn:Hrun;
      apply run_gate_framed in Hrun; destruct Hrun as ((Hg & Hc & Hm) & He).
    + simpl. intros Hrest. apply IH in Hrest. destruct Hrest as ((? & ? & ?) & ?).
      repeat split; congruence.
    + intros [= <- <-]. done.
Qed.

Lemma epoch_framed st net out net' :
  epoch st net = (out, net') →
  same_wiring net' net ∧
  (∀ st', out = Ok st' → epoch_count net' = (epoch_count net + 1)%Z).
Proof.
  unfold epoch. unfold mbind at 1, M_bind at 1, get at 1.
  unfold mbind at 1, M_bind at 1, lift at 1.
  destruct (for_each _ _ _) as [st1|e]; [|intros [= <- <-]; done].
  unfold mbind at 1, M_bind at 1.
  destruct (for_eachM run_primed (to_be_evaluated st1) [] net) as [[results|e] net1] eqn:Hrun;
    apply run_primed_framed in Hrun; destruct Hrun as ((Hg & Hc & Hm) & He).
  - intros [= <- <-]. split; [done|]. intros _ _. simpl. by rewrite He.
  - intros [= <- <-]. done.
Qed.

Lemma finished_spec net st :
  finished net st = true ↔
  current_generation st = [] ∨ _max_epochs net = Some (epoch_count net).
Proof.
  unfold finished. destruct (current_generation st) as [|entry cur].
  - naive_solver.
  - rewrite bool_decide_eq_true. naive_solver.
Qed.

(** With the ceiling at 1, the test of line 216 holds after the first
    epoch. *)
Lemma resolve_all_ceiling_one fuel tag feed net :
  _max_epochs net = Some 1%Z →
  _resolve_all (S fuel) tag feed net = resolve_exactly 1 tag feed net.
Proof.
  intros Hmax. unfold _resolve_all, resolve_exactly.
  apply bind_ext. intros r net0 Hrun.
  apply run_gate_framed in Hrun. destruct Hrun as ((_ & _ & Hm0) & _).
  apply bind_ext. intros [] net0' [= <-].
  rewrite resolve_loop_S. cbn [epochs]. unfold mbind, M_bind.
  destruct (epoch (initial_generation tag r) (with_epoch_count 0 net0))
    as [[st1|e] net1] eqn:Hepoch; [|done].
  apply epoch_framed in Hepoch. destruct Hepoch as ((_ & _ & Hm1) & Hcount).
  specialize (Hcount st1 eq_refl). simpl in Hcount, Hm1.
  assert (Hfin : finished net1 st1 = true).
  { apply finished_spec. right. rewrite Hm1, Hm0, Hmax, Hcount. reflexivity. }
  rewrite Hfin. reflexivity.
Qed.

Lemma epochs_S_first k st net st' net' out net'' :
  epoch st net = (Ok st', net') → epochs k st' net' = (out, net'') →
  epochs (S k) st net = (out, net'').
Proof. intros He Hk. simpl. erewrite bind_Ok by exact He. exact Hk. Qed.

(** The loop returns at the end of the first epoch at which the test of
    line 216 holds. *)
Lemma resolve_loop_first_finished k fuel st net st' net' :
  (S k ≤ fuel)%nat →
  epochs (S k) st net = (Ok st', net') →
  finished net' st' = true →
  (∀ j stj netj, (1 ≤ j ≤ k)%nat →
     epochs j st net = (Ok stj, netj) → finished netj stj = false) →
  resolve_loop fuel st net = (Ok (Some (resolved st')), net').
Proof.
  revert fuel st net. induction k as [|k IH]; intros fuel st net Hfuel Hk Hfin Hnot.
  - destruct fuel as [|fuel]; [lia|]. rewrite resolve_loop_S.
    simpl in Hk. unfold mbind, M_bind in Hk.
    destruct (epoch st net) as [[st1|e] net1]; [|done].
    injection Hk as -> ->. by rewrite Hfin.
  - destruct fuel as [|fuel]; [lia|]. rewrite resolve_loop_S.
    change (epochs (S (S k)) st net) with ((epoch st ≫= epochs (S k)) net) in Hk.
    unfold mbind at 1, M_bind at 1 in Hk.
    destruct (epoch st net) as [[st1|e] net1] eqn:Hepoch; [|done].
    rewrite (Hnot 1%nat st1 net1); [| lia |].
    + apply IH; [lia|done|done|].
      intros j stj netj Hj Hepochs. apply (Hnot (S j)); [lia|].
      by eapply epochs_S_first.
    + simpl. by erewrite bind_Ok by exact Hepoch.
Qed.

(** With a ceiling of [n], [n] epochs of fuel are enough: the loop returns
    or raises, and does not count past the ceiling. *)
Lemma resolve_loop_ceiling fuel st net n out net' :
  _max_epochs net = Some n → (epoch_count net < n)%Z →
  (Z.to_nat (n - epoch_count net) ≤ fuel)%nat →
  resolve_loop fuel st net = (out, net') →
  out ≠ Ok None ∧ (∀ r, out = Ok (Some r) → (epoch_count net' ≤ n)%Z).
Proof.
  revert st net. induction fuel as [|fuel IH]; intros st net Hmax Hlt Hfuel; [lia|].
  rewrite resolve_loop_S.
  destruct (epoch st net) as [[st1|e] net1] eqn:Hepoch; [|by intros [= <- <-]].
  apply epoch_framed in Hepoch. destruct Hepoch as ((_ & _ & Hm1) & Hcount).
  specialize (Hcount st1 eq_refl).
  destruct (finished net1 st1) eqn:Hfin.
  - intros [= <- <-]. split; [done|]. intros _ _. lia.
  - assert (epoch_count net1 ≠ n).
    { intros Heq. assert (finished net1 st1 = true); [|congruence].
      apply finished_spec. right. congruence. }
    apply IH; [congruence|lia|lia].
Qed.
Lemma warn_isolated_framed net out net' :
  warn_isolated net = (out, net') → out = Ok tt ∧ framed net net'.
Proof.
  unfold warn_isolated, mbind, M_bind, get. simpl.
  destruct (_ && _); intros [= <- <-]; done.
Qed.

Lemma epoch_live_link net cur child gate child_gate cond d v r' res tbe :
  gates net !! cur = Some gate → children gate = {[child]} →
  _conditional_edges net !! (cur, child) = Some cond →
  get_nested (location cond) (VDict d) = Ok v →
  evaluator cond v (target cond) = Ok true →
  gates net !! child = Some child_gate →
  _procedure child_gate (VDict (dict_update [] d)) = Ok r' →
  epoch {| current_generation := [(cur, VDict d)]; unsatisfied := [];
           resolved := res; to_be_evaluated := tbe |} net
  = (Ok {| current_generation := [(child, r')]; unsatisfied := [];
           resolved := res; to_be_evaluated := [(child, dict_update [] d)] |},
     with_epoch_count (epoch_count net + 1) (log_invoked child net)).
Proof.
  intros Hgate Hchildren Hcond Hv Hlive Hchild Hrun.
  erewrite epoch_step.
  2:{ cbn [for_each current_generation unsatisfied resolved]. unfold prime_gate.
      rewrite Hgate, Hchildren. rewrite decide_False by set_solver.
      rewrite iter_set_singleton. cbn [for_each].
      erewrite prime_child_live by done.
      erewrite satisfy_sole_parent.
      2:{ cbn. by rewrite String.eqb_refl. }
      2:{ reflexivity. }
      reflexivity. }
  2:{ cbn. eapply run_primed_one; done. }
  cbn. rewrite String.eqb_refl. reflexivity.
Qed.

End steps.

(** *** The three networks *)

Lemma chain_builds pA pB pC :
  chain pA pB pC empty_network = (Ok tt, chain_network pA pB pC).
Proof. vm_compute. reflexivity. Qed.


Section chain.
Context `{SetOrder}.
Variables pA pB pC : value → result value.

Lemma chain_isolated : get_isolated (gates (chain_network pA pB pC)) = ∅.
Proof. vm_compute. reflexivity. Qed.

(** The three epochs of the chain, on any network wired like it. *)
Lemma chain_epoch_1 net rA fB rB res tbe :
  same_wiring net (chain_network pA pB pC) →
  update_argument rA = Ok fB → pB (VDict (dict_update [] fB)) = Ok rB →
  epoch {| current_generation := [("A", rA)]; unsatisfied := [];
           resolved := res; to_be_evaluated := tbe |} net
  = (Ok {| current_generation := [("B", rB)]; unsatisfied := [];
           resolved := res; to_be_evaluated := [("B", dict_update [] fB)] |},
     with_epoch_count (epoch_count net + 1) (log_invoked "B" net)).
Proof.
  intros (Hg & Hc & _) HfB HB.
  eapply epoch_sole_link; rewrite ?Hg, ?Hc; try reflexivity; done.
Qed.

Lemma chain_epoch_2 net rB fC rC res tbe :
  same_wiring net (chain_network pA pB pC) →
  update_argument rB = Ok fC → pC (VDict (dict_update [] fC)) = Ok rC →
  epoch {| current_generation := [("B", rB)]; unsatisfied := [];
           resolved := res; to_be_evaluated := tbe |} net
  = (Ok {| current_generation := [("C", rC)]; unsatisfied := [];
           resolved := res; to_be_evaluated := [("C", dict_update [] fC)] |},
     with_epoch_count (epoch_count net + 1) (log_invoked "C" net)).
Proof.
  intros (Hg & Hc & _) HfC HC.
  eapply epoch_sole_link; rewrite ?Hg, ?Hc; try reflexivity; done.
Qed.

Lemma chain_epoch_3 net rC res tbe :
  same_wiring net (chain_network pA pB pC) →
  epoch {| current_generation := [("C", rC)]; unsatisfied := [];
           resolved := res; to_be_evaluated := tbe |} net
  = (Ok {| current_generation := []; unsatisfied := [];
           resolved := dict_set res "C" rC; to_be_evaluated := [] |},
     with_epoch_count (epoch_count net + 1) net).
Proof.
  intros (Hg & _ & _). eapply epoch_sink; rewrite ?Hg; reflexivity.
Qed.

(** C1, as amended: when the three procedures return and the results of A
    and B are values that [dict.update] accepts ([None], a mapping, or an
    iterable of key/value pairs), the chain A→B→C, run from A, resolves in
    one generation per link: B runs in the first epoch on the merged result
    of A, C in the second on the merged result of B, and the third epoch
    moves C, which has no successor, to [resolved].  The run returns
    [resolved] with the result of C as its only entry. *)
Theorem chain_resolves_one_generation_per_link feed rA rB rC fB fC fuel :
  pA feed = Ok rA → update_argument rA = Ok fB →
  pB (VDict (dict_update [] fB)) = Ok rB → update_argument rB = Ok fC →
  pC (VDict (dict_update [] fC)) = Ok rC →
  (3 ≤ fuel)%nat →
  ∃ net' net'',
    (chain pA pB pC ;; run fuel "A" feed) empty_network
      = (Ok (Some [("C", rC)]), net') ∧
    epoch_count net' = 3%Z ∧ invoked net' = ["A"; "B"; "C"] ∧
    (chain pA pB pC ;; trace 3 "A" feed) empty_network
      = (Ok [["B"]; ["C"]; []], net'').
Proof.
  intros HA HfB HB HfC HC Hfuel.
  destruct fuel as [|[|[|fuel]]]; try lia.
  pose proof (same_wiring_refl (chain_network pA pB pC)) as Hw0.
  assert (HrunA : run_gate "A" feed (chain_network pA pB pC)
                  = (Ok rA, log_invoked "A" (chain_network pA pB pC))).
  { erewrite run_gate_lookup by reflexivity. simpl. by rewrite HA. }
  set (net0 := with_epoch_count 0 (log_invoked "A" (chain_network pA pB pC))).
  assert (Hw : same_wiring net0 (chain_network pA pB pC)) by done.
  pose proof (chain_epoch_1 net0 rA fB rB [] [] Hw HfB HB) as H1.
  set (net1 := with_epoch_count (epoch_count net0 + 1) (log_invoked "B" net0)) in *.
  assert (Hw1 : same_wiring net1 (chain_network pA pB pC)) by done.
  pose proof (chain_epoch_2 net1 rB fC rC [] [("B", dict_update [] fB)] Hw1 HfC HC) as H2.
  set (net2 := with_epoch_count (epoch_count net1 + 1) (log_invoked "C" net1)) in *.
  assert (Hw2 : same_wiring net2 (chain_network pA pB pC)) by done.
  pose proof (chain_epoch_3 net2 rC [] [("C", dict_update [] fC)] Hw2) as H3.
  set (net3 := with_epoch_count (epoch_count net2 + 1) net2) in *.
  exists net3, net3. split_and!.
  - erewrite bind_Ok by apply chain_builds.
    rewrite run_no_isolated by apply chain_isolated.
    erewrite _resolve_all_start by exact HrunA. fold net0.
    rewrite resolve_loop_S. unfold initial_generation. rewrite H1.
    rewrite finished_no_ceiling by done.
    rewrite resolve_loop_S, H2. rewrite finished_no_ceiling by done.
    rewrite resolve_loop_S, H3. rewrite finished_empty by done. reflexivity.
  - reflexivity.
  - reflexivity.
  - erewrite bind_Ok by apply chain_builds. unfold trace.
    erewrite bind_Ok by exact HrunA. erewrite bind_Ok by reflexivity. fold net0.
    unfold initial_generation.
    erewrite generations_S; [ |exact H1| ].
    2:{ erewrite generations_S; [ |exact H2| ].
        2:{ erewrite generations_S; [ |exact H3|reflexivity]. reflexivity. }
        reflexivity. }
    reflexivity.
Qed.
End chain.

Section fork.
Context `{SetOrder}.
Variables pA pB pC : value → result value.
Variables (target : value) (path : string) (ev : value → value → result bool).




End fork.

Section ceiling.
Context `{SetOrder}.

(** C6: on a network whose ceiling is 1 a run is the activation, exactly
    one epoch and the return of [resolved], whatever the network and however
    long its gates would keep each other live.  More generally the loop
    returns [resolved] at the end of the first epoch at which the current
    generation is empty or the epoch count equals the ceiling. *)
Theorem ceiling_one_stops_after_one_epoch :
  (∀ net tag feed fuel,
     _max_epochs net = Some 1%Z →
     run (S fuel) tag feed net = (warn_isolated;; resolve_exactly 1 tag feed) net) ∧
  (∀ k fuel st net st' net',
     (S k ≤ fuel)%nat →
     epochs (S k) st net = (Ok st', net') →
     current_generation st' = [] ∨ _max_epochs net' = Some (epoch_count net') →
     (∀ j stj netj, (1 ≤ j ≤ k)%nat → epochs j st net = (Ok stj, netj) →
        current_generation stj ≠ [] ∧ _max_epochs netj ≠ Some (epoch_count netj)) →
     resolve_loop fuel st net = (Ok (Some (resolved st')), net')).
Proof.
  split.
  - intros net tag feed fuel Hmax. unfold run. apply bind_ext.
    intros [] net0 Hwarn. apply warn_isolated_framed in Hwarn.
    destruct Hwarn as (_ & (_ & _ & Hm) & _).
    apply resolve_all_ceiling_one. congruence.
  - intros k fuel st net st' net' Hfuel Hk Hfin Hnot.
    eapply resolve_loop_first_finished; [done|done|by apply finished_spec|].
    intros j stj netj Hj Hepochs.
    destruct (Hnot j stj netj Hj Hepochs) as [Hcur Hceil].
    destruct (finished netj stj) eqn:Hf; [|done].
    apply finished_spec in Hf. naive_solver.
Qed.

Lemma ping_pong_builds : ping_pong empty_network = (Ok tt, ping_pong_network).
Proof. vm_compute. reflexivity. Qed.

Lemma ping_pong_isolated : get_isolated (gates ping_pong_network) = ∅.
Proof. vm_compute. reflexivity. Qed.

Lemma ping_pong_epoch net cur res tbe :
  same_wiring net ping_pong_network →
  cur = "A" ∨ cur = "B" →
  ∃ next, (next = "A" ∨ next = "B") ∧
    epoch {| current_generation := [(cur, VDict [("go", VBool true)])]; unsatisfied := [];
             resolved := res; to_be_evaluated := tbe |} net
    = (Ok {| current_generation := [(next, VDict [("go", VBool true)])]; unsatisfied := [];
             resolved := res;
             to_be_evaluated := [(next, [("go", VBool true)])] |},
       with_epoch_count (epoch_count net + 1) (log_invoked next net)).
Proof.
  intros (Hg & Hc & _) [-> | ->].
  - exists "B". split; [by right|].
    eapply epoch_live_link; rewrite ?Hg, ?Hc; reflexivity.
  - exists "A". split; [by left|].
    eapply epoch_live_link; rewrite ?Hg, ?Hc; reflexivity.
Qed.

(** Without a ceiling the two gates keep each other live for ever: whatever
    the number of epochs allowed, the run has not returned. *)
Lemma ping_pong_loop fuel net cur res tbe :
  same_wiring net ping_pong_network →
  cur = "A" ∨ cur = "B" →
  ∃ net',
    resolve_loop fuel
      {| current_generation := [(cur, VDict [("go", VBool true)])]; unsatisfied := [];
         resolved := res; to_be_evaluated := tbe |} net
    = (Ok None, net').
Proof.
  revert net cur tbe. induction fuel as [|fuel IH]; intros net cur tbe Hw Hcur.
  - by eexists.
  - destruct (ping_pong_epoch net cur res tbe Hw Hcur) as (next & Hnext & Hepoch).
    rewrite resolve_loop_S, Hepoch.
    rewrite finished_no_ceiling;
      [|simpl; destruct Hw as (_ & _ & Hm); by rewrite Hm|done].
    apply IH; [|done]. destruct Hw as (? & ? & ?). done.
Qed.

Lemma ping_pong_never_returns fuel feed :
  ∃ net', (ping_pong;; run fuel "A" feed) empty_network = (Ok None, net').
Proof.
  erewrite bind_Ok by apply ping_pong_builds.
  rewrite run_no_isolated by apply ping_pong_isolated.
  erewrite _resolve_all_start by (by erewrite run_gate_lookup by reflexivity).
  apply ping_pong_loop; [done|by left].
Qed.
End ceiling.

Lemma chain_resolves_one_generation_per_link_witness :
  ∃ net' net'',
    (chain (stamp "a") (stamp "b") (stamp "c") ;; run 3 "A" VNone) empty_network
      = (Ok (Some [("C", VDict [("a", VBool true); ("b", VBool true); ("c", VBool true)])]),
         net') ∧
    epoch_count net' = 3%Z ∧ invoked net' = ["A"; "B"; "C"] ∧
    (chain (stamp "a") (stamp "b") (stamp "c") ;; trace 3 "A" VNone) empty_network
      = (Ok [["B"]; ["C"]; []], net'').
Proof.
  apply (chain_resolves_one_generation_per_link (stamp "a") (stamp "b") (stamp "c")
           VNone (VDict [("a", VBool true)])
           (VDict [("a", VBool true); ("b", VBool true)])
           (VDict [("a", VBool true); ("b", VBool true); ("c", VBool true)])
           [("a", VBool true)] [("a", VBool true); ("b", VBool true)] 3);
    first [reflexivity | lia].
Defined.

(** C1, as stated, fails: the result of a gate that has a successor is
    merged with [dict.update], which raises for a number.  In the chain whose
    gate A returns 5 the run raises [TypeError] in the first epoch; B and C
    are never run and nothing is resolved. *)
Lemma chain_raises_on_scalar_result :
  ∃ net',
    (chain (λ _, Ok (VInt 5)) (stamp "b") (stamp "c") ;; run 3 "A" VNone) empty_network
      = (raise TypeError "object is not iterable", net') ∧
    invoked net' = ["A"] ∧ epoch_count net' = 0%Z.
Proof. eexists. split; [vm_compute; reflexivity|]. split; reflexivity. Qed.

(** A result that is an iterable of pairs is merged like a mapping: the
    chain whose gate A returns the list of one pair resolves, and B is fed
    the mapping of that pair. *)
Example chain_merges_pairs :
  ∃ net',
    (chain (λ _, Ok (VList [VList [VStr "a"; VInt 1]])) (stamp "b") (stamp "c") ;;
     run 3 "A" VNone) empty_network
      = (Ok (Some [("C", VDict [("a", VInt 1); ("b", VBool true); ("c", VBool true)])]),
         net') ∧
    invoked net' = ["A"; "B"; "C"].
Proof. eexists. split; [vm_compute; reflexivity|]. reflexivity. Qed.


Lemma ping_pong_first_epoch :
  epochs 1 (initial_generation "A" (VDict [("go", VBool true)]))
    (with_epoch_count 0 (log_invoked "A" (with_max_epochs (Some 1%Z) ping_pong_network)))
  = (Ok {| current_generation := [("B", VDict [("go", VBool true)])];
           unsatisfied := []; resolved := [];
           to_be_evaluated := [("B", [("go", VBool true)])] |},
     with_epoch_count 1
       (log_invoked "B"
          (log_invoked "A" (with_max_epochs (Some 1%Z) ping_pong_network)))).
Proof. vm_compute. reflexivity. Qed.

Lemma ceiling_one_stops_after_one_epoch_witness :
  (∃ net',
     (ping_pong;; set_max_epochs 1;; run 5 "A" VNone) empty_network
       = (Ok (Some []), net') ∧
     epoch_count net' = 1%Z ∧ invoked net' = ["A"; "B"]) ∧
  resolve_loop 5 (initial_generation "A" (VDict [("go", VBool true)]))
    (with_epoch_count 0 (log_invoked "A" (with_max_epochs (Some 1%Z) ping_pong_network)))
  = (Ok (Some []),
     with_epoch_count 1
       (log_invoked "B"
          (log_invoked "A" (with_max_epochs (Some 1%Z) ping_pong_network)))).
Proof.
  destruct (@ceiling_one_stops_after_one_epoch elements_order) as [Hone Hfirst].
  split.
  - eexists. split.
    + erewrite bind_Ok by apply ping_pong_builds.
      erewrite bind_Ok by reflexivity.
      rewrite Hone by reflexivity. vm_compute. reflexivity.
    + split; reflexivity.
  - apply (Hfirst 0%nat 5%nat _ _ _ _ ltac:(lia) ping_pong_first_epoch).
    + right. reflexivity.
    + intros j stj netj Hj. lia.
Defined.

End GateNetworkFacts.

(** ** Worker dispatch *)
Module WorkerFacts.
Import Utils Connection Msgpack.
Import Worker DebugPlatform.

Section worker.
Context {C : Type} `{Driver C} `{Codec}.
Implicit Types w : Worker (C:=C).


Ltac mred :=
  repeat (unfold mbind, M_bind, mret, M_ret, lift, throw, get, modify, put;
          cbn -[method_handlers dict_get bind_arguments]).



Lemma handle_request received w sent_time items :
  decode_request received = Ok (Request sent_time (VList items)) →
  handle received w
  = (response ← _process_request_items items; mret (feedback_value response)) w.
Proof. intros Hdecode. unfold handle. mred. rewrite Hdecode. reflexivity. Qed.







Lemma handle_Ok_mapping received w v w' :
  handle received w = (Ok v, w') → ∃ feedback, v = VDict feedback.
Proof.
  unfold handle. mred. destruct (decode_request received) as [r|e]; [|done].
  destruct (field r "items"); try done.
  destruct (_process_request_items l w) as [[response|e] w1]; [|done].
  intros [= <- <-]. by eexists.
Qed.

(** C4: the response that the worker sends has exactly one of [error] and
    [feedback] set.  If the body of the [try] block returns, [feedback] is its
    mapping and [error] is [None]; if it raises an error that the handler
    catches, [error] is the text of the error and [feedback] is absent from
    the mapping, hence [None] in the decoded response. *)
Theorem response_has_error_xor_feedback w received t1 t2 env w' payload :
  respond received t1 t2 w = (Ok env, w') →
  encode_transaction env = Ok payload →
  loads payload = Ok (VDict env) →
  _on_receive received t1 t2 w = (Ok payload, w') ∧
  ∃ r, decode_response payload = Ok r ∧
    ((∃ feedback, handle received w = (Ok (VDict feedback), w') ∧
        field r "feedback" = VDict feedback ∧
        field r "error" = VNone) ∨
     (∃ e, handle received w = (Raise e, w') ∧ caught e = true ∧
        field r "error" = VStr (error_text e) ∧
        field r "feedback" = VNone)).
Proof.
  intros Hrespond Hencode Hloads. split.
  - unfold _on_receive, mbind, M_bind. rewrite Hrespond. unfold lift.
    by rewrite Hencode.
  - unfold respond in Hrespond.
    destruct (handle received w) as [[v|e] w1] eqn:Hhandle.
    + destruct (handle_Ok_mapping _ _ _ _ Hhandle) as [feedback ->].
      injection Hrespond as <- <-.
      eexists. split.
      * unfold decode_response, _decode_transaction. rewrite Hloads. reflexivity.
      * left. exists feedback. done.
    + destruct (caught e) eqn:Hcaught; [|done].
      injection Hrespond as <- <-.
      eexists. split.
      * unfold decode_response, _decode_transaction. rewrite Hloads. reflexivity.
      * right. exists e. done.
Qed.

Lemma respond_raises w received t1 t2 e w' :
  respond received t1 t2 w = (Raise e, w') ↔
  handle received w = (Raise e, w') ∧ caught e = false.
Proof.
  unfold respond. destruct (handle received w) as [[v|e1] w1].
  - split; [intros [=] | intros [[=] _]].
  - destruct (caught e1) eqn:Hc.
    + split; [intros [=] | intros [[= -> ->] Hc']; congruence].
    + split; [intros [= -> ->]; done | intros [[= -> ->] _]; done].
Qed.
End worker.




Lemma response_has_error_xor_feedback_witness :
  let env := [("received_time", VFloat 1); ("error", VNone);
              ("feedback",
               VDict [("get", VDict [("observations",
                        VDict [("led", VDict [("state", VBool true)])])])]);
              ("sent_time", VFloat 2)] in
  _on_receive toggle_and_read 1 2 debug_worker
    = (Ok (payload_of env), (respond toggle_and_read 1 2 debug_worker).2) ∧
  ∃ r, decode_response (payload_of env) = Ok r ∧
    ((∃ feedback,
        handle toggle_and_read debug_worker
          = (Ok (VDict feedback), (respond toggle_and_read 1 2 debug_worker).2) ∧
        field r "feedback" = VDict feedback ∧ field r "error" = VNone) ∨
     (∃ e,
        handle toggle_and_read debug_worker
          = (Raise e, (respond toggle_and_read 1 2 debug_worker).2) ∧
        caught e = true ∧
        field r "error" = VStr (error_text e) ∧ field r "feedback" = VNone)).
Proof.
  intros env.
  apply (response_has_error_xor_feedback debug_worker toggle_and_read 1 2 env).
  - vm_compute. reflexivity.
  - vm_compute. reflexivity.
  - vm_compute. reflexivity.
Defined.

End WorkerFacts.

(** ** The wire format gives every value back *)
Module MsgpackFacts.
Import Connection Msgpack.
Local Open Scope Z_scope.
Local Open Scope list_scope.

Lemma Z_of_byte_of_Z z : 0 ≤ z < 256 → Z_of_byte (byte_of_Z z) = z.
Proof.
  intros Hz. unfold Z_of_byte, byte_of_Z. rewrite Z.mod_small by lia.
  destruct (Byte.of_N (Z.to_N z)) as [b|] eqn:Hb.
  - simpl. apply Byte.to_of_N in Hb. rewrite Hb. lia.
  - apply Byte.of_N_None_iff in Hb. lia.
Qed.

Lemma Z_of_byte_range b : 0 ≤ Z_of_byte b < 256.
Proof. unfold Z_of_byte. pose proof (Byte.to_N_bounded b). lia. Qed.

Lemma Z_of_byte_of_Z_mod z : Z_of_byte (byte_of_Z z) = z mod 256.
Proof.
  unfold byte_of_Z. pose proof (Z.mod_pos_bound z 256 ltac:(lia)).
  rewrite <- (Z_of_byte_of_Z (z mod 256)) at 2 by lia.
  unfold byte_of_Z. by rewrite Z.mod_mod by lia.
Qed.

Lemma length_be_bytes n z : length (be_bytes n z) = n.
Proof. induction n; simpl; congruence. Qed.

Lemma be_fold n z acc :
  fold_left (λ acc b, acc * 256 + Z_of_byte b) (be_bytes n z) acc
  = acc * 256 ^ Z.of_nat n + z mod 256 ^ Z.of_nat n.
Proof.
  revert acc. induction n as [|n IH]; intros acc.
  - simpl. rewrite Z.mod_1_r. lia.
  - cbn [be_bytes fold_left]. rewrite IH, Z_of_byte_of_Z_mod.
    rewrite Nat2Z.inj_succ, Z.pow_succ_r by lia.
    rewrite (Z.mul_comm 256 (256 ^ Z.of_nat n)).
    rewrite (Z.rem_mul_r z (256 ^ Z.of_nat n) 256) by lia. lia.
Qed.

Lemma be_value_be_bytes n z :
  0 ≤ z < 256 ^ Z.of_nat n → be_value (be_bytes n z) = z.
Proof.
  intros Hz. unfold be_value. rewrite be_fold, Z.mod_small by lia. lia.
Qed.

Lemma take_bytes_app hd rest :
  take_bytes (length hd) (hd ++ rest) = Ok (hd, rest).
Proof.
  unfold take_bytes. rewrite length_app.
  destruct (Nat.ltb_spec (length hd + length rest) (length hd)); [lia|].
  by rewrite take_app_length, drop_app_length.
Qed.

Lemma unpack_uint_be n z rest :
  0 ≤ z < 256 ^ Z.of_nat n →
  unpack_uint n (be_bytes n z ++ rest) = Ok (z, rest).
Proof.
  intros Hz. unfold unpack_uint.
  rewrite <- (length_be_bytes n z) at 1. rewrite take_bytes_app. simpl.
  by rewrite be_value_be_bytes.
Qed.

(** Deciding the tests on the type byte. *)
Ltac tag_tests :=
  repeat first
    [ case Z.ltb_spec; intros; [try lia|try lia]
    | case Z.eqb_spec; intros; [try lia|try lia]
    | case Z.leb_spec; intros; [try lia|try lia] ].

Lemma unpack_sint_be n z rest :
  (0 < n)%nat → - (256 ^ Z.of_nat n / 2) ≤ z < 0 →
  unpack_sint n (be_bytes n (z + 256 ^ Z.of_nat n) ++ rest) = Ok (z, rest).
Proof.
  intros Hn Hz. unfold unpack_sint.
  assert (H256 : 256 ^ Z.of_nat n = 2 * (256 ^ Z.of_nat n / 2)).
  { destruct n as [|n]; [lia|]. rewrite Nat2Z.inj_succ, Z.pow_succ_r by lia.
    replace (256 * 256 ^ Z.of_nat n) with ((128 * 256 ^ Z.of_nat n) * 2) by lia.
    rewrite Z.div_mul by lia. lia. }
  assert (0 < 256 ^ Z.of_nat n) by (apply Z.pow_pos_nonneg; lia).
  rewrite unpack_uint_be by lia. simpl.
  case Z.ltb_spec; intros; [lia|]. f_equal. f_equal. lia.
Qed.

Ltac widths :=
  change (Z.of_nat 1) with 1 in *; change (Z.of_nat 2) with 2 in *;
  change (Z.of_nat 4) with 4 in *; change (Z.of_nat 8) with 8 in *.

Lemma unpack_pack_int n fuel rest :
  - 2 ^ 63 ≤ n < 2 ^ 64 →
  ∃ b, pack_int n = Ok b ∧ (1 ≤ length b)%nat ∧
       unpack (S fuel) (b ++ rest) = Ok (VInt n, rest).
Proof.
  intros Hn. unfold pack_int. tag_tests; cbn [andb]; tag_tests.
  all: eexists; (split; [reflexivity|]); (split; [simpl; lia|]).
  all: cbn [app unpack]; rewrite Z_of_byte_of_Z by lia; cbn zeta; tag_tests.
  all: try done.
  all: try (rewrite unpack_uint_be by (widths; lia); done).
  - do 3 f_equal. lia.
  - change (2 ^ 8) with (256 ^ Z.of_nat 1). rewrite unpack_sint_be; [done|lia|].
    change (256 ^ Z.of_nat 1 / 2) with (2 ^ 7). lia.
  - change (2 ^ 16) with (256 ^ Z.of_nat 2). rewrite unpack_sint_be; [done|lia|].
    change (256 ^ Z.of_nat 2 / 2) with (2 ^ 15). lia.
  - change (2 ^ 32) with (256 ^ Z.of_nat 4). rewrite unpack_sint_be; [done|lia|].
    change (256 ^ Z.of_nat 4 / 2) with (2 ^ 31). lia.
  - change (2 ^ 64) with (256 ^ Z.of_nat 8). rewrite unpack_sint_be; [done|lia|].
    change (256 ^ Z.of_nat 8 / 2) with (2 ^ 63). lia.
Qed.

Lemma unpack_pack_str s fuel rest :
  Z.of_nat (length (String.list_byte_of_string s)) < 2 ^ 32 →
  ∃ b, pack_str s = Ok b ∧ (1 ≤ length b)%nat ∧
       unpack (S fuel) (b ++ rest) = Ok (VStr s, rest).
Proof.
  intros Hs. unfold pack_str, pack_len. cbn zeta.
  set (body := String.list_byte_of_string s) in *.
  assert (Hbody : unpack_str (length body) (body ++ rest) = Ok (VStr s, rest)).
  { unfold unpack_str. rewrite take_bytes_app. simpl.
    unfold body. by rewrite String.string_of_list_byte_of_string. }
  cbn [List.find snd fst]. tag_tests.
  all: eexists; (split; [reflexivity|]); (split; [simpl; lia|]).
  all: cbn [app unpack]; rewrite Z_of_byte_of_Z by lia; cbn zeta; tag_tests.
  - replace (160 + Z.of_nat (length body) - 160) with (Z.of_nat (length body)) by lia.
    by rewrite Nat2Z.id.
  - rewrite <- app_assoc, unpack_uint_be by (widths; lia). simpl. by rewrite Nat2Z.id.
  - rewrite <- app_assoc, unpack_uint_be by (widths; lia). simpl. by rewrite Nat2Z.id.
  - rewrite <- app_assoc, unpack_uint_be by (widths; lia). simpl. by rewrite Nat2Z.id.
Qed.

(** Induction over values, with the hypothesis for every member of a
    container. *)
Lemma value_ind_nested (P : value → Prop) :
  P VNone → (∀ b, P (VBool b)) → (∀ n, P (VInt n)) → (∀ f, P (VFloat f)) →
  (∀ s, P (VStr s)) →
  (∀ l, Forall P l → P (VList l)) →
  (∀ d, Forall (λ kx, P kx.2) d → P (VDict d)) →
  ∀ v, P v.
Proof.
  intros HN HB HI HF HS HL HD.
  fix IH 1. intros [|b|n|f|s|l|d].
  - exact HN.
  - apply HB.
  - apply HI.
  - apply HF.
  - apply HS.
  - apply HL. induction l as [|x l IHl]; constructor; [apply IH|apply IHl].
  - apply HD. induction d as [|[k x] d IHd]; constructor; [apply IH|apply IHd].
Qed.

Lemma unpack_seq_app {A} (one : bytes → result (A * bytes)) (xs : list A)
    (enc : A → bytes) rest :
  Forall (λ x, ∀ rest, one (enc x ++ rest) = Ok (x, rest)) xs →
  unpack_seq one (length xs) (concat (enc <$> xs) ++ rest) = Ok (xs, rest).
Proof.
  induction 1 as [|x xs Hx _ IH]; [done|].
  cbn [length unpack_seq fmap list_fmap concat]. rewrite <- app_assoc, Hx.
  simpl. by rewrite IH.
Qed.

Lemma fold_dict_set (d acc : dict value) :
  NoDup ((acc ++ d).*1) →
  fold_left (λ acc kv, dict_set acc kv.1 kv.2) d acc = acc ++ d.
Proof.
  revert acc. induction d as [|[k x] d IH]; intros acc Hnd.
  - by rewrite app_nil_r.
  - cbn [fold_left fst snd].
    assert (Hset : dict_set acc k x = acc ++ [(k, x)]).
    { assert (Hk : k ∉ acc.*1).
      { rewrite fmap_app in Hnd. apply NoDup_app in Hnd as (_ & Hdisj & _).
        intros Hin. apply (Hdisj k Hin). simpl. left. }
      clear -Hk. induction acc as [|[k1 x1] acc IHacc]; [done|].
      simpl. destruct (String.eqb_spec k1 k) as [->|Hne].
      - exfalso. apply Hk. simpl. left.
      - f_equal. apply IHacc. intros Hin. apply Hk. simpl. by right. }
    rewrite Hset, IH; rewrite <- app_assoc; done.
Qed.

Lemma pack_all_list (l : list value) :
  Forall (λ x, ∃ b, pack x = Ok b) l →
  (fix pack_all (l : list value) : result bytes :=
     match l with
     | [] => Ok []
     | x :: l' => a ← pack x; b ← pack_all l'; Ok (a ++ b)
     end) l = Ok (concat (enc <$> l)).
Proof.
  induction 1 as [|x l [b Hb] _ IH]; [done|].
  rewrite IH. unfold enc at 1. cbn [fmap list_fmap concat]. unfold enc at 1.
  rewrite Hb. reflexivity.
Qed.

Lemma pack_all_dict (d : list (string * value)) :
  Forall (λ kx, (∃ a, pack_str kx.1 = Ok a) ∧ ∃ b, pack kx.2 = Ok b) d →
  (fix pack_all (d : list (string * value)) : result bytes :=
     match d with
     | [] => Ok []
     | (k, x) :: d' => a ← pack_str k; b ← pack x; c ← pack_all d'; Ok (a ++ b ++ c)
     end) d = Ok (concat (enc_entry <$> d)).
Proof.
  induction 1 as [|[k x] d [[a Ha] [b Hb]] _ IH]; [done|].
  cbn [fst snd] in Ha, Hb.
  assert (He : enc_entry (k, x) = a ++ b).
  { unfold enc_entry, enc. cbn [pack fst snd]. by rewrite Ha, Hb. }
  rewrite IH, Ha, Hb. cbn [fmap list_fmap concat mbind result_bind].
  by rewrite He, <- app_assoc.
Qed.

Lemma max_list_le_concat {A} (f : A → nat) (g : A → bytes) (l : list A) :
  Forall (λ x, (f x ≤ length (g x))%nat) l →
  (max_list (f <$> l) ≤ length (concat (g <$> l)))%nat.
Proof.
  induction 1 as [|x l Hx _ IH]; [done|].
  simpl. rewrite length_app. unfold fmap in *. lia.
Qed.

Lemma depth_pos v : (1 ≤ depth v)%nat.
Proof. destruct v; simpl; lia. Qed.

Lemma foldr_and_Forall {A} (P : A → Prop) (l : list A) :
  foldr (λ x acc, P x ∧ acc) True l ↔ Forall P l.
Proof.
  induction l as [|x l IH]; simpl.
  - split; [constructor|done].
  - rewrite Forall_cons, IH. done.
Qed.

Lemma foldr_and2_Forall {A} (P Q : A → Prop) (l : list A) :
  foldr (λ x acc, P x ∧ Q x ∧ acc) True l ↔ Forall (λ x, P x ∧ Q x) l.
Proof.
  induction l as [|x l IH]; simpl.
  - split; [constructor|done].
  - rewrite Forall_cons, IH. tauto.
Qed.

Lemma round_trip_scalar v :
  match v with VList _ | VDict _ => False | _ => True end → round_trip v.
Proof.
  destruct v as [|b|n|f|s|l|d]; try done; intros _ Hp.
  - eexists. split; [reflexivity|]. split; [simpl; lia|].
    intros [|fuel] rest Hfuel; [simpl in Hfuel; lia|].
    cbn [app unpack]. rewrite Z_of_byte_of_Z by lia. cbn zeta. tag_tests. done.
  - destruct b; (eexists; split; [reflexivity|]; split; [simpl; lia|]);
      (intros [|fuel] rest Hfuel; [simpl in Hfuel; lia|]);
      cbn [app unpack]; rewrite Z_of_byte_of_Z by lia; cbn zeta; tag_tests; done.
  - simpl in Hp. 
    destruct (unpack_pack_int n 0 [] Hp) as (b & Hb & Hlen & _).
    exists b. split; [done|]. split; [done|].
    intros [|fuel] rest Hfuel; [simpl in Hfuel; lia|].
    destruct (unpack_pack_int n fuel rest Hp) as (b' & Hb' & _ & Hun).
    cbn [pack] in Hb. congruence.
  - simpl in Hp. eexists. split; [reflexivity|]. split; [simpl; lia|].
    intros [|fuel] rest Hfuel; [simpl in Hfuel; lia|].
    cbn [app unpack]. rewrite Z_of_byte_of_Z by lia. cbn zeta. tag_tests.
    change (2 ^ 64) with (256 ^ Z.of_nat 8) in Hp.
    by rewrite unpack_uint_be by done.
  - simpl in Hp.
    destruct (unpack_pack_str s 0 [] Hp) as (b & Hb & Hlen & _).
    exists b. split; [done|]. split; [done|].
    intros [|fuel] rest Hfuel; [simpl in Hfuel; lia|].
    destruct (unpack_pack_str s fuel rest Hp) as (b' & Hb' & _ & Hun).
    cbn [pack] in Hb. congruence.
Qed.

Lemma round_trip_enc v :
  round_trip v → packable v →
  pack v = Ok (enc v) ∧ (depth v ≤ length (enc v))%nat ∧
  ∀ fuel rest, (depth v ≤ fuel)%nat → unpack fuel (enc v ++ rest) = Ok (v, rest).
Proof.
  intros Hrt Hp. destruct (Hrt Hp) as (b & Hb & Hlen & Hun).
  unfold enc. by rewrite Hb.
Qed.

Lemma round_trip_list l : Forall round_trip l → round_trip (VList l).
Proof.
  intros IH [Hlen Hall]. apply foldr_and_Forall in Hall.
  assert (Hl : Forall (λ x, pack x = Ok (enc x) ∧ (depth x ≤ length (enc x))%nat ∧
                 ∀ fuel rest, (depth x ≤ fuel)%nat →
                   unpack fuel (enc x ++ rest) = Ok (x, rest)) l).
  { apply Forall_forall. intros x Hx.
    apply round_trip_enc; by eapply Forall_forall. }
  assert (Hbody : ∀ fuel rest, (max_list (depth <$> l) ≤ fuel)%nat →
            unpack_array (unpack fuel) (length l) (concat (enc <$> l) ++ rest)
            = Ok (VList l, rest)).
  { intros fuel rest Hfuel. unfold unpack_array.
    rewrite unpack_seq_app; [done|].
    apply Forall_forall. intros x Hx rest'.
    eapply Forall_forall in Hl as (_ & _ & Hun); [|done]. apply Hun.
    etrans; [|exact Hfuel]. apply max_list_elem_of_le. by apply list_elem_of_fmap_2. }
  assert (Hdepth : (max_list (depth <$> l) ≤ length (concat (enc <$> l)))%nat).
  { apply max_list_le_concat. eapply Forall_impl; [exact Hl|]. naive_solver. }
  cbn [pack]. rewrite pack_all_list by (eapply Forall_impl; [exact Hl|]; naive_solver).
  unfold pack_len. cbn zeta. cbn [List.find snd fst]. tag_tests.
  all: eexists; (split; [reflexivity|]);
       (split; [cbn [depth]; rewrite length_app; simpl; lia|]).
  all: intros [|fuel] rest Hfuel; [cbn [depth] in Hfuel; lia|];
       cbn [depth] in Hfuel; apply le_S_n in Hfuel.
  all: cbn [app unpack]; rewrite Z_of_byte_of_Z by lia; cbn zeta; tag_tests.
  - replace (144 + Z.of_nat (length l) - 144) with (Z.of_nat (length l)) by lia.
    rewrite Nat2Z.id. by apply Hbody.
  - rewrite <- app_assoc, unpack_uint_be by (widths; lia). simpl.
    rewrite Nat2Z.id. by apply Hbody.
  - rewrite <- app_assoc, unpack_uint_be by (widths; lia). simpl.
    rewrite Nat2Z.id. by apply Hbody.
Qed.

Lemma round_trip_dict d : Forall (λ kx, round_trip kx.2) d → round_trip (VDict d).
Proof.
  intros IH (Hlen & Hnd & Hall).
  apply foldr_and2_Forall in Hall.
  assert (Hd : Forall (λ kx,
                 (pack_str kx.1 = Ok (enc (VStr kx.1)) ∧
                  pack kx.2 = Ok (enc kx.2)) ∧
                 (depth kx.2 ≤ length (enc_entry kx))%nat ∧
                 ∀ fuel rest, (depth kx.2 ≤ fuel)%nat →
                   unpack_entry (unpack fuel) (enc_entry kx ++ rest) = Ok (kx, rest)) d).
  { apply Forall_forall. intros [k x] Hkx. cbn [fst snd].
    eapply Forall_forall in Hall as [Hk Hx]; [|done].
    eapply Forall_forall in IH; [|done]. cbn [fst snd] in *.
    destruct (round_trip_enc x IH Hx) as (Hpack & Hdepth & Hun).
    destruct (round_trip_enc (VStr k) (round_trip_scalar (VStr k) I) Hk)
      as (Hpackk & _ & Hunk).
    split_and!; [done|done| |].
    - unfold enc_entry. rewrite length_app. cbn [fst snd]. lia.
    - intros fuel rest Hfuel. unfold unpack_entry, enc_entry. cbn [fst snd].
      rewrite <- app_assoc, Hunk by (pose proof (depth_pos x); simpl; lia).
      cbn. by rewrite Hun. }
  assert (Hbody : ∀ fuel rest, (max_list ((λ kx, depth kx.2) <$> d) ≤ fuel)%nat →
            unpack_map (unpack fuel) (length d) (concat (enc_entry <$> d) ++ rest)
            = Ok (VDict d, rest)).
  { intros fuel rest Hfuel. unfold unpack_map.
    rewrite unpack_seq_app.
    - cbn. by rewrite fold_dict_set.
    - apply Forall_forall. intros kx Hkx rest'.
      eapply Forall_forall in Hd as (_ & _ & Hun); [|done]. apply Hun.
      etrans; [|exact Hfuel]. apply max_list_elem_of_le.
      by apply (list_elem_of_fmap_2 (λ kx, depth kx.2)). }
  assert (Hdepth : (max_list ((λ kx, depth kx.2) <$> d)
                    ≤ length (concat (enc_entry <$> d)))%nat).
  { apply max_list_le_concat. eapply Forall_impl; [exact Hd|]. naive_solver. }
  cbn [pack]. rewrite pack_all_dict by (eapply Forall_impl; [exact Hd|]; naive_solver).
  unfold pack_len. cbn zeta. cbn [List.find snd fst]. tag_tests.
  all: eexists; (split; [reflexivity|]);
       (split; [cbn [depth]; rewrite length_app; simpl; lia|]).
  all: intros [|fuel] rest Hfuel; [cbn [depth] in Hfuel; lia|];
       cbn [depth] in Hfuel; apply le_S_n in Hfuel.
  all: cbn [app unpack]; rewrite Z_of_byte_of_Z by lia; cbn zeta; tag_tests.
  - replace (128 + Z.of_nat (length d) - 128) with (Z.of_nat (length d)) by lia.
    rewrite Nat2Z.id. by apply Hbody.
  - rewrite <- app_assoc, unpack_uint_be by (widths; lia). simpl.
    rewrite Nat2Z.id. by apply Hbody.
  - rewrite <- app_assoc, unpack_uint_be by (widths; lia). simpl.
    rewrite Nat2Z.id. by apply Hbody.
Qed.

(** Every value that can be packed is given back by [unpackb]. *)
Theorem unpackb_pack v : packable v → pack v ≫= unpackb = Ok v.
Proof.
  intros Hp.
  assert (Hrt : round_trip v).
  { clear Hp. induction v using value_ind_nested;
      first [by apply round_trip_scalar | by apply round_trip_list
            | by apply round_trip_dict]. }
  destruct (Hrt Hp) as (b & Hb & Hlen & Hun).
  pose proof (Hun (S (length b)) [] ltac:(lia)) as Hb'.
  rewrite app_nil_r in Hb'.
  rewrite Hb. change (unpackb b = Ok v). unfold unpackb. by rewrite Hb'.
Qed.


End MsgpackFacts.

(** ** Graph primitives: neighbours, isolated nodes, paths and cycles *)
Module GraphMoreFacts.
Import Graph GraphFacts GraphWalks.
Local Open Scope list_scope.

Section for_each.
Context {A S : Type}.

Lemma for_each_app (body : S → A → result S) l1 l2 s :
  for_each body (l1 ++ l2) s = s' ← for_each body l1 s; for_each body l2 s'.
Proof.
  revert s. induction l1 as [|x l1 IH]; intros s; simpl; [done|].
  destruct (body s x) as [s1|e]; simpl; [apply IH|done].
Qed.

(** A property that every pass of the loop keeps holds at its end. *)
Lemma for_each_invariant (P : S → Prop) (body : S → A → result S) l s s' :
  P s → (∀ s x s1, x ∈ l → P s → body s x = Ok s1 → P s1) →
  for_each body l s = Ok s' → P s'.
Proof.
  revert s. induction l as [|x l IH]; intros s Hs Hbody; simpl.
  - by intros [= <-].
  - destruct (body s x) as [s1|e] eqn:Hx; simpl; [|done]. apply IH.
    + eapply Hbody; [|done..]. set_solver.
    + intros ????. apply Hbody. set_solver.
Qed.

(** The pass of the loop for an element of the list: the state before it
    comes after the first, the state after it comes before the last. *)
Lemma for_each_pass (R : relation S) `{!PreOrder R} (body : S → A → result S) l s s' x :
  (∀ s x s1, body s x = Ok s1 → R s s1) →
  for_each body l s = Ok s' → x ∈ l →
  ∃ s1 s2, R s s1 ∧ body s1 x = Ok s2 ∧ R s2 s'.
Proof.
  intros Hbody. revert s. induction l as [|y l IH]; intros s Hl Hx; [set_solver|].
  simpl in Hl. destruct (body s y) as [s1|e] eqn:Hy; simpl in Hl; [|done].
  assert (Hmono : R s1 s').
  { revert Hl. apply (for_each_invariant (R s1)); [done|].
    intros ??? _ ? ?%Hbody. by etrans. }
  apply elem_of_cons in Hx as [->|Hx].
  - exists s, s1. done.
  - destruct (IH s1 Hl Hx) as (s2 & s3 & ? & ? & ?). exists s2, s3.
    split_and!; [|done..]. etrans; [by eapply Hbody|done].
Qed.

(** A pass that raises ends the loop with an exception. *)
Lemma for_each_raises (body : S → A → result S) l s x :
  x ∈ l → (∀ s, ∃ e, body s x = Raise e) → ∃ e, for_each body l s = Raise e.
Proof.
  intros Hx Hbody. revert s. induction l as [|y l IH]; intros s; [set_solver|].
  simpl. destruct (body s y) as [s1|e] eqn:Hy; simpl; [|by eexists].
  apply elem_of_cons in Hx as [->|Hx]; [|by apply IH].
  destruct (Hbody s) as [e He]. congruence.
Qed.
Lemma for_each_Raise (body : S → A → result S) l s e :
  for_each body l s = Raise e → ∃ x s1, x ∈ l ∧ body s1 x = Raise e.
Proof.
  revert s. induction l as [|y l IH]; intros s; [done|]. simpl.
  destruct (body s y) as [s1|e'] eqn:Hy; simpl.
  - intros (x & s2 & ? & ?)%IH. exists x, s2. set_solver.
  - intros [= ->]. exists y, s. set_solver.
Qed.
End for_each.

Section facts.
Context `{Countable K} `{!SetLike K C}.
Implicit Types graph : gmap K C.

Lemma elem_of_get_in_neighbors graph key n :
  n ∈ get_in_neighbors graph key ↔ ∃ node, graph !! n = Some node ∧ key ∈ members node.
Proof.
  unfold get_in_neighbors. rewrite elem_of_dom. split.
  - intros [node [Hn Hin]%map_lookup_filter_Some]. by exists node.
  - intros (node & Hn & Hin). exists node. by apply map_lookup_filter_Some.
Qed.

Lemma add_edge_Ok repr graph a b graph' :
  add_edge repr graph a b = Ok graph' →
  a ≠ b ∧ ∃ node, graph !! a = Some node ∧
    graph' = <[a := with_members (members node ∪ {[b]}) node]> graph.
Proof.
  unfold add_edge. case_decide; [done|].
  destruct (graph !! a) as [node|] eqn:Ha; [|done].
  intros [= <-]. split; [done|]. by exists node.
Qed.

(** X1: removing an edge that has just been added, and was not there
    before, gives every node its successors back. *)
Theorem remove_edge_undoes_add_edge (repr : K → string) graph a b node :
  graph !! a = Some node → a ≠ b → b ∉ members node →
  ∃ g1 g2,
    add_edge repr graph a b = Ok g1 ∧ remove_edge repr g1 a b = Ok g2 ∧
    dom g2 = dom graph ∧
    ∀ n, members <$> g2 !! n = members <$> graph !! n.
Proof.
  intros Ha Hne Hb.
  eexists _, _. split_and!.
  - unfold add_edge. rewrite decide_False by done. rewrite Ha. reflexivity.
  - unfold remove_edge. rewrite lookup_insert_eq.
    rewrite decide_True; [reflexivity|].
    rewrite members_with_members. set_solver.
  - rewrite !dom_insert_L. apply elem_of_dom_2 in Ha. set_solver.
  - intros n. destruct (decide (n = a)) as [->|Hn].
    + rewrite lookup_insert_eq, Ha. simpl. f_equal.
      rewrite !members_with_members. set_solver.
    + by rewrite !lookup_insert_ne by done.
Qed.

(** X2: an accepted edge from [a] to [b] makes [a] an in-neighbour of [b]
    and changes the in-neighbours of no other key. *)
Theorem get_in_neighbors_add_edge (repr : K → string) graph a b graph' key :
  add_edge repr graph a b = Ok graph' →
  get_in_neighbors graph' key
  = if decide (key = b) then get_in_neighbors graph key ∪ {[a]}
    else get_in_neighbors graph key.
Proof.
  intros (Hne & node & Ha & ->)%add_edge_Ok.
  apply set_eq. intros n. rewrite elem_of_get_in_neighbors.
  destruct (decide (n = a)) as [->|Hn].
  - rewrite lookup_insert_eq. case_decide as Hk.
    + subst. rewrite elem_of_union. split; [set_solver|]. intros _.
      eexists. split; [done|]. rewrite members_with_members. set_solver.
    + rewrite elem_of_get_in_neighbors. split.
      * intros (node' & [= <-] & Hin). rewrite members_with_members in Hin.
        exists node. split; [done|]. set_solver.
      * intros (node' & Hn' & Hin). simplify_eq. eexists. split; [done|].
        rewrite members_with_members. set_solver.
  - rewrite lookup_insert_ne by done. case_decide.
    + rewrite elem_of_union, elem_of_get_in_neighbors. set_solver.
    + by rewrite elem_of_get_in_neighbors.
Qed.

(** X3: removing a node of the graph leaves it without in-neighbours and
    takes it, and nothing else, out of the in-neighbours of every other
    key. *)
Theorem get_in_neighbors_remove_node graph key k :
  key ∈ dom graph →
  get_in_neighbors (remove_node graph key) k
  = if decide (k = key) then ∅ else get_in_neighbors graph k ∖ {[key]}.
Proof.
  intros Hkey. apply set_eq. intros n.
  assert (Hl : n ∈ get_in_neighbors (remove_node graph key) k ↔
               n ≠ key ∧ ∃ node, graph !! n = Some node ∧ k ∈ members (strip key node)).
  { rewrite elem_of_get_in_neighbors. split.
    - intros (node' & Hn & Hin). rewrite remove_node_lookup in Hn by done.
      case_decide; [done|]. split; [done|].
      destruct (graph !! n) as [node|]; simplify_eq/=. by exists node.
    - intros (Hne & node & Hn & Hin). exists (strip key node).
      rewrite remove_node_lookup by done. rewrite decide_False by done.
      by rewrite Hn. }
  rewrite Hl. clear Hl. case_decide as Hk.
  - subst. split; [|set_solver]. intros (_ & node & _ & Hin).
    by apply strip_members in Hin.
  - rewrite elem_of_difference, elem_of_get_in_neighbors, not_elem_of_singleton.
    assert (Hs : ∀ node, k ∈ members (strip key node) ↔ k ∈ members node).
    { intros node. unfold strip. case_decide; [|done].
      rewrite members_with_members. set_solver. }
    split.
    + intros (Hne & node & Hn & Hin). split; [|done]. exists node. by rewrite <- Hs.
    + intros [(node & Hn & Hin) Hne]. split; [done|]. exists node. by rewrite Hs.
Qed.

Lemma elem_of_get_isolated graph k :
  k ∈ get_isolated graph ↔
  ∃ node, graph !! k = Some node ∧ members node = ∅ ∧ get_in_neighbors graph k = ∅.
Proof.
  unfold get_isolated, get_in_degree. rewrite elem_of_dom. split.
  - intros [node [Hk [Hin Hout]]%map_lookup_filter_Some]. simpl in *.
    exists node. split; [done|]. split.
    + by apply size_empty_iff, leibniz_equiv in Hout.
    + by apply size_empty_iff, leibniz_equiv in Hin.
  - intros (node & Hk & Hout & Hin). exists node.
    apply map_lookup_filter_Some. split; [done|]. simpl.
    rewrite Hin, Hout. by rewrite size_empty.
Qed.

(** X4: an accepted edge takes its two ends, and nothing else, out of the
    isolated nodes. *)
Theorem get_isolated_add_edge (repr : K → string) graph a b graph' :
  add_edge repr graph a b = Ok graph' →
  get_isolated graph' = get_isolated graph ∖ {[a; b]}.
Proof.
  intros Hadd. pose proof Hadd as (Hne & node & Ha & ->)%add_edge_Ok.
  apply set_eq. intros k.
  rewrite elem_of_difference, !elem_of_get_isolated.
  rewrite (get_in_neighbors_add_edge _ _ _ _ _ k Hadd).
  destruct (decide (k = a)) as [->|Hka].
  - rewrite lookup_insert_eq. split; [|set_solver].
    intros (node' & [= <-] & Hout & _). rewrite members_with_members in Hout. set_solver.
  - rewrite lookup_insert_ne by done. case_decide as Hkb.
    + subst. split; [|set_solver]. intros (node' & _ & _ & Hin). set_solver.
    + split; [|naive_solver]. intros Hk. split; [done|set_solver].
Qed.

End facts.

Section walks_facts.
Context `{Countable K} `{!SetLike K C}.
Variable repr : K → string.
Variable iter_set : gset K → list K.
Hypothesis iter_set_perm : ∀ s, iter_set s ≡ₚ elements s.
Implicit Types graph : gmap K C.


Lemma elem_of_iter_set s x : x ∈ iter_set s ↔ x ∈ s.
Proof. by rewrite iter_set_perm, elem_of_elements. Qed.

Lemma get_out_neighbors_Ok graph key out :
  get_out_neighbors repr graph key = Ok out →
  ∃ node, graph !! key = Some node ∧ out = members node.
Proof.
  unfold get_out_neighbors. destruct (graph !! key) as [node|]; [|done].
  intros [= <-]. by exists node.
Qed.

Lemma _get_paths_util_S graph fuel key paths prepended start :
  _get_paths_util repr iter_set (S fuel) graph key paths prepended start
  = out_neighbors ← get_out_neighbors repr graph key;
    if bool_decide (out_neighbors = ∅) || bool_decide (Some key = start)
    then Ok (Some (prepended ++ [key]), paths)
    else
      paths' ← for_each (visit repr iter_set graph fuel (prepended ++ [key]) (default key start))
                        (iter_set out_neighbors) paths;
      Ok (None, paths').
Proof. reflexivity. Qed.

Lemma _get_paths_util_loop graph fuel key paths prepended start node :
  graph !! key = Some node → members node ≠ ∅ → Some key ≠ start →
  _get_paths_util repr iter_set (S fuel) graph key paths prepended start
  = paths' ← for_each (visit repr iter_set graph fuel (prepended ++ [key]) (default key start))
                      (iter_set (members node)) paths;
    Ok (None, paths').
Proof.
  intros Hnode Hout Hstart. rewrite _get_paths_util_S.
  unfold get_out_neighbors. rewrite Hnode. simpl.
  by rewrite !bool_decide_eq_false_2.
Qed.

Lemma append_found (paths : list (list K)) (path : list K) :
  path ≠ [] →
  match Some path with
  | Some ((_ :: _) as p) => paths ++ [p]
  | _ => paths
  end = paths ++ [path].
Proof. intros Hp. destruct path; [done|reflexivity]. Qed.

(** What a call returns and what it appends: the paths it appends go on
    from [key] along edges of the graph, by one edge at least. *)
Lemma _get_paths_util_spec graph fuel key paths prepended start r paths' :
  _get_paths_util repr iter_set fuel graph key paths prepended start = Ok (r, paths') →
  (r = None ∨ r = Some (prepended ++ [key])) ∧
  ∃ new, paths' = paths ++ new ∧
    ∀ p, p ∈ new → ∃ q, q ≠ [] ∧ p = prepended ++ key :: q ∧ walk graph (key :: q).
Proof.
  revert key paths prepended start r paths'.
  induction fuel as [|fuel IH]; intros key paths prepended start r paths'; [done|].
  rewrite _get_paths_util_S.
  destruct (get_out_neighbors repr graph key) as [out|] eqn:Hout; [|done]. simpl.
  apply get_out_neighbors_Ok in Hout as (node & Hnode & ->).
  destruct (_ || _).
  - intros [= <- <-]. split; [by right|]. exists []. rewrite app_nil_r. set_solver.
  - destruct (for_each _ _ _) as [paths''|] eqn:Hloop; [|done]. simpl.
    intros [= <- <-]. split; [by left|].
    revert Hloop.
    apply (for_each_invariant (λ acc, ∃ new, acc = paths ++ new ∧
             ∀ p, p ∈ new → ∃ q, q ≠ [] ∧ p = prepended ++ key :: q ∧ walk graph (key :: q))).
    { exists []. rewrite app_nil_r. set_solver. }
    intros acc child acc1 Hchild%elem_of_iter_set (new & -> & Hnew). unfold visit.
    destruct (_get_paths_util repr iter_set _ _ _ _ _ _) as [[np acc']|] eqn:Hcall; [|done]. simpl.
    apply IH in Hcall as (Hnp & new1 & -> & Hnew1).
    assert (Hedge : edge graph key child) by by exists node.
    assert (Hnew' : ∀ p, p ∈ new ++ new1 →
              ∃ q, q ≠ [] ∧ p = prepended ++ key :: q ∧ walk graph (key :: q)).
    { intros p [Hp|Hp]%elem_of_app; [by apply Hnew|].
      destruct (Hnew1 p Hp) as (q & Hq & -> & Hwalk).
      exists (child :: q). split; [done|]. split; [by rewrite <- app_assoc|done]. }
    destruct Hnp as [->| ->].
    + intros [= <-]. exists (new ++ new1). by rewrite app_assoc.
    + rewrite append_found by by destruct prepended.
      intros [= <-]. exists ((new ++ new1) ++ [(prepended ++ [key]) ++ [child]]).
      split; [by rewrite !app_assoc|].
      intros p [Hp|Hp%list_elem_of_singleton]%elem_of_app; [by apply Hnew'|].
      subst. exists [child]. split; [done|]. split; [by rewrite <- app_assoc|done].
Qed.

Lemma get_complete_paths_spec graph fuel key paths :
  get_complete_paths repr iter_set fuel graph key false = Ok paths →
  ∀ p, p ∈ paths → ∃ q, q ≠ [] ∧ p = key :: q ∧ walk graph (key :: q).
Proof.
  unfold get_complete_paths.
  destruct (_get_paths_util repr iter_set _ _ _ _ _ _) as [[r paths']|] eqn:Hcall; [|done]. simpl.
  intros [= <-]. apply _get_paths_util_spec in Hcall as (_ & new & -> & Hnew).
  done.
Qed.

Lemma get_all_complete_paths_spec graph fuel paths :
  get_all_complete_paths repr iter_set fuel graph = Ok paths →
  ∀ p, p ∈ paths → ∃ key q, q ≠ [] ∧ p = key :: q ∧ walk graph (key :: q).
Proof.
  unfold get_all_complete_paths.
  apply (for_each_invariant (λ paths,
           ∀ p, p ∈ paths → ∃ key q, q ≠ [] ∧ p = key :: q ∧ walk graph (key :: q)));
    [set_solver|].
  intros acc key acc1 _ Hacc.
  destruct (get_complete_paths repr iter_set _ _ _ _) as [new|] eqn:Hnew; [|done]. simpl.
  intros [= <-] p [Hp|Hp]%elem_of_app; [by apply Hacc|].
  exists key. by eapply get_complete_paths_spec.
Qed.

Lemma no_closed_path_false (paths : list (list K)) :
  no_closed_path paths = Ok false →
  ∃ p k, p ∈ paths ∧ head p = Some k ∧ last p = Some k.
Proof.
  induction paths as [|p paths IH]; [done|]. simpl.
  destruct (head p) as [first|] eqn:Hfirst; [|done].
  destruct (last p) as [final|] eqn:Hfinal; [|done].
  case_decide as Heq.
  - subst. intros _. exists p, final. set_solver.
  - intros (p' & k & Hp & ?)%IH. exists p', k. set_solver.
Qed.

Lemma no_closed_path_true (paths : list (list K)) p k :
  no_closed_path paths = Ok true → p ∈ paths → head p = Some k → last p ≠ Some k.
Proof.
  induction paths as [|p' paths IH]; [set_solver|]. simpl.
  destruct (head p') as [first|] eqn:Hfirst; [|done].
  destruct (last p') as [final|] eqn:Hfinal; [|done].
  case_decide as Heq; [done|].
  intros Hrest [->|Hp]%elem_of_cons; [congruence|by apply IH].
Qed.

(** X5: when [is_acyclic] answers [False], the graph has a cycle. *)
Theorem is_acyclic_false_has_cycle graph fuel :
  is_acyclic repr iter_set fuel graph = Ok false → has_cycle graph.
Proof.
  unfold is_acyclic.
  destruct (get_all_complete_paths repr iter_set fuel graph) as [paths|] eqn:Hpaths; [|done]. simpl.
  intros (p & k & Hp & Hhead & Hlast)%no_closed_path_false.
  destruct (get_all_complete_paths_spec _ _ _ Hpaths p Hp) as (key & q & Hq & -> & Hwalk).
  simpl in Hhead. simplify_eq. exists k, q. split; [done|]. split; [done|].
  destruct q; [done|]. by rewrite last_cons_cons in Hlast.
Qed.

Lemma walk_app_l graph (p q : list K) : walk graph (p ++ q) → walk graph p.
Proof.
  revert q. induction p as [|a p IH]; intros q; [done|].
  destruct p as [|b p]; [done|]. intros [? Hw]. split; [done|]. exact (IH q Hw).
Qed.

Lemma visit_mono graph fuel prepended start acc child acc1 :
  visit repr iter_set graph fuel prepended start acc child = Ok acc1 → acc ⊆ acc1.
Proof.
  unfold visit.
  destruct (_get_paths_util repr iter_set _ _ _ _ _ _) as [[np acc']|] eqn:Hcall; [|done]. simpl.
  apply _get_paths_util_spec in Hcall as (_ & new & -> & _).
  destruct np as [[|]|]; intros [= <-]; set_solver.
Qed.

(** The walk follows every walk from [key] that comes to [start] for the
    first time at its end, and appends it. *)
Lemma _get_paths_util_follows graph w fuel key paths prepended start r paths' :
  _get_paths_util repr iter_set fuel graph key paths prepended start = Ok (r, paths') →
  Some key ≠ start →
  walk graph (key :: w ++ [default key start]) → default key start ∉ w →
  prepended ++ key :: w ++ [default key start] ∈ paths'.
Proof.
  revert fuel key paths prepended start r paths'.
  induction w as [|c w IH]; intros fuel key paths prepended start r paths' Hcall Hstart Hwalk Hw.
  - destruct fuel as [|fuel]; [done|].
    destruct Hwalk as [(node & Hnode & Hin) _].
    erewrite _get_paths_util_loop in Hcall; [|done|set_solver|done].
    destruct (for_each _ _ _) as [paths''|] eqn:Hloop; [|done]. simplify_eq/=.
    eapply (for_each_pass (⊆)) in Hloop as (acc & acc1 & _ & Hvisit & Hsub);
      [|apply visit_mono|by apply elem_of_iter_set].
    apply Hsub. unfold visit in Hvisit.
    destruct fuel as [|fuel]; [done|]. rewrite _get_paths_util_S in Hvisit.
    destruct (get_out_neighbors _ _ _) as [out|]; [|done]. simpl in Hvisit.
    rewrite (bool_decide_eq_true_2 (Some _ = Some _)) in Hvisit by done.
    rewrite orb_true_r in Hvisit. simpl in Hvisit.
    rewrite append_found in Hvisit by by destruct prepended.
    simplify_eq. rewrite <- app_assoc. set_solver.
  - destruct fuel as [|fuel]; [done|].
    destruct Hwalk as [(node & Hnode & Hin) Hwalk].
    erewrite _get_paths_util_loop in Hcall; [|done|set_solver|done].
    destruct (for_each _ _ _) as [paths''|] eqn:Hloop; [|done]. simplify_eq/=.
    eapply (for_each_pass (⊆)) in Hloop as (acc & acc1 & _ & Hvisit & Hsub);
      [|apply visit_mono|by apply elem_of_iter_set].
    apply Hsub. unfold visit in Hvisit.
    destruct (_get_paths_util repr iter_set _ _ _ _ _ _) as [[np acc']|] eqn:Hrec; [|done].
    simpl in Hvisit.
    assert (Hin' : (prepended ++ [key]) ++ c :: w ++ [default key start] ∈ acc').
    { eapply (IH _ _ _ _ (Some (default key start))); [done| |done|set_solver].
      intros [= ->]. set_solver. }
    rewrite <- app_assoc in Hin'.
    destruct np as [[|]|]; simplify_eq; set_solver.
Qed.

(** X6: when [is_acyclic] answers [True], the graph has no cycle. *)
Theorem is_acyclic_true_no_cycle graph fuel :
  is_acyclic repr iter_set fuel graph = Ok true → ¬ has_cycle graph.
Proof.
  unfold is_acyclic.
  destruct (get_all_complete_paths repr iter_set fuel graph) as [paths|] eqn:Hpaths; [|done]. simpl.
  intros Hno (k & path & Hpath & Hwalk & Hlast).
  assert (Hk : k ∈ path).
  { apply last_Some in Hlast as [l' ->]. set_solver. }
  apply list_elem_of_split_l in Hk as (w & rest & -> & Hw).
  replace (k :: w ++ k :: rest) with ((k :: w ++ [k]) ++ rest) in Hwalk
    by (simpl; by rewrite <- app_assoc).
  apply walk_app_l in Hwalk.
  assert (Hdom : k ∈ dom graph).
  { destruct w; destruct Hwalk as [(node & Hnode & _) _]; by apply elem_of_dom_2 in Hnode. }
  unfold get_all_complete_paths in Hpaths.
  eapply (for_each_pass (⊆)) in Hpaths as (acc & acc1 & _ & Hkey & Hsub);
    [| |by apply elem_of_iter_set].
  2:{ intros acc key acc1.
      destruct (get_complete_paths repr iter_set _ _ _ _); [|done]. simpl. intros [= <-]. set_solver. }
  unfold get_complete_paths in Hkey.
  destruct (_get_paths_util repr iter_set _ _ _ _ _ _) as [[r paths']|] eqn:Hcall; [|done].
  simpl in Hkey. simplify_eq.
  eapply (_get_paths_util_follows _ w) in Hcall; [|done..].
  eapply (no_closed_path_true _ (k :: w ++ [k]) k); [done| |done|].
  - apply Hsub. set_solver.
  - replace (k :: w ++ [k]) with ((k :: w) ++ [k]) by done. by rewrite last_snoc.
Qed.

(** Inside a trap that [start] is not in, the walk does not return. *)
Lemma _get_paths_util_trapped graph (X : gset K) start :
  trap graph X → start ∉ X →
  ∀ fuel key paths prepended, key ∈ X →
    ∃ e, _get_paths_util repr iter_set fuel graph key paths prepended (Some start) = Raise e.
Proof.
  intros Htrap Hstart. induction fuel as [|fuel IH]; intros key paths prepended Hkey.
  - by eexists.
  - destruct (Htrap key Hkey) as (y & Hy & node & Hnode & Hin).
    erewrite _get_paths_util_loop; [|done|set_solver|intros [= ->]; done].
    simpl. destruct (for_each_raises (visit repr iter_set graph fuel (prepended ++ [key]) start)
      (iter_set (members node)) paths y) as [e ->]; [by apply elem_of_iter_set| |by eexists].
    intros acc. unfold visit.
    destruct (IH y acc (prepended ++ [key]) Hy) as [e ->]. by eexists.
Qed.

(** Where every successor is a node, the walk raises nothing but the error
    of the recursion. *)
Lemma _get_paths_util_Raise graph fuel key paths prepended start e :
  (∀ a b, edge graph a b → b ∈ dom graph) → key ∈ dom graph →
  _get_paths_util repr iter_set fuel graph key paths prepended start = Raise e →
  Raise e = recursion_error (A:=bool).
Proof.
  intros Hclosed. revert key paths prepended start.
  induction fuel as [|fuel IH]; intros key paths prepended start Hkey.
  - by intros [= <-].
  - rewrite _get_paths_util_S. unfold get_out_neighbors.
    apply elem_of_dom in Hkey as [node Hnode]. rewrite Hnode. simpl.
    destruct (_ || _); [done|].
    destruct (for_each _ _ _) as [|e'] eqn:Hloop; [done|]. simpl. intros [= ->].
    apply for_each_Raise in Hloop as (child & acc & Hchild%elem_of_iter_set & Hvisit).
    unfold visit in Hvisit.
    destruct (_get_paths_util repr iter_set _ _ _ _ _ _) as [[]|e'] eqn:Hcall; [done|].
    simpl in Hvisit. simplify_eq. eapply IH; [|done].
    apply (Hclosed key). by exists node.
Qed.

(** X7: [is_acyclic] does not answer on a graph in which a node leads into
    a cycle that it is not on: the walk from that node never comes back to
    it and goes round until the recursion limit.  Where every successor is
    a node, the exception is [RecursionError]. *)
Theorem is_acyclic_raises_on_trap graph (X : gset K) k c fuel :
  trap graph X → k ∉ X → c ∈ X → edge graph k c →
  (∃ e, is_acyclic repr iter_set fuel graph = Raise e) ∧
  ((∀ a b, edge graph a b → b ∈ dom graph) → is_acyclic repr iter_set fuel graph = recursion_error).
Proof.
  intros Htrap Hk Hc (node & Hnode & Hin).
  assert (Hcall : ∀ paths, ∃ e,
            _get_paths_util repr iter_set fuel graph k paths [] None = Raise e).
  { intros paths. destruct fuel as [|fuel]; [by eexists|].
    erewrite _get_paths_util_loop; [|done|set_solver|done].
    destruct (for_each_raises (visit repr iter_set graph fuel ([] ++ [k]) (default k None))
      (iter_set (members node)) paths c) as [e ->]; [by apply elem_of_iter_set| |by eexists].
    intros acc. unfold visit. cbn [default].
    destruct (_get_paths_util_trapped graph X k Htrap Hk fuel c acc ([] ++ [k]) Hc)
      as [e ->]. by eexists. }
  assert (Hall : ∃ e, get_all_complete_paths repr iter_set fuel graph = Raise e).
  { apply (for_each_raises _ _ _ k).
    - apply elem_of_iter_set. by apply elem_of_dom_2 in Hnode.
    - intros acc. unfold get_complete_paths.
      destruct (Hcall []) as [e ->]. by eexists. }
  destruct Hall as [e Hall]. split.
  - exists e. unfold is_acyclic. by rewrite Hall.
  - intros Hclosed. unfold is_acyclic. rewrite Hall. simpl.
    apply for_each_Raise in Hall as (key & acc & Hkey%elem_of_iter_set & Hpaths).
    unfold get_complete_paths in Hpaths.
    destruct (_get_paths_util repr iter_set _ _ _ _ _ _) as [[]|e'] eqn:Hutil; [done|].
    simpl in Hpaths. simplify_eq.
    by eapply (_get_paths_util_Raise _ _ _ _ _ _ _ Hclosed Hkey) in Hutil.
Qed.

End walks_facts.


(** What the walk raises: the error of the recursion, or the [KeyError] of a
    successor that is not a node. *)
Lemma _get_paths_util_Raise_class {K C} `{Countable K} `{!SetLike K C}
    (repr : K → string) (iter_set : gset K → list K)
    (graph : gmap K C) fuel key paths prepended start e :
  _get_paths_util repr iter_set fuel graph key paths prepended start = Raise e →
  exn_name e = "RecursionError" ∨ exn_cls e = KeyError.
Proof.
  revert key paths prepended start.
  induction fuel as [|fuel IH]; intros key paths prepended start.
  - intros [= <-]. by left.
  - rewrite _get_paths_util_S. unfold get_out_neighbors.
    destruct (graph !! key) as [node|]; [|intros [= <-]; by right]. simpl.
    destruct (_ || _); [done|].
    destruct (for_each _ _ _) as [|e'] eqn:Hloop; [done|]. simpl. intros [= ->].
    apply for_each_Raise in Hloop as (child & acc & _ & Hvisit).
    unfold visit in Hvisit.
    destruct (_get_paths_util _ _ _ _ _ _ _ _) as [[]|e'] eqn:Hcall; [done|].
    simpl in Hvisit. simplify_eq. by eapply IH.
Qed.

Lemma is_acyclic_Raise_class {K C} `{Countable K} `{!SetLike K C}
    (repr : K → string) (iter_set : gset K → list K) (graph : gmap K C) fuel e :
  is_acyclic repr iter_set fuel graph = Raise e →
  exn_name e = "RecursionError" ∨ exn_cls e = KeyError ∨ exn_cls e = IndexError.
Proof.
  unfold is_acyclic.
  destruct (get_all_complete_paths _ _ _ _) as [paths|e'] eqn:Hall; simpl.
  - intros Hno. right. right. clear Hall.
    induction paths as [|p paths IH]; [done|]. simpl in Hno.
    destruct (head p); [|by injection Hno as <-].
    destruct (last p); [|by injection Hno as <-].
    case_decide; [done|by apply IH].
  - intros [= ->]. unfold get_all_complete_paths in Hall.
    apply for_each_Raise in Hall as (key & acc & _ & Hpaths).
    unfold get_complete_paths in Hpaths.
    destruct (_get_paths_util _ _ _ _ _ _ _ _) as [[]|e'] eqn:Hutil; [done|].
    simpl in Hpaths. simplify_eq.
    apply _get_paths_util_Raise_class in Hutil. tauto.
Qed.

(** X8: a joint that [join_arms] rejects with a [RuntimeError] stays in the
    model: the edge has been added and is not taken out again.  When the
    error is the one that [join_arms] raises itself, the model has a
    cycle. *)
Theorem join_arms_keeps_rejected_joint (iter_set : gset string → list string)
    fuel from_tag to_tag graph e graph' :
  (∀ s, iter_set s ≡ₚ elements s) →
  join_arms iter_set fuel from_tag to_tag graph = (Raise e, graph') →
  exn_cls e = RuntimeError →
  add_edge repr_str graph from_tag to_tag = Ok graph' ∧
  (exn_name e = "RuntimeError" → has_cycle graph').
Proof.
  intros Hperm. unfold join_arms, mbind, M_bind, get, put, lift, throw, mret, M_ret.
  simpl.
  destruct (add_edge repr_str graph from_tag to_tag) as [g1|e1] eqn:Hadd.
  - simpl. destruct (is_acyclic repr_str iter_set fuel g1) as [[]|e2] eqn:Hacyclic.
    + done.
    + intros [= <- <-] _. split; [done|]. intros _.
      by eapply is_acyclic_false_has_cycle.
    + intros [= <- <-] Hcls. split; [done|]. intros Hname.
      apply is_acyclic_Raise_class in Hacyclic as [?|[?|?]]; congruence.
  - intros [= <- <-] Hcls. unfold add_edge in Hadd.
    case_decide; [injection Hadd as <-; done|].
    destruct (graph !! from_tag); [done|injection Hadd as <-; done].
Qed.

Lemma remove_edge_undoes_add_edge_witness :
  ∃ g1 g2,
    add_edge repr_str ({[ "a" := ∅ ]} : gmap string (gset string)) "a" "b" = Ok g1 ∧
    remove_edge repr_str g1 "a" "b" = Ok g2 ∧
    dom g2 = dom ({[ "a" := ∅ ]} : gmap string (gset string)) ∧
    ∀ n, members <$> g2 !! n
         = members <$> ({[ "a" := ∅ ]} : gmap string (gset string)) !! n.
Proof.
  apply (remove_edge_undoes_add_edge repr_str {[ "a" := ∅ ]} "a" "b" ∅);
    [reflexivity|done|set_solver].
Defined.

Lemma get_in_neighbors_add_edge_witness :
  add_edge repr_str ({[ "a" := ∅ ]} : gmap string (gset string)) "a" "b"
    = Ok {[ "a" := {[ "b" ]} ]} ∧
  get_in_neighbors ({[ "a" := {[ "b" ]} ]} : gmap string (gset string)) "b"
  = get_in_neighbors ({[ "a" := ∅ ]} : gmap string (gset string)) "b" ∪ {[ "a" ]}.
Proof.
  assert (Hadd : add_edge repr_str ({[ "a" := ∅ ]} : gmap string (gset string)) "a" "b"
                 = Ok {[ "a" := {[ "b" ]} ]}) by (vm_compute; reflexivity).
  split; [exact Hadd|].
  exact (get_in_neighbors_add_edge repr_str _ "a" "b" _ "b" Hadd).
Defined.

Lemma get_in_neighbors_remove_node_witness :
  "b" ∈ dom two_cycle ∧
  get_in_neighbors (remove_node two_cycle "b") "a"
  = get_in_neighbors two_cycle "a" ∖ {[ "b" ]}.
Proof.
  assert (Hb : "b" ∈ dom two_cycle).
  { unfold two_cycle. rewrite !dom_insert_L. set_solver. }
  split; [exact Hb|].
  exact (get_in_neighbors_remove_node two_cycle "b" "a" Hb).
Defined.

Lemma get_isolated_add_edge_witness :
  add_edge repr_str ({[ "a" := ∅; "b" := ∅ ]} : gmap string (gset string)) "a" "b"
    = Ok {[ "a" := {[ "b" ]}; "b" := ∅ ]} ∧
  get_isolated ({[ "a" := {[ "b" ]}; "b" := ∅ ]} : gmap string (gset string))
  = get_isolated ({[ "a" := ∅; "b" := ∅ ]} : gmap string (gset string)) ∖ {[ "a"; "b" ]}.
Proof.
  assert (Hadd : add_edge repr_str ({[ "a" := ∅; "b" := ∅ ]} : gmap string (gset string))
                   "a" "b" = Ok {[ "a" := {[ "b" ]}; "b" := ∅ ]})
    by (vm_compute; reflexivity).
  split; [exact Hadd|].
  exact (get_isolated_add_edge repr_str _ "a" "b" _ Hadd).
Defined.

Lemma elements_perm (s : gset string) : elements s ≡ₚ elements s.
Proof. reflexivity. Qed.

Lemma is_acyclic_false_has_cycle_witness :
  is_acyclic repr_str elements 4 two_cycle = Ok false ∧ has_cycle two_cycle.
Proof.
  assert (Hfalse : is_acyclic repr_str elements 4 two_cycle = Ok false)
    by (vm_compute; reflexivity).
  split; [exact Hfalse|].
  exact (is_acyclic_false_has_cycle repr_str elements elements_perm two_cycle 4 Hfalse).
Defined.

Lemma is_acyclic_true_no_cycle_witness :
  is_acyclic repr_str elements 4 three_chain = Ok true ∧ ¬ has_cycle three_chain.
Proof.
  assert (Htrue : is_acyclic repr_str elements 4 three_chain = Ok true)
    by (vm_compute; reflexivity).
  split; [exact Htrue|].
  exact (is_acyclic_true_no_cycle repr_str elements elements_perm three_chain 4 Htrue).
Defined.

Lemma lasso_trap : trap lasso {[ "b"; "c" ]}.
Proof.
  intros x [->%elem_of_singleton| ->%elem_of_singleton]%elem_of_union.
  - exists "c". split; [set_solver|]. exists {[ "c" ]}. split; [done|set_solver].
  - exists "b". split; [set_solver|]. exists {[ "b" ]}. split; [done|set_solver].
Qed.

Lemma lasso_closed a b : edge lasso a b → b ∈ dom lasso.
Proof.
  intros (node & Hnode & Hin). unfold lasso in *. rewrite !dom_insert_L.
  destruct (decide (a = "a")) as [->|]; [simplify_map_eq; set_solver|].
  destruct (decide (a = "b")) as [->|]; [simplify_map_eq; set_solver|].
  destruct (decide (a = "c")) as [->|]; [simplify_map_eq; set_solver|].
  by simplify_map_eq.
Qed.

Lemma is_acyclic_raises_on_trap_witness :
  (∃ e, is_acyclic repr_str elements 1000 lasso = Raise e) ∧
  is_acyclic repr_str elements 1000 lasso = recursion_error.
Proof.
  destruct (is_acyclic_raises_on_trap repr_str elements elements_perm lasso
              {[ "b"; "c" ]} "a" "b" 1000 lasso_trap) as [Hraise Hrec].
  - set_solver.
  - set_solver.
  - exists {[ "b" ]}. split; [done|set_solver].
  - split; [exact Hraise|]. apply Hrec, lasso_closed.
Defined.

Lemma join_arms_keeps_rejected_joint_witness :
  let graph : gmap string (gset string) := {[ "a" := {[ "b" ]}; "b" := ∅ ]} in
  let e := Exn RuntimeError "RuntimeError"
             "The joint 'b' to 'a' creates a cycle in the body's model." in
  join_arms elements 4 "b" "a" graph = (Raise e, two_cycle) ∧
  add_edge repr_str graph "b" "a" = Ok two_cycle ∧
  has_cycle two_cycle.
Proof.
  intros graph e.
  assert (Hjoin : join_arms elements 4 "b" "a" graph = (Raise e, two_cycle))
    by (vm_compute; reflexivity).
  split; [exact Hjoin|].
  destruct (join_arms_keeps_rejected_joint elements 4 "b" "a" graph e two_cycle
              elements_perm Hjoin eq_refl) as [Hadd Hcycle].
  split; [exact Hadd|]. by apply Hcycle.
Defined.

End GraphMoreFacts.

(** ** Dictionaries *)
Module DictFacts.

Section dict.
Context {A : Type}.
Implicit Types d : dict A.

Lemma eqb_eq_dec (a b : string) : String.eqb a b = bool_decide (a = b).
Proof.
  destruct (String.eqb_spec a b).
  - by rewrite bool_decide_eq_true_2.
  - by rewrite bool_decide_eq_false_2.
Qed.

Lemma dict_get_set d k v k' :
  dict_get (dict_set d k v) k' = if decide (k = k') then Some v else dict_get d k'.
Proof.
  induction d as [|[j x] d IH]; simpl.
  - rewrite eqb_eq_dec. by case_bool_decide; case_decide.
  - rewrite (eqb_eq_dec j k). case_bool_decide as Hjk; simpl.
    + subst. rewrite (eqb_eq_dec k k'). by case_bool_decide; case_decide.
    + rewrite IH, (eqb_eq_dec j k'). case_bool_decide; [|done].
      subst. by rewrite decide_False.
Qed.

Lemma dict_keys_set d k v :
  dict_keys (dict_set d k v)
  = if dict_mem d k then dict_keys d else (dict_keys d ++ [k])%list.
Proof.
  unfold dict_mem, dict_keys. induction d as [|[j x] d IH]; [done|].
  cbn [dict_set dict_get]. destruct (String.eqb j k) eqn:Hjk; [done|].
  rewrite fmap_cons, IH. by destruct (dict_get d k).
Qed.

Lemma dict_get_None d k : dict_get d k = None ↔ k ∉ dict_keys d.
Proof.
  unfold dict_keys. induction d as [|[j x] d IH]; simpl.
  - split; [set_solver|done].
  - rewrite eqb_eq_dec. case_bool_decide; [set_solver|].
    rewrite IH. set_solver.
Qed.

Lemma dict_get_Some_elem d k v : dict_get d k = Some v → (k, v) ∈ d.
Proof.
  induction d as [|[j x] d IH]; simpl; [done|].
  rewrite eqb_eq_dec. case_bool_decide; [|set_solver].
  intros [= <-]. set_solver.
Qed.

Lemma dict_get_elem d k v : NoDup (dict_keys d) → (k, v) ∈ d → dict_get d k = Some v.
Proof.
  unfold dict_keys. induction d as [|[j x] d IH]; simpl; [set_solver|].
  intros [Hj Hd]%NoDup_cons [[= <- <-]|Hin]%elem_of_cons.
  - by rewrite String.eqb_refl.
  - rewrite eqb_eq_dec. case_bool_decide; [|by apply IH].
    subst. destruct Hj. by apply (list_elem_of_fmap_2 fst d (k, v)).
Qed.

Lemma dict_set_NoDup d k v : NoDup (dict_keys d) → NoDup (dict_keys (dict_set d k v)).
Proof.
  intros Hd. rewrite dict_keys_set. destruct (dict_mem d k) eqn:Hk; [done|].
  apply NoDup_app. split; [done|]. split; [|apply NoDup_singleton].
  intros x Hx ->%list_elem_of_singleton. unfold dict_mem in Hk.
  destruct (dict_get d k) eqn:Hget; [done|]. by apply dict_get_None in Hget.
Qed.

(** [d.update(other)]: the entries of [other] win. *)
Lemma dict_get_update d other k :
  NoDup (dict_keys other) →
  dict_get (dict_update d other) k
  = match dict_get other k with Some v => Some v | None => dict_get d k end.
Proof.
  unfold dict_update, dict_keys. revert d.
  induction other as [|[j x] other IH]; intros d; simpl; [done|].
  intros [Hj Hother]%NoDup_cons. rewrite IH by done.
  rewrite dict_get_set, eqb_eq_dec. simpl.
  destruct (dict_get other k) as [v|] eqn:Hk.
  - case_bool_decide; [|done]. subst.
    apply dict_get_Some_elem in Hk. destruct Hj.
    by apply (list_elem_of_fmap_2 fst other (k, v)).
  - by case_bool_decide; case_decide.
Qed.

Lemma dict_update_NoDup d other :
  NoDup (dict_keys d) → NoDup (dict_keys (dict_update d other)).
Proof.
  unfold dict_update. revert d. induction other as [|[j x] other IH]; intros d Hd; [done|].
  simpl. apply IH. by apply dict_set_NoDup.
Qed.

Lemma dict_get_del d k k' :
  NoDup (dict_keys d) →
  dict_get (dict_del d k) k' = if decide (k = k') then None else dict_get d k'.
Proof.
  unfold dict_keys. induction d as [|[j x] d IH]; simpl; [by case_decide|].
  intros [Hj Hd]%NoDup_cons. rewrite (eqb_eq_dec j k). case_bool_decide as Hjk; simpl.
  - subst. rewrite (eqb_eq_dec k k'). case_bool_decide; case_decide; try done.
    subst. by apply dict_get_None.
  - rewrite IH by done. rewrite (eqb_eq_dec j k'). case_bool_decide; [|done].
    subst. by rewrite decide_False.
Qed.

End dict.

End DictFacts.

(** ** Dictionary utilities and the dotted path *)
Module UtilsMoreFacts.
Import Utils DictFacts.

(** X9: after [inner_merge(to_update, key, mapping)] the item under [key]
    holds every entry of [mapping] and, beside them, the entries it held
    before; the items under the other keys are as they were. *)
Theorem inner_merge_lookup {A} (to_update : dict (dict A)) key (mapping : dict A) k j :
  NoDup (dict_keys mapping) →
  dict_get (inner_merge to_update key mapping) k ≫= (λ item, dict_get item j)
  = if decide (key = k)
    then match dict_get mapping j with
         | Some v => Some v
         | None => dict_get to_update key ≫= (λ item, dict_get item j)
         end
    else dict_get to_update k ≫= (λ item, dict_get item j).
Proof.
  intros Hmapping. unfold inner_merge.
  destruct (dict_get to_update key) as [item|] eqn:Hitem;
    rewrite dict_get_set; case_decide; try done; simpl.
  - by rewrite dict_get_update.
  - by destruct (dict_get mapping j).
Qed.

(** X10: [intersect_update(a, b)] has the keys of [a], in the order of [a],
    and no other; each holds the value of [b] where [b] has the key and the
    value of [a] where it has not. *)
Theorem intersect_update_lookup (a b : dict value) k :
  dict_keys (DebugPlatform.intersect_update a b) = dict_keys a ∧
  dict_get (DebugPlatform.intersect_update a b) k
  = (λ v, default v (dict_get b k)) <$> dict_get a k.
Proof.
  unfold DebugPlatform.intersect_update, dict_keys. split.
  - rewrite <- list_fmap_compose. by apply list_fmap_ext.
  - induction a as [|[j x] a IH]; simpl; [done|].
    rewrite eqb_eq_dec. case_bool_decide; [by subst|done].
Qed.

Lemma prefix_single c s : String.prefix (String c "") s
  = match s with String a _ => bool_decide (c = a) | _ => false end.
Proof.
  destruct s as [|a s]; simpl; [done|].
  destruct (ascii_dec c a).
  - rewrite bool_decide_eq_true_2 by done. by destruct s.
  - by rewrite bool_decide_eq_false_2.
Qed.

Lemma string_app_assoc (a b c : string) : (a ++ b) ++ c = a ++ (b ++ c).
Proof.
  induction a as [|x a IH]; [done|].
  change (String x ((a ++ b) ++ c) = String x (a ++ b ++ c)). by rewrite IH.
Qed.

Lemma string_app_nil_r (a : string) : a ++ "" = a.
Proof.
  induction a as [|x a IH]; [done|].
  change (String x (a ++ "") = String x a). by rewrite IH.
Qed.

(** The characters of [s] up to the first [c] go to the piece being read. *)
Lemma split_from_segment c k rest cur :
  contains (String c "") k = false →
  split_from (String c "") (k ++ String c rest) 0 cur
  = (cur ++ k) :: split_from (String c "") rest 0 "".
Proof.
  revert cur. induction k as [|a k IH]; intros cur Hk.
  - change ("" ++ String c rest) with (String c rest).
    cbn [split_from]. rewrite prefix_single, bool_decide_eq_true_2 by done.
    by rewrite string_app_nil_r.
  - cbn [contains] in Hk. apply orb_false_elim in Hk as [Ha Hk].
    rewrite prefix_single in Ha.
    change (String a k ++ String c rest) with (String a (k ++ String c rest)).
    cbn [split_from]. rewrite prefix_single, Ha.
    rewrite IH by done. by rewrite string_app_assoc.
Qed.

Lemma split_from_last c k cur :
  contains (String c "") k = false →
  split_from (String c "") k 0 cur = [cur ++ k].
Proof.
  revert cur. induction k as [|a k IH]; intros cur Hk.
  - simpl. by rewrite string_app_nil_r.
  - cbn [contains] in Hk. apply orb_false_elim in Hk as [Ha Hk].
    rewrite prefix_single in Ha.
    cbn [split_from]. rewrite prefix_single, Ha.
    rewrite IH by done. by rewrite string_app_assoc.
Qed.

Lemma split_join c ks :
  ks ≠ [] → Forall (λ k, contains (String c "") k = false) ks →
  split (join (String c "") ks) (String c "") = Ok ks.
Proof.
  intros Hks Hall. unfold split. f_equal.
  induction Hall as [|k ks Hk Hall IH]; [done|].
  destruct ks as [|k' ks].
  - simpl. by rewrite split_from_last.
  - change (join (String c "") (k :: k' :: ks))
      with (k ++ String c (join (String c "") (k' :: ks))).
    rewrite split_from_segment by done. simpl "++". f_equal. by apply IH.
Qed.

Lemma split_from_nonempty sep s skip cur : split_from sep s skip cur ≠ [].
Proof.
  revert skip cur. induction s as [|a s IH]; intros skip cur; cbn [split_from]; [done|].
  destruct skip; [|apply IH]. destruct (String.prefix sep (String a s)); [done|apply IH].
Qed.

Lemma _get_nested_util_no_IndexError route mapping e :
  route ≠ [] → _get_nested_util route mapping = Raise e → exn_cls e = TypeError.
Proof.
  revert mapping. induction route as [|key route IH]; intros mapping Hroute; [done|].
  destruct mapping as [| | | |s|l|d]; simpl; try by intros [= <-].
  - destruct (contains key s); by intros [= <-].
  - destruct (list_has_str key l); by intros [= <-].
  - destruct (dict_get d key) as [item|]; [|done].
    destruct route as [|key' route]; [done|]. by apply IH.
Qed.

(** X11: [get_nested] raises nothing but [TypeError]: the route that
    [split] makes is never empty, so the [pop] of [_get_nested_util] finds a
    key, and a key that is missing gives [None]. *)
Theorem get_nested_raises_only_TypeError keys mapping e :
  get_nested keys mapping = Raise e → exn_cls e = TypeError.
Proof.
  unfold get_nested, get_nested_with. simpl.
  apply _get_nested_util_no_IndexError, split_from_nonempty.
Qed.

(** X12: a path made of keys that hold no dot, joined by dots, is walked
    key by key. *)
Theorem get_nested_join ks mapping :
  ks ≠ [] → Forall (λ k, contains "." k = false) ks →
  get_nested (join "." ks) mapping = _get_nested_util ks mapping.
Proof.
  intros Hks Hall. unfold get_nested, get_nested_with.
  by rewrite (split_join "."%char ks).
Qed.

Lemma inner_merge_lookup_witness :
  dict_get (inner_merge [("get", [("components", VNone)])] "get"
              [("routines", VBool true)]) "get"
    ≫= (λ item, dict_get item "components")
  = Some VNone.
Proof.
  apply (inner_merge_lookup [("get", [("components", VNone)])] "get"
           [("routines", VBool true)] "get" "components").
  apply NoDup_singleton.
Defined.

Lemma get_nested_raises_only_TypeError_witness :
  get_nested "servo.is_active.x" servo_observations
    = raise TypeError "argument of type 'bool' is not iterable" ∧
  exn_cls (Exn TypeError "TypeError" "argument of type 'bool' is not iterable")
    = TypeError.
Proof.
  split; [reflexivity|].
  apply (get_nested_raises_only_TypeError "servo.is_active.x" servo_observations).
  reflexivity.
Defined.

Lemma get_nested_join_witness :
  get_nested "servo.angle" servo_observations
  = _get_nested_util ["servo"; "angle"] servo_observations.
Proof.
  apply (get_nested_join ["servo"; "angle"] servo_observations); [done|].
  repeat constructor.
Defined.

End UtilsMoreFacts.

(** ** Gate network: termination, failing conditions, joins *)
Module GateNetworkMoreFacts.
Import Graph Utils GateNetwork GateNetworkFacts GateNetworkMore DictFacts.

Section more.
Context `{SetOrder}.

(** *** Termination *)

Lemma resolve_loop_counts fuel st net r net' :
  resolve_loop fuel st net = (Ok (Some r), net') →
  (epoch_count net < epoch_count net')%Z.
Proof.
  revert st net. induction fuel as [|fuel IH]; intros st net; [done|].
  rewrite resolve_loop_S.
  destruct (epoch st net) as [[st1|e] net1] eqn:Hepoch; [|done].
  apply epoch_framed in Hepoch as [_ Hcount]. specialize (Hcount st1 eq_refl).
  destruct (finished net1 st1).
  - intros [= <- <-]. lia.
  - intros ?%IH. lia.
Qed.

(** X13: with a ceiling of [n] epochs, [run] returns or raises within [n]
    epochs, whatever the network. *)
Theorem run_returns_within_ceiling net n tag feed out net' :
  _max_epochs net = Some n → (1 ≤ n)%Z →
  run (Z.to_nat n) tag feed net = (out, net') →
  out ≠ Ok None ∧ (∀ r, out = Ok (Some r) → (1 ≤ epoch_count net' ≤ n)%Z).
Proof.
  intros Hmax Hn. unfold run. unfold mbind at 1, M_bind at 1.
  destruct (warn_isolated net) as [[[]|e] net1] eqn:Hwarn;
    apply warn_isolated_framed in Hwarn as [? ((_ & _ & Hm1) & _)]; [|done].
  unfold _resolve_all. unfold mbind at 1, M_bind at 1.
  destruct (run_gate tag feed net1) as [[r|e] net2] eqn:Hrun;
    [|intros [= <- <-]; done].
  apply run_gate_framed in Hrun as ((_ & _ & Hm2) & _).
  unfold mbind at 1, M_bind at 1, modify at 1.
  intros Hloop. pose proof Hloop as Hloop'.
  apply (resolve_loop_ceiling _ _ _ n) in Hloop as [Hout Hle];
    [|simpl; congruence|simpl; lia|simpl; lia].
  split; [done|]. intros r' ->. split; [|by eapply Hle].
  apply resolve_loop_counts in Hloop'. simpl in Hloop'. lia.
Qed.

(** *** Conditions that fail *)

Lemma prime_children_dead net copy tag r st (l : list string) :
  (∀ child, child ∈ l →
     ∃ cond, _conditional_edges net !! (tag, child) = Some cond ∧ dead cond r) →
  for_each (prime_child net copy tag r) l st = Ok st.
Proof.
  induction l as [|child l IH]; intros Hdead; [done|].
  cbn [for_each]. destruct (Hdead child) as (cond & Hcond & Hd); [set_solver|].
  assert (Hchild : prime_child net copy tag r st child = Ok st).
  { unfold prime_child. rewrite Hcond. destruct r; try done.
    destruct Hd as (v & Hv & Hev). rewrite Hv. simpl. by rewrite Hev. }
  rewrite Hchild. simpl. apply IH. intros ??. apply Hdead. set_solver.
Qed.

Lemma iter_set_elem (s : gset string) x : x ∈ iter_set s ↔ x ∈ s.
Proof. by rewrite iter_set_perm, elem_of_elements. Qed.

Lemma epoch_dead net tag r gate uns res tbe :
  gates net !! tag = Some gate → children gate ≠ ∅ →
  (∀ child, child ∈ children gate →
     ∃ cond, _conditional_edges net !! (tag, child) = Some cond ∧ dead cond r) →
  epoch {| current_generation := [(tag, r)]; unsatisfied := uns;
           resolved := res; to_be_evaluated := tbe |} net
  = (Ok {| current_generation := [(tag, r)]; unsatisfied := uns;
           resolved := res; to_be_evaluated := [] |},
     with_epoch_count (epoch_count net + 1) net).
Proof.
  intros Hgate Hchildren Hdead.
  erewrite epoch_step.
  2:{ cbn [for_each current_generation unsatisfied resolved]. unfold prime_gate.
      rewrite Hgate. rewrite decide_False by done.
      rewrite prime_children_dead; [reflexivity|].
      intros child ?%iter_set_elem. by apply Hdead. }
  2:{ reflexivity. }
  reflexivity.
Qed.

Lemma spin_no_ceiling fuel net tag r gate uns res tbe :
  gates net !! tag = Some gate → children gate ≠ ∅ →
  (∀ child, child ∈ children gate →
     ∃ cond, _conditional_edges net !! (tag, child) = Some cond ∧ dead cond r) →
  _max_epochs net = None →
  ∃ net', resolve_loop fuel {| current_generation := [(tag, r)]; unsatisfied := uns;
                               resolved := res; to_be_evaluated := tbe |} net
          = (Ok None, net') ∧ invoked net' = invoked net.
Proof.
  revert net tbe. induction fuel as [|fuel IH]; intros net tbe Hgate Hchildren Hdead Hmax.
  - by exists net.
  - rewrite resolve_loop_S. erewrite epoch_dead by done.
    rewrite finished_no_ceiling by done.
    destruct (IH (with_epoch_count (epoch_count net + 1) net) []) as (net' & -> & Hinv);
      try done.
    by exists net'.
Qed.

Lemma spin_to_ceiling fuel net n tag r gate uns res tbe :
  gates net !! tag = Some gate → children gate ≠ ∅ →
  (∀ child, child ∈ children gate →
     ∃ cond, _conditional_edges net !! (tag, child) = Some cond ∧ dead cond r) →
  _max_epochs net = Some n → (epoch_count net < n)%Z →
  (Z.to_nat (n - epoch_count net) ≤ fuel)%nat →
  ∃ net', resolve_loop fuel {| current_generation := [(tag, r)]; unsatisfied := uns;
                               resolved := res; to_be_evaluated := tbe |} net
          = (Ok (Some res), net') ∧ invoked net' = invoked net ∧ epoch_count net' = n.
Proof.
  revert net tbe.
  induction fuel as [|fuel IH]; intros net tbe Hgate Hchildren Hdead Hmax Hlt Hfuel; [lia|].
  rewrite resolve_loop_S. erewrite epoch_dead by done.
  destruct (decide (epoch_count net + 1 = n)%Z) as [Heq|Hne].
  - assert (Hfin : finished (with_epoch_count (epoch_count net + 1) net)
             {| current_generation := [(tag, r)]; unsatisfied := uns;
                resolved := res; to_be_evaluated := [] |} = true).
    { apply finished_spec. right. simpl. congruence. }
    rewrite Hfin. eexists. split; [reflexivity|]. done.
  - assert (Hfin : finished (with_epoch_count (epoch_count net + 1) net)
             {| current_generation := [(tag, r)]; unsatisfied := uns;
                resolved := res; to_be_evaluated := [] |} = false).
    { apply not_true_is_false. rewrite finished_spec. simpl. intros [?|?]; [done|].
      congruence. }
    rewrite Hfin.
    destruct (IH (with_epoch_count (epoch_count net + 1) net) []) as (net' & -> & ? & ?);
      try done; simpl; try lia.
    by exists net'.
Qed.

Lemma run_start fuel tag feed net gate r :
  gates net !! tag = Some gate → _procedure gate feed = Ok r →
  ∃ net1, framed net net1 ∧ invoked net1 = invoked net ∧
    run fuel tag feed net
    = resolve_loop fuel (initial_generation tag r)
        (with_epoch_count 0 (log_invoked tag net1)).
Proof.
  intros Hgate Hr. unfold run. unfold mbind at 1, M_bind at 1.
  destruct (warn_isolated net) as [[[]|e] net1] eqn:Hwarn.
  2:{ by apply warn_isolated_framed in Hwarn as [? _]. }
  assert (Hinv : invoked net1 = invoked net).
  { revert Hwarn. unfold warn_isolated, mbind, M_bind, get. simpl.
    destruct (_ && _); by intros [= <-]. }
  apply warn_isolated_framed in Hwarn as [_ Hframed].
  exists net1. split; [done|]. split; [done|].
  destruct Hframed as ((Hg & _ & _) & _).
  erewrite _resolve_all_start; [reflexivity|].
  rewrite (run_gate_lookup _ _ _ gate) by congruence. by rewrite Hr.
Qed.

(** X14: when every edge out of the starting gate is a conditional edge
    whose condition fails on its result, nothing is primed and the gate
    stays in the current generation: without a ceiling [run] does not
    return, with a ceiling of [n] it returns the empty mapping after [n]
    epochs.  No gate but the first is invoked. *)
Theorem run_spins_on_dead_conditions net tag feed gate r :
  gates net !! tag = Some gate → _procedure gate feed = Ok r →
  children gate ≠ ∅ →
  (∀ child, child ∈ children gate →
     ∃ cond, _conditional_edges net !! (tag, child) = Some cond ∧ dead cond r) →
  match _max_epochs net with
  | None =>
      ∀ fuel, ∃ net', run fuel tag feed net = (Ok None, net') ∧
                      invoked net' = (invoked net ++ [tag])%list
  | Some n =>
      (1 ≤ n)%Z →
      ∃ net', run (Z.to_nat n) tag feed net = (Ok (Some []), net') ∧
              invoked net' = (invoked net ++ [tag])%list ∧ epoch_count net' = n
  end.
Proof.
  intros Hgate Hr Hchildren Hdead.
  destruct (_max_epochs net) as [n|] eqn:Hmax.
  - intros Hn.
    destruct (run_start (Z.to_nat n) tag feed net gate r Hgate Hr)
      as (net1 & ((Hg & Hc & Hm) & _) & Hinv & ->).
    unfold initial_generation.
    destruct (spin_to_ceiling (Z.to_nat n) (with_epoch_count 0 (log_invoked tag net1))
                n tag r gate [] [] []) as (net' & -> & Hinv' & Hcount);
      simpl; try congruence; try lia.
    { intros child Hchild. rewrite Hc. by apply Hdead. }
    exists net'. split; [done|]. split; [|done]. rewrite Hinv'. simpl. by rewrite Hinv.
  - intros fuel.
    destruct (run_start fuel tag feed net gate r Hgate Hr)
      as (net1 & ((Hg & Hc & Hm) & _) & Hinv & ->).
    unfold initial_generation.
    destruct (spin_no_ceiling fuel (with_epoch_count 0 (log_invoked tag net1))
                tag r gate [] [] []) as (net' & -> & Hinv');
      simpl; try congruence.
    { intros child Hchild. rewrite Hc. by apply Hdead. }
    exists net'. split; [done|]. rewrite Hinv'. simpl. by rewrite Hinv.
Qed.

(** X15: a starting gate without successors is resolved at the end of the
    first epoch: [run] returns its result under its tag and invokes no
    other gate, whatever else the network holds. *)
Theorem run_resolves_sink_at_once net tag feed gate r fuel :
  gates net !! tag = Some gate → children gate = ∅ → _procedure gate feed = Ok r →
  ∃ net', run (S fuel) tag feed net = (Ok (Some [(tag, r)]), net') ∧
          invoked net' = (invoked net ++ [tag])%list ∧ epoch_count net' = 1%Z.
Proof.
  intros Hgate Hchildren Hr.
  destruct (run_start (S fuel) tag feed net gate r Hgate Hr)
    as (net1 & ((Hg & Hc & Hm) & _) & Hinv & ->).
  rewrite resolve_loop_S. unfold initial_generation.
  erewrite epoch_sink; [|simpl; by rewrite Hg|done].
  rewrite finished_empty by done.
  eexists. split; [reflexivity|]. simpl. by rewrite Hinv.
Qed.

(** X16: [run] from a tag that is not a gate raises [KeyError] before the
    epoch counter is reset: no gate is invoked and the counter keeps the
    value of the run before. *)
Theorem run_unknown_start net tag feed fuel :
  gates net !! tag = None →
  ∃ net', run fuel tag feed net = (raise KeyError (repr_str tag), net') ∧
          invoked net' = invoked net ∧ epoch_count net' = epoch_count net.
Proof.
  intros Hgate. unfold run. unfold mbind at 1, M_bind at 1.
  destruct (warn_isolated net) as [[[]|e] net1] eqn:Hwarn.
  2:{ by apply warn_isolated_framed in Hwarn as [? _]. }
  assert (Hinv : invoked net1 = invoked net).
  { revert Hwarn. unfold warn_isolated, mbind, M_bind, get. simpl.
    destruct (_ && _); by intros [= <-]. }
  apply warn_isolated_framed in Hwarn as [_ ((Hg & _ & _) & Hcount)].
  exists net1. split; [|done].
  unfold _resolve_all, run_gate, mbind, M_bind, get, throw. simpl.
  rewrite Hg, Hgate. reflexivity.
Qed.

Lemma epoch_prime_raises st net e :
  for_each (prime_gate net (current_generation st)) (current_generation st)
    {| current_generation := current_generation st; unsatisfied := unsatisfied st;
       resolved := resolved st; to_be_evaluated := [] |} = Raise e →
  epoch st net = (Raise e, net).
Proof.
  intros Hprime. unfold epoch, mbind, M_bind, get, lift. simpl. by rewrite Hprime.
Qed.

Lemma prime_gate_scalar net st tag r gate child :
  gates net !! tag = Some gate → children gate = {[child]} →
  _conditional_edges net !! (tag, child) = None →
  filter (λ parent_tag, (parent_tag, child) ∉ dom (_conditional_edges net))
         (get_in_neighbors (gates net) child) = {[tag]} →
  unsatisfied st = [] → is_scalar r = true →
  prime_gate net [(tag, r)] st (tag, r) = raise TypeError "object is not iterable".
Proof.
  intros Hgate Hchildren Hcond Hparents Huns Hscalar. unfold prime_gate.
  rewrite Hgate, Hchildren. rewrite decide_False by set_solver.
  rewrite iter_set_singleton. cbn [for_each]. unfold prime_child.
  rewrite Hcond, Hparents. unfold satisfy_or_defer.
  rewrite issubset_singleton, iter_set_singleton, Huns. unfold dict_mem.
  cbn. rewrite !String.eqb_refl. cbn.
  by destruct r.
Qed.

(** X17: a result that is neither [None] nor a mapping cannot be handed
    on along an unconditional edge: the update of line 205 raises
    [TypeError], and the child is not invoked. *)
Theorem run_raises_on_scalar_result net tag feed gate r child fuel :
  gates net !! tag = Some gate → _procedure gate feed = Ok r →
  is_scalar r = true →
  children gate = {[child]} →
  _conditional_edges net !! (tag, child) = None →
  filter (λ parent_tag, (parent_tag, child) ∉ dom (_conditional_edges net))
         (get_in_neighbors (gates net) child) = {[tag]} →
  ∃ net', run (S fuel) tag feed net = (raise TypeError "object is not iterable", net') ∧
          invoked net' = (invoked net ++ [tag])%list.
Proof.
  intros Hgate Hr Hscalar Hchildren Hcond Hparents.
  destruct (run_start (S fuel) tag feed net gate r Hgate Hr)
    as (net1 & ((Hg & Hc & Hm) & _) & Hinv & ->).
  rewrite resolve_loop_S. unfold initial_generation.
  erewrite epoch_prime_raises.
  2:{ cbn [for_each current_generation unsatisfied resolved].
      erewrite prime_gate_scalar; [reflexivity| | | | |done|done]; simpl.
      - rewrite Hg. exact Hgate.
      - done.
      - by rewrite Hc.
      - by rewrite Hc, Hg. }
  eexists. split; [reflexivity|]. simpl. by rewrite Hinv.
Qed.

End more.

(** *** Building and taking apart *)

(** X18: [add_conditional_edge] records the condition before it adds the
    edge: when the edge is refused, because it would join a gate to itself or
    because the source is not a gate, the call raises and the condition stays
    registered for an edge that does not exist. *)
Theorem add_conditional_edge_registers_before_failing net from_tag to_tag target path
    evaluator fallback_tag :
  from_tag = to_tag ∨ gates net !! from_tag = None →
  ∃ e net',
    add_conditional_edge from_tag to_tag target path evaluator fallback_tag net
      = (Raise e, net') ∧
    _conditional_edges net'
      = <[(from_tag, to_tag) := {| location := path; evaluator := evaluator;
                                   target := target |}]> (_conditional_edges net) ∧
    gates net' = gates net.
Proof.
  intros Hbad.
  unfold add_conditional_edge, add_condition, GateNetwork.add_edge, Graph.add_edge.
  unfold mbind, M_bind, modify, get, lift, put. simpl.
  destruct (decide (from_tag = to_tag)) as [Heq|Hne].
  - eexists _, _. split; [reflexivity|]. done.
  - destruct Hbad as [?|Hnone]; [done|]. rewrite Hnone.
    eexists _, _. split; [reflexivity|]. done.
Qed.

(** X19: [remove_edge] leaves the condition of a conditional edge where it
    is, so the edge is conditional again when [add_edge] adds it back: the
    network is the one that [add_conditional_edge] made. *)
Theorem readded_edge_is_still_conditional net from_tag to_tag target path evaluator gate :
  gates net !! from_tag = Some gate → from_tag ≠ to_tag →
  (add_conditional_edge from_tag to_tag target path evaluator None;;
   remove_edge from_tag to_tag;; add_edge from_tag to_tag) net
  = add_conditional_edge from_tag to_tag target path evaluator None net.
Proof.
  intros Hgate Hne.
  unfold add_conditional_edge, add_condition, remove_edge, add_edge,
    Graph.add_edge, Graph.remove_edge.
  unfold mbind, M_bind, modify, get, lift, put, mret, M_ret. simpl.
  rewrite decide_False by done. rewrite Hgate. simpl.
  rewrite lookup_insert_eq. simpl.
  rewrite decide_True by set_solver. simpl.
  rewrite decide_False by done. rewrite lookup_insert_eq. simpl.
  f_equal. unfold with_gates. simpl. f_equal.
  rewrite !insert_insert_eq. do 2 f_equal.
  apply set_eq. intros x. destruct (decide (x = to_tag)); set_solver.
Qed.

(** X20: [remove_conditional_edge] takes out the edge and its condition and
    leaves the fallback edge, with the negated condition, in the network. *)
Theorem remove_conditional_edge_keeps_fallback net from_tag to_tag fallback target path
    evaluator gate :
  gates net !! from_tag = Some gate →
  from_tag ≠ to_tag → from_tag ≠ fallback → to_tag ≠ fallback →
  ∃ net',
    (add_conditional_edge from_tag to_tag target path evaluator (Some fallback);;
     remove_conditional_edge from_tag to_tag) net = (Ok tt, net') ∧
    _conditional_edges net' !! (from_tag, to_tag) = None ∧
    _conditional_edges net' !! (from_tag, fallback)
      = Some {| location := path; evaluator := negated evaluator; target := target |} ∧
    children <$> gates net' !! from_tag = Some (children gate ∖ {[to_tag]} ∪ {[fallback]}).
Proof.
  intros Hgate Hne1 Hne2 Hne3.
  unfold add_conditional_edge, add_condition, remove_conditional_edge, remove_edge,
    add_edge, Graph.add_edge, Graph.remove_edge.
  unfold mbind, M_bind, modify, get, lift, put, mret, M_ret. simpl.
  rewrite decide_False by done. rewrite Hgate. simpl.
  rewrite decide_False by done. rewrite lookup_insert_eq. simpl.
  rewrite lookup_insert_eq. simpl.
  rewrite decide_True by set_solver. simpl.
  eexists. split; [reflexivity|]. simpl. split_and!.
  - by rewrite lookup_delete_eq.
  - rewrite lookup_delete_ne by congruence. by rewrite lookup_insert_eq.
  - rewrite lookup_insert_eq. simpl. f_equal.
    apply set_eq. intros x. destruct (decide (x = to_tag)); set_solver.
Qed.

(** X21: the mapping that an [InjectionHandler] returns holds every entry of
    the handler, and the entries of the feed under the other keys. *)
Theorem InjectionHandler_lookup (self : dict value) (feed : value) k :
  NoDup (dict_keys self) →
  (feed = VNone ∨ ∃ d, feed = VDict d) →
  ∃ out, InjectionHandler self feed = Ok (VDict out) ∧
    dict_get out k
    = match dict_get self k with
      | Some v => Some v
      | None => match feed with VDict d => dict_get d k | _ => None end
      end.
Proof.
  intros Hself [->|[d ->]]; simpl; eexists; (split; [reflexivity|]);
    by rewrite dict_get_update.
Qed.

(** *** The join *)

Lemma join_builds pA pB pD :
  join pA pB pD empty_network = (Ok tt, join_network pA pB pD).
Proof. vm_compute. reflexivity. Qed.

Section join.
Context `{SetOrder}.
Variables pA pB pD : value → result value.

Lemma join_isolated : get_isolated (gates (join_network pA pB pD)) = ∅.
Proof. vm_compute. reflexivity. Qed.

Lemma join_parents_B :
  filter (λ parent_tag, (parent_tag, "B") ∉ dom (_conditional_edges (join_network pA pB pD)))
         (get_in_neighbors (gates (join_network pA pB pD)) "B") = {["A"]}.
Proof. vm_compute. reflexivity. Qed.

Lemma join_parents_D :
  filter (λ parent_tag, (parent_tag, "D") ∉ dom (_conditional_edges (join_network pA pB pD)))
         (get_in_neighbors (gates (join_network pA pB pD)) "D") = {["A"; "B"]}.
Proof. vm_compute. reflexivity. Qed.

Lemma issubset_AB_A (rA : value) : issubset {["A"; "B"]} [("A", rA)] = false.
Proof. vm_compute. reflexivity. Qed.

Lemma issubset_AB_AB (rA rB : value) :
  issubset {["A"; "B"]} [("A", rA); ("B", rB)] = true.
Proof. vm_compute. reflexivity. Qed.

Lemma join_epoch_1 net rA argA rB res tbe :
  same_wiring net (join_network pA pB pD) →
  update_argument rA = Ok argA → pB (VDict (dict_update [] argA)) = Ok rB →
  epoch {| current_generation := [("A", rA)]; unsatisfied := [];
           resolved := res; to_be_evaluated := tbe |} net
  = (Ok {| current_generation := [("B", rB)]; unsatisfied := [("D", [("A", rA)])];
           resolved := res; to_be_evaluated := [("B", dict_update [] argA)] |},
     with_epoch_count (epoch_count net + 1) (log_invoked "B" net)).
Proof.
  intros (Hg & Hc & _) HargA HB.
  erewrite epoch_step.
  2:{ cbn [for_each current_generation unsatisfied resolved]. unfold prime_gate.
      rewrite Hg. cbn [join_network gates]. rewrite lookup_insert_eq. cbn [children].
      rewrite decide_False by set_solver.
      assert (HprimeB : ∀ st, unsatisfied st = [] ∨ unsatisfied st = [("D", [("A", rA)])] →
                prime_child net [("A", rA)] "A" rA st "B"
                = Ok {| current_generation := dict_del (current_generation st) "A";
                        unsatisfied := unsatisfied st; resolved := resolved st;
                        to_be_evaluated :=
                          inner_merge (to_be_evaluated st) "B" (dict_update [] argA) |}).
      { intros st Hun. unfold prime_child. rewrite Hc, Hg.
        change (_conditional_edges (join_network pA pB pD) !! ("A", "B")) with (@None condition).
        rewrite join_parents_B. erewrite satisfy_sole_parent.
        2:{ destruct Hun as [-> | ->]; cbn; reflexivity. }
        2:{ exact HargA. }
        destruct Hun as [-> | ->]; reflexivity. }
      assert (HprimeD : ∀ st, unsatisfied st = [] →
                prime_child net [("A", rA)] "A" rA st "D"
                = Ok {| current_generation := current_generation st;
                        unsatisfied := [("D", [("A", rA)])]; resolved := resolved st;
                        to_be_evaluated := to_be_evaluated st |}).
      { intros st Hun. unfold prime_child. rewrite Hc, Hg.
        change (_conditional_edges (join_network pA pB pD) !! ("A", "D")) with (@None condition).
        rewrite join_parents_D. unfold satisfy_or_defer. rewrite Hun.
        cbn [dict_get default dict_update fold_left dict_set fst snd].
        rewrite issubset_AB_A. reflexivity. }
      destruct (iter_set_pair "B" "D") as [-> | ->]; [done| |]; cbn [for_each].
      - rewrite HprimeB by (by left). cbn [mbind result_bind].
        rewrite HprimeD by done. cbn [mbind result_bind]. reflexivity.
      - rewrite HprimeD by done. cbn [mbind result_bind].
        rewrite HprimeB by (by right). cbn [mbind result_bind]. reflexivity. }
  2:{ cbn. eapply run_primed_one; [rewrite Hg; reflexivity|exact HB]. }
  cbn. reflexivity.
Qed.

Lemma satisfy_loop_two (descendants cur : dict value) p q rp rq argp argq :
  dict_get descendants p = Some rp → dict_get descendants q = Some rq →
  update_argument rp = Ok argp → update_argument rq = Ok argq →
  for_each
    (λ '(cur, super_result) parent_tag,
       arg ← update_argument (default VNone (dict_get descendants parent_tag));
       Ok (dict_del cur parent_tag, dict_update super_result arg))
    [p; q] (cur, [])
  = Ok (dict_del (dict_del cur p) q, dict_update (dict_update [] argp) argq).
Proof.
  intros Hp Hq Hargp Hargq. cbn [for_each]. rewrite Hp.
  cbn -[update_argument dict_update dict_del dict_get].
  rewrite Hargp. cbn -[update_argument dict_update dict_del dict_get]. rewrite Hq.
  cbn -[update_argument dict_update dict_del dict_get].
  rewrite Hargq. reflexivity.
Qed.

Lemma join_epoch_2 net rA rB argA argB rD res tbe :
  same_wiring net (join_network pA pB pD) →
  update_argument rA = Ok argA → update_argument rB = Ok argB →
  (∀ fed, fed = dict_update (dict_update [] argA) argB ∨
          fed = dict_update (dict_update [] argB) argA → pD (VDict fed) = Ok rD) →
  ∃ fed,
    epoch {| current_generation := [("B", rB)]; unsatisfied := [("D", [("A", rA)])];
             resolved := res; to_be_evaluated := tbe |} net
    = (Ok {| current_generation := [("D", rD)]; unsatisfied := [];
             resolved := res; to_be_evaluated := [("D", fed)] |},
       with_epoch_count (epoch_count net + 1) (log_invoked "D" net)).
Proof.
  intros (Hg & Hc & _) HargA HargB HD.
  assert (Hprime : ∃ fed,
    (fed = dict_update (dict_update [] argA) argB ∨
     fed = dict_update (dict_update [] argB) argA) ∧
    prime_gate net [("B", rB)]
      {| current_generation := [("B", rB)]; unsatisfied := [("D", [("A", rA)])];
         resolved := res; to_be_evaluated := [] |} ("B", rB)
    = Ok {| current_generation := []; unsatisfied := [];
            resolved := res; to_be_evaluated := [("D", fed)] |}).
  { unfold prime_gate. rewrite Hg. cbn [join_network gates].
    rewrite lookup_insert_ne by done. rewrite lookup_insert_eq. cbn [children].
    rewrite decide_False by set_solver. rewrite iter_set_singleton. cbn [for_each].
    unfold prime_child. rewrite Hc, Hg.
    change (_conditional_edges (join_network pA pB pD) !! ("B", "D")) with (@None condition).
    rewrite join_parents_D. unfold satisfy_or_defer.
    cbn [unsatisfied current_generation resolved to_be_evaluated].
    change (dict_update (default [] (dict_get [("D", [("A", rA)])] "D")) [("B", rB)])
      with [("A", rA); ("B", rB)].
    cbn zeta. rewrite issubset_AB_AB.
    destruct (iter_set_pair "A" "B") as [-> | ->]; [done| |].
    - erewrite (satisfy_loop_two _ _ "A" "B") by (reflexivity || eassumption).
      eexists. split; [by left|reflexivity].
    - erewrite (satisfy_loop_two _ _ "B" "A") by (reflexivity || eassumption).
      eexists. split; [by right|reflexivity]. }
  destruct Hprime as (fed & Hfed & Hprime). exists fed.
  erewrite epoch_step.
  2:{ cbn [for_each current_generation unsatisfied resolved]. rewrite Hprime. reflexivity. }
  2:{ cbn. eapply run_primed_one; [rewrite Hg; reflexivity|by apply HD]. }
  cbn. reflexivity.
Qed.

Lemma join_epoch_3 net rD res tbe :
  same_wiring net (join_network pA pB pD) →
  epoch {| current_generation := [("D", rD)]; unsatisfied := [];
           resolved := res; to_be_evaluated := tbe |} net
  = (Ok {| current_generation := []; unsatisfied := [];
           resolved := dict_set res "D" rD; to_be_evaluated := [] |},
     with_epoch_count (epoch_count net + 1) net).
Proof.
  intros (Hg & _ & _). eapply epoch_sink; rewrite ?Hg; reflexivity.
Qed.

(** X22: a gate with two unconditional parents waits for both.  In the
    network A→B, A→D, B→D, when the results of A and B are values that
    [dict.update] accepts ([None], a mapping, or an iterable of key/value
    pairs) and D returns the same result on their merge in either order, the
    first epoch runs B and puts the result of A aside for D; the second epoch
    runs D, once, on the results of A and B merged in the order in which the
    set of its parents is iterated; the third epoch resolves D. *)
Theorem join_waits_for_both_parents feed rA rB rD argA argB fuel :
  pA feed = Ok rA → update_argument rA = Ok argA →
  pB (VDict (dict_update [] argA)) = Ok rB → update_argument rB = Ok argB →
  (∀ fed, fed = dict_update (dict_update [] argA) argB ∨
          fed = dict_update (dict_update [] argB) argA → pD (VDict fed) = Ok rD) →
  (3 ≤ fuel)%nat →
  ∃ net',
    (join pA pB pD ;; run fuel "A" feed) empty_network = (Ok (Some [("D", rD)]), net') ∧
    epoch_count net' = 3%Z ∧ invoked net' = ["A"; "B"; "D"].
Proof.
  intros HA HargA HB HargB HD Hfuel.
  destruct fuel as [|[|[|fuel]]]; try lia.
  assert (HrunA : run_gate "A" feed (join_network pA pB pD)
                  = (Ok rA, log_invoked "A" (join_network pA pB pD))).
  { erewrite run_gate_lookup by reflexivity. simpl. by rewrite HA. }
  set (net0 := with_epoch_count 0 (log_invoked "A" (join_network pA pB pD))).
  assert (Hw : same_wiring net0 (join_network pA pB pD)) by done.
  pose proof (join_epoch_1 net0 rA argA rB [] [] Hw HargA HB) as H1.
  set (net1 := with_epoch_count (epoch_count net0 + 1) (log_invoked "B" net0)) in *.
  assert (Hw1 : same_wiring net1 (join_network pA pB pD)) by done.
  destruct (join_epoch_2 net1 rA rB argA argB rD [] [("B", dict_update [] argA)]
              Hw1 HargA HargB HD) as (fed & H2).
  set (net2 := with_epoch_count (epoch_count net1 + 1) (log_invoked "D" net1)) in *.
  assert (Hw2 : same_wiring net2 (join_network pA pB pD)) by done.
  pose proof (join_epoch_3 net2 rD [] [("D", fed)] Hw2) as H3.
  set (net3 := with_epoch_count (epoch_count net2 + 1) net2) in *.
  exists net3. split_and!; [|reflexivity..].
  erewrite bind_Ok by apply join_builds.
  rewrite run_no_isolated by apply join_isolated.
  erewrite _resolve_all_start by exact HrunA. fold net0.
  rewrite resolve_loop_S. unfold initial_generation. rewrite H1.
  rewrite finished_no_ceiling by done.
  rewrite resolve_loop_S, H2. rewrite finished_no_ceiling by done.
  rewrite resolve_loop_S, H3. rewrite finished_empty by done. reflexivity.
Qed.
End join.

(** *** Instances *)

Lemma run_returns_within_ceiling_witness :
  let net := with_max_epochs (Some 2%Z) ping_pong_network in
  let answer := run 2 "A" VNone net in
  answer.1 ≠ Ok None ∧
  ∀ r, answer.1 = Ok (Some r) → (1 ≤ epoch_count answer.2 ≤ 2)%Z.
Proof.
  intros net answer.
  apply (run_returns_within_ceiling net 2 "A" VNone answer.1 answer.2);
    [reflexivity|lia|apply surjective_pairing].
Defined.

Lemma gated_dead :
  ∀ child, child ∈ ({["B"]} : gset string) →
    ∃ cond,
      _conditional_edges
        (gated_network (always [("go", VBool false)]) (always []) (VBool true) "go"
           same_bool) !! ("A", child) = Some cond ∧
      dead cond (VDict [("go", VBool false)]).
Proof.
  intros child ->%elem_of_singleton. eexists. split; [reflexivity|].
  exists (VBool false). split; reflexivity.
Qed.

Lemma run_spins_on_dead_conditions_witness :
  ∃ net',
    run 7 "A" VNone
      (gated_network (always [("go", VBool false)]) (always []) (VBool true) "go"
         same_bool) = (Ok None, net') ∧
    invoked net' = ["A"].
Proof.
  exact (run_spins_on_dead_conditions
           (gated_network (always [("go", VBool false)]) (always []) (VBool true) "go"
              same_bool)
           "A" VNone {| children := {["B"]}; _procedure := always [("go", VBool false)] |}
           (VDict [("go", VBool false)]) eq_refl eq_refl
           ltac:(set_solver) gated_dead 7%nat).
Defined.

Lemma run_resolves_sink_at_once_witness :
  ∃ net',
    run 1 "A" VNone (lone_network (stamp "a")) = (Ok (Some [("A", VDict [("a", VBool true)])]), net') ∧
    invoked net' = ["A"] ∧ epoch_count net' = 1%Z.
Proof.
  exact (run_resolves_sink_at_once (lone_network (stamp "a")) "A" VNone
           (new_gate (stamp "a")) (VDict [("a", VBool true)]) 0 eq_refl eq_refl eq_refl).
Defined.

Lemma run_unknown_start_witness :
  ∃ net',
    run 3 "Z" VNone (lone_network (stamp "a")) = (raise KeyError "'Z'", net') ∧
    invoked net' = [] ∧ epoch_count net' = 0%Z.
Proof.
  exact (run_unknown_start (lone_network (stamp "a")) "Z" VNone 3 eq_refl).
Defined.

Lemma chain_parents_of_B (pA pB pC : value → result value) :
  filter (λ parent_tag, (parent_tag, "B") ∉ dom (_conditional_edges (chain_network pA pB pC)))
         (get_in_neighbors (gates (chain_network pA pB pC)) "B") = {["A"]}.
Proof. vm_compute. reflexivity. Qed.

Lemma run_raises_on_scalar_result_witness :
  ∃ net',
    run 1 "A" VNone (chain_network (λ _, Ok (VInt 1)) (stamp "b") (stamp "c"))
      = (raise TypeError "object is not iterable", net') ∧
    invoked net' = ["A"].
Proof.
  exact (run_raises_on_scalar_result
           (chain_network (λ _, Ok (VInt 1)) (stamp "b") (stamp "c")) "A" VNone
           {| children := {["B"]}; _procedure := λ _, Ok (VInt 1) |} (VInt 1) "B" 0
           eq_refl eq_refl eq_refl eq_refl eq_refl (chain_parents_of_B _ _ _)).
Defined.

Lemma add_conditional_edge_registers_before_failing_witness :
  ∃ e net',
    add_conditional_edge "A" "A" (VBool true) "go" same_bool None
      (lone_network (stamp "a")) = (Raise e, net') ∧
    _conditional_edges net'
      = <[("A", "A") := {| location := "go"; evaluator := same_bool;
                           target := VBool true |}]> ∅ ∧
    gates net' = gates (lone_network (stamp "a")).
Proof.
  apply (add_conditional_edge_registers_before_failing (lone_network (stamp "a"))
           "A" "A" (VBool true) "go" same_bool None).
  by left.
Defined.

Lemma readded_edge_is_still_conditional_witness :
  (add_conditional_edge "A" "B" (VBool true) "go" same_bool None;;
   remove_edge "A" "B";; add_edge "A" "B") (lone_network (stamp "a"))
  = add_conditional_edge "A" "B" (VBool true) "go" same_bool None
      (lone_network (stamp "a")).
Proof.
  apply (readded_edge_is_still_conditional (lone_network (stamp "a")) "A" "B"
           (VBool true) "go" same_bool (new_gate (stamp "a"))); [reflexivity|done].
Defined.

Lemma remove_conditional_edge_keeps_fallback_witness :
  ∃ net',
    (add_conditional_edge "A" "B" (VBool true) "go" same_bool (Some "C");;
     remove_conditional_edge "A" "B") (lone_network (stamp "a")) = (Ok tt, net') ∧
    _conditional_edges net' !! ("A", "B") = None ∧
    _conditional_edges net' !! ("A", "C")
      = Some {| location := "go"; evaluator := negated same_bool;
                target := VBool true |} ∧
    children <$> gates net' !! "A"
      = Some (children (new_gate (stamp "a")) ∖ {["B"]} ∪ {["C"]}).
Proof.
  apply (remove_conditional_edge_keeps_fallback (lone_network (stamp "a")) "A" "B" "C"
           (VBool true) "go" same_bool (new_gate (stamp "a"))); [reflexivity|done..].
Defined.

Lemma InjectionHandler_lookup_witness :
  ∃ out,
    InjectionHandler [("mode", VStr "auto")] (VDict [("angle", VInt 90)]) = Ok (VDict out) ∧
    dict_get out "angle" = Some (VInt 90).
Proof.
  apply (InjectionHandler_lookup [("mode", VStr "auto")] (VDict [("angle", VInt 90)])
           "angle"); [apply NoDup_singleton|right; by eexists].
Defined.

Lemma join_waits_for_both_parents_witness :
  ∃ net',
    (join (stamp "a") (stamp "b") (stamp "d") ;; run 3 "A" VNone) empty_network
      = (Ok (Some [("D", VDict [("a", VBool true); ("b", VBool true); ("d", VBool true)])]),
         net') ∧
    epoch_count net' = 3%Z ∧ invoked net' = ["A"; "B"; "D"].
Proof.
  apply (join_waits_for_both_parents (stamp "a") (stamp "b") (stamp "d") VNone
           (VDict [("a", VBool true)]) (VDict [("a", VBool true); ("b", VBool true)])
           (VDict [("a", VBool true); ("b", VBool true); ("d", VBool true)])
           [("a", VBool true)] [("a", VBool true); ("b", VBool true)] 3);
    try reflexivity; try lia.
  intros fed [-> | ->]; reflexivity.
Defined.

End GateNetworkMoreFacts.

(** ** The platform of the worker *)
Module WorkerMoreFacts.
Import Utils Connection Worker WorkerMore DictFacts.

Section platform.
Context {C : Type} `{Driver C}.
Implicit Types p : Platform (C:=C).

Lemma Platform_remove_component_present p key c c' :
  dict_get (components p) key = Some c → cleanup c = (Ok tt, c') →
  Platform_remove_component (VStr key) p
  = (Ok tt, with_components (dict_del (dict_set (components p) key c') key) p).
Proof.
  intros Hc Hclean. unfold Platform_remove_component.
  unfold mbind at 1, M_bind at 1, lift at 1. simpl.
  unfold mbind at 1, M_bind at 1, get at 1. rewrite Hc.
  unfold mbind, M_bind, on_component, modify. simpl. rewrite Hclean. reflexivity.
Qed.

Lemma Platform_remove_component_absent p key :
  dict_get (components p) key = None →
  Platform_remove_component (VStr key) p = (Ok tt, p).
Proof.
  intros Hc. unfold Platform_remove_component.
  unfold mbind at 1, M_bind at 1, lift at 1. simpl.
  unfold mbind at 1, M_bind at 1, get at 1. rewrite Hc. reflexivity.
Qed.

Lemma changed_size_same p used :
  length (components p) = used → changed_size used p = (Ok tt, p).
Proof.
  intros <-. unfold changed_size, mbind, M_bind, get. by rewrite Nat.eqb_refl.
Qed.

Lemma changed_size_other p used :
  length (components p) ≠ used →
  changed_size used p
  = (raise RuntimeError "dictionary changed size during iteration", p).
Proof.
  intros Hne. unfold changed_size, mbind, M_bind, get.
  by rewrite (proj2 (Nat.eqb_neq _ _)).
Qed.

Lemma cleanup_loop_unfold used tags p :
  cleanup_loop used tags p
  = (changed_size used;;
     match tags with
     | [] => mret tt
     | tag :: tags' => Platform_remove_component (VStr tag);; cleanup_loop used tags'
     end) p.
Proof. by destruct tags. Qed.

(** X23: [PlatformABC.cleanup] on a platform that holds components cleans
    the first one up, deletes it, and raises [RuntimeError]: the loop deletes
    from the dict that it iterates over.  The other components are left on
    the platform, not cleaned up.  On an empty platform it does nothing. *)
Theorem Platform_cleanup_stops_after_first p tag c rest c' :
  components p = (tag, c) :: rest → cleanup c = (Ok tt, c') →
  Platform_cleanup p
  = (raise RuntimeError "dictionary changed size during iteration",
     with_components rest p).
Proof.
  intros Hp Hclean.
  assert (Hstart : Platform_cleanup p
            = cleanup_loop (length (components p)) (dict_keys (components p)) p)
    by reflexivity.
  rewrite Hstart, Hp. clear Hstart.
  rewrite cleanup_loop_unfold. unfold mbind at 1, M_bind at 1.
  rewrite changed_size_same by by rewrite Hp.
  cbn [dict_keys fmap list_fmap fst]. unfold mbind at 1, M_bind at 1.
  rewrite (Platform_remove_component_present p tag c c');
    [|rewrite Hp; simpl; by rewrite String.eqb_refl|done].
  rewrite Hp. cbn [dict_set dict_del]. rewrite String.eqb_refl. cbn [dict_del].
  rewrite String.eqb_refl.
  rewrite cleanup_loop_unfold. unfold mbind at 1, M_bind at 1.
  rewrite changed_size_other; [reflexivity|]. simpl. lia.
Qed.

Lemma Platform_cleanup_empty p :
  components p = [] → Platform_cleanup p = (Ok tt, p).
Proof.
  intros Hp.
  assert (Hstart : Platform_cleanup p
            = cleanup_loop (length (components p)) (dict_keys (components p)) p)
    by reflexivity.
  rewrite Hstart, Hp. rewrite cleanup_loop_unfold. unfold mbind, M_bind.
  rewrite changed_size_same by by rewrite Hp. reflexivity.
Qed.

(** X24: [PlatformABC.add_component] removes the component that is stored
    under the key before it checks anything: when the call raises after the
    clean-up of the old component, for an unsupported type, a missing setup
    argument or a constructor that fails, the old component is gone and
    nothing is stored under the key. *)
Theorem add_component_failure_loses_component p key type kwargs c c' e p' :
  NoDup (dict_keys (components p)) →
  dict_get (components p) key = Some c → cleanup c = (Ok tt, c') →
  Platform_add_component (VStr key) type kwargs p = (Raise e, p') →
  dict_get (components p') key = None ∧
  ∀ k, k ≠ key → dict_get (components p') k = dict_get (components p) k.
Proof.
  intros Hnd Hc Hclean. unfold Platform_add_component.
  unfold mbind at 1, M_bind at 1.
  rewrite (Platform_remove_component_present p key c c') by done.
  set (p1 := with_components (dict_del (dict_set (components p) key c') key) p).
  assert (Hp1 : dict_get (components p1) key = None ∧
                ∀ k, k ≠ key → dict_get (components p1) k = dict_get (components p) k).
  { unfold p1. simpl. split.
    - rewrite dict_get_del by by apply dict_set_NoDup. by rewrite decide_True.
    - intros k Hk. rewrite dict_get_del by by apply dict_set_NoDup.
      rewrite decide_False by done. rewrite dict_get_set. by rewrite decide_False. }
  clearbody p1.
  unfold mbind at 1, M_bind at 1, lift at 1.
  destruct (lookup_key type) as [t|e1]; [|by intros [= <- <-]].
  unfold mbind at 1, M_bind at 1, get at 1.
  destruct (t ≫= dict_get (component_types p1)) as [cls|].
  - destruct (forallb _ _).
    + unfold mbind at 1, M_bind at 1, lift at 1.
      destruct (construct cls kwargs); [|by intros [= <- <-]].
      unfold mbind at 1, M_bind at 1, lift at 1. simpl. done.
    + unfold mbind at 1, M_bind at 1, lift at 1.
      destruct (py_str (VStr key)); by intros [= <- <-].
  - unfold mbind at 1, M_bind at 1, lift at 1.
    destruct (py_str type); by intros [= <- <-].
Qed.

End platform.

Import DebugPlatform.

Lemma Platform_cleanup_stops_after_first_witness :
  let led := DebugOutputPin (VInt 3) false in
  let pwm := DebugPWMPin (VInt 4) (VInt 50) (VFloat 0) in
  let p := {| component_types := debug_component_types;
              components := [("led", led); ("pwm", pwm)] |} in
  Platform_cleanup p
  = (raise RuntimeError "dictionary changed size during iteration",
     {| component_types := debug_component_types; components := [("pwm", pwm)] |}).
Proof.
  intros led pwm p.
  exact (Platform_cleanup_stops_after_first p "led" led [("pwm", pwm)] led
           eq_refl eq_refl).
Defined.

Lemma add_component_failure_loses_component_witness :
  let led := DebugOutputPin (VInt 3) false in
  let p := {| component_types := debug_component_types;
              components := [("led", led)] |} in
  let outcome := Platform_add_component (VStr "led") (VStr "gadget") [] p in
  outcome.1
    = raise RuntimeError
        "Component type 'gadget' is not supported. Try: output, pwm, servo" ∧
  dict_get (components outcome.2) "led" = None.
Proof.
  intros led p outcome. split; [reflexivity|].
  refine (proj1 (add_component_failure_loses_component p "led" (VStr "gadget") [] led led
                   (Exn RuntimeError "RuntimeError"
                      "Component type 'gadget' is not supported. Try: output, pwm, servo")
                   outcome.2 _ eq_refl eq_refl eq_refl)).
  apply NoDup_singleton.
Defined.

End WorkerMoreFacts.

(** ** What the controller reads from a reply *)
Module ObserverFacts.
Import Utils Connection Worker Observer DictFacts WorkerFacts.

Section observer.
Context {C : Type} `{Driver C} `{Codec}.
Implicit Types w : Worker (C:=C).

Lemma dict_get_fmap {A B} (f : A → B) (d : dict A) k :
  dict_get ((λ entry, (entry.1, f entry.2)) <$> d) k = f <$> dict_get d k.
Proof.
  induction d as [|[j x] d IH]; simpl; [done|]. by destruct (String.eqb j k).
Qed.

(** X25: a reply that reports an error has no feedback, and
    [Response.observations] then subscripts [None]: the [TypeError] is not the
    [KeyError] that the property catches.  [ObserverMiddlewareABC.handle]
    reads the property first, so it raises on every error reply and handles
    no observation. *)
Theorem observer_raises_on_error_reply {S} (handle_observation : string → string → value → M S unit)
    observables w received t1 t2 e w' env payload (s : S) :
  Worker.handle received w = (Raise e, w') → caught e = true →
  respond received t1 t2 w = (Ok env, w') →
  loads payload = Ok (VDict env) →
  ∃ r, decode_response payload = Ok r ∧ error_occurred r = true ∧
    observations r = raise TypeError "'NoneType' object is not subscriptable" ∧
    Observer.handle handle_observation observables r s
    = (raise TypeError "'NoneType' object is not subscriptable", s).
Proof.
  intros Hhandle Hcaught Hrespond Hloads.
  unfold respond in Hrespond. rewrite Hhandle, Hcaught in Hrespond.
  injection Hrespond as <-.
  eexists. split.
  - unfold decode_response, _decode_transaction. rewrite Hloads. reflexivity.
  - split; [reflexivity|]. split; [reflexivity|]. reflexivity.
Qed.

(** X26: for a request that the worker processes without error,
    [Response.observations] on the decoded reply is the mapping that the
    [get observations] item produced, and [None] when the request had no
    such item; it does not raise. *)
Theorem observations_of_reply w received sent_time items response w' t1 t2 payload :
  decode_request received = Ok (Request sent_time (VList items)) →
  _process_request_items items w = (Ok response, w') →
  loads payload
    = Ok (VDict [("received_time", VFloat t1); ("error", VNone);
                 ("feedback", feedback_value response); ("sent_time", VFloat t2)]) →
  respond received t1 t2 w
    = (Ok [("received_time", VFloat t1); ("error", VNone);
           ("feedback", feedback_value response); ("sent_time", VFloat t2)], w') ∧
  ∃ r, decode_response payload = Ok r ∧
    observations r
    = Ok (default VNone (dict_get response "get" ≫= λ g, dict_get g "observations")).
Proof.
  intros Hdecode Hitems Hloads.
  assert (Hhandle : Worker.handle received w = (Ok (feedback_value response), w')).
  { erewrite handle_request by done. unfold mbind, M_bind. by rewrite Hitems. }
  split.
  - unfold respond. rewrite Hhandle. reflexivity.
  - exists (Response (VFloat t1) (VFloat t2) (feedback_value response) VNone). split.
    + unfold decode_response, _decode_transaction. rewrite Hloads. reflexivity.
    + unfold observations.
      change (field (Response (VFloat t1) (VFloat t2) (feedback_value response) VNone)
                "feedback") with (feedback_value response).
      unfold feedback_value. cbn [getitem]. rewrite dict_get_fmap.
      assert (Hgot : ∀ got : option (dict value),
                Ok (VDict <$> got)
                  ≫= (λ got : option value,
                        match got with
                        | Some g => obs ← getitem g "observations"; Ok (default VNone obs)
                        | None => Ok VNone
                        end)
                = Ok (default VNone (got ≫= λ g, dict_get g "observations")))
        by (by intros [g|]).
      apply Hgot.
Qed.

End observer.

Import Msgpack DebugPlatform.

Lemma observer_raises_on_error_reply_witness :
  let env := [("received_time", VFloat 0); ("error",
               VStr "RuntimeError: Received method 'frobnicate' is invalid. Try: add, remove, execute, get");
              ("sent_time", VFloat 1)] in
  let payload := payload_of env in
  ∃ r, decode_response payload = Ok r ∧ error_occurred r = true ∧
    observations r = raise TypeError "'NoneType' object is not subscriptable" ∧
    Observer.handle (λ _ _ _, mret tt) [] r tt
    = (raise TypeError "'NoneType' object is not subscriptable", tt).
Proof.
  intros env payload.
  apply (observer_raises_on_error_reply (λ _ _ _, mret tt) [] new_worker unknown_method
           0 1
           (Exn RuntimeError "RuntimeError"
              "Received method 'frobnicate' is invalid. Try: add, remove, execute, get")
           new_worker env payload tt).
  - vm_compute. reflexivity.
  - reflexivity.
  - vm_compute. reflexivity.
  - vm_compute. reflexivity.
Defined.

Lemma observations_of_reply_witness :
  let reading := VDict [("led", VDict [("state", VBool true)])] in
  let env := [("received_time", VFloat 0); ("error", VNone);
              ("feedback", feedback_value [("get", [("observations", reading)])]);
              ("sent_time", VFloat 1)] in
  ∃ r, decode_response (payload_of env) = Ok r ∧ observations r = Ok reading.
Proof.
  intros reading env.
  refine (proj2 (observations_of_reply debug_worker toggle_and_read
                   (VFloat 0x3ff8000000000000)
                   [item "execute" "component"
                      [("key", VStr "led"); ("operation", VStr "toggle")];
                    item "get" "observations" [("selected", VList [VStr "led"])]]
                   [("get", [("observations", reading)])]
                   (_process_request_items
                      [item "execute" "component"
                         [("key", VStr "led"); ("operation", VStr "toggle")];
                       item "get" "observations" [("selected", VList [VStr "led"])]]
                      debug_worker).2
                   0 1 (payload_of env) _ _ _)).
  - vm_compute. reflexivity.
  - vm_compute. reflexivity.
  - vm_compute. reflexivity.
Defined.

End ObserverFacts.

(** ** The wire format: prefixes *)
Module MsgpackPrefixFacts.
Import Utils Connection Msgpack MsgpackFacts.
Local Open Scope Z_scope.
Local Open Scope list_scope.

Lemma take_bytes_extend n bs hd rest x :
  take_bytes n bs = Ok (hd, rest) → take_bytes n (bs ++ x) = Ok (hd, rest ++ x).
Proof.
  unfold take_bytes. destruct (Nat.ltb_spec (length bs) n) as [|Hle]; [done|].
  intros [= <- <-]. rewrite length_app.
  destruct (Nat.ltb_spec (length bs + length x) n); [lia|].
  by rewrite take_app_le, drop_app_le by done.
Qed.

Lemma unpack_uint_extend w bs n rest x :
  unpack_uint w bs = Ok (n, rest) → unpack_uint w (bs ++ x) = Ok (n, rest ++ x).
Proof.
  unfold unpack_uint. destruct (take_bytes w bs) as [[hd r]|] eqn:Htake; [|done].
  simpl. intros [= <- <-]. by rewrite (take_bytes_extend _ _ _ _ x Htake).
Qed.

Lemma unpack_sint_extend w bs n rest x :
  unpack_sint w bs = Ok (n, rest) → unpack_sint w (bs ++ x) = Ok (n, rest ++ x).
Proof.
  unfold unpack_sint. destruct (unpack_uint w bs) as [[u r]|] eqn:Hu; [|done].
  simpl. intros [= <- <-]. by rewrite (unpack_uint_extend _ _ _ _ x Hu).
Qed.

Lemma unpack_str_extend n bs v rest x :
  unpack_str n bs = Ok (v, rest) → unpack_str n (bs ++ x) = Ok (v, rest ++ x).
Proof.
  unfold unpack_str. destruct (take_bytes n bs) as [[hd r]|] eqn:Htake; [|done].
  simpl. intros [= <- <-]. by rewrite (take_bytes_extend _ _ _ _ x Htake).
Qed.

Section extend.
Context {A : Type} (one one' : bytes → result (A * bytes)).
Hypothesis one_extend :
  ∀ bs y rest x, one bs = Ok (y, rest) → one' (bs ++ x) = Ok (y, rest ++ x).

Lemma unpack_seq_extend n bs ys rest x :
  unpack_seq one n bs = Ok (ys, rest) →
  unpack_seq one' n (bs ++ x) = Ok (ys, rest ++ x).
Proof.
  revert bs ys rest. induction n as [|n IH]; intros bs ys rest; simpl.
  - by intros [= <- <-].
  - destruct (one bs) as [[y r]|] eqn:Hone; [|done]. simpl.
    destruct (unpack_seq one n r) as [[ys' r']|] eqn:Hseq; [|done]. simpl.
    intros [= <- <-]. rewrite (one_extend _ _ _ x Hone). simpl.
    by rewrite (IH _ _ _ Hseq).
Qed.
End extend.

Section extend_value.
Context (one one' : bytes → result (value * bytes)).
Hypothesis one_extend :
  ∀ bs y rest x, one bs = Ok (y, rest) → one' (bs ++ x) = Ok (y, rest ++ x).

Lemma unpack_entry_extend bs kv rest x :
  unpack_entry one bs = Ok (kv, rest) →
  unpack_entry one' (bs ++ x) = Ok (kv, rest ++ x).
Proof.
  unfold unpack_entry. destruct (one bs) as [[k r]|] eqn:Hk; [|done]. simpl.
  rewrite (one_extend _ _ _ x Hk). simpl. destruct k; try done.
  destruct (one r) as [[v r']|] eqn:Hv; [|done]. simpl.
  intros [= <- <-]. by rewrite (one_extend _ _ _ x Hv).
Qed.

Lemma unpack_array_extend n bs v rest x :
  unpack_array one n bs = Ok (v, rest) →
  unpack_array one' n (bs ++ x) = Ok (v, rest ++ x).
Proof.
  unfold unpack_array. destruct (unpack_seq one n bs) as [[xs r]|] eqn:Hseq; [|done].
  simpl. intros [= <- <-].
  by rewrite (unpack_seq_extend one one' one_extend _ _ _ _ x Hseq).
Qed.

Lemma unpack_map_extend n bs v rest x :
  unpack_map one n bs = Ok (v, rest) →
  unpack_map one' n (bs ++ x) = Ok (v, rest ++ x).
Proof.
  unfold unpack_map.
  destruct (unpack_seq (unpack_entry one) n bs) as [[kvs r]|] eqn:Hseq; [|done].
  simpl. intros [= <- <-].
  by rewrite (unpack_seq_extend (unpack_entry one) (unpack_entry one')
                unpack_entry_extend _ _ _ _ x Hseq).
Qed.
End extend_value.

(** More input after the object and a higher limit on the nesting do not
    change what is read. *)
Lemma unpack_extend fuel fuel' bs v rest x :
  unpack fuel bs = Ok (v, rest) → (fuel ≤ fuel')%nat →
  unpack fuel' (bs ++ x) = Ok (v, rest ++ x).
Proof.
  revert fuel' bs v rest x.
  induction fuel as [|fuel IH]; intros fuel' bs v rest x; [done|].
  intros Hun Hfuel. destruct fuel' as [|fuel']; [lia|].
  assert (IH' : ∀ bs y rest x, unpack fuel bs = Ok (y, rest) →
                  unpack fuel' (bs ++ x) = Ok (y, rest ++ x)).
  { intros. apply IH; [done|lia]. }
  destruct bs as [|b bs]; [done|].
  change ((b :: bs) ++ x) with (b :: (bs ++ x)).
  cbn [unpack] in Hun |- *. cbv zeta in Hun |- *.
  repeat match type of Hun with
         | (if ?c then _ else _) = _ => destruct c
         end;
    first
      [ by apply (unpack_map_extend _ _ IH')
      | by apply (unpack_array_extend _ _ IH')
      | by apply unpack_str_extend
      | by injection Hun as <- <-
      | (destruct (unpack_uint _ bs) as [[n r]|] eqn:Hu; [|done];
         rewrite (unpack_uint_extend _ _ _ _ x Hu); simpl in Hun |- *;
         first [ by injection Hun as <- <-
               | by apply unpack_str_extend
               | by apply (unpack_array_extend _ _ IH')
               | by apply (unpack_map_extend _ _ IH') ])
      | (destruct (unpack_sint _ bs) as [[n r]|] eqn:Hu; [|done];
         rewrite (unpack_sint_extend _ _ _ _ x Hu); simpl in Hun |- *;
         by injection Hun as <- <-)
      | done ].
Qed.

(** No proper prefix of the bytes of an object is accepted. *)
Lemma unpackb_rejects_proper_prefix bs v p x :
  unpackb bs = Ok v → bs = p ++ x → x ≠ [] → ∃ e, unpackb p = Raise e.
Proof.
  intros Hbs -> Hx. destruct (unpackb p) as [v'|e] eqn:Hp; [|by eexists].
  exfalso. unfold unpackb in *.
  destruct (unpack (S (length p)) p) as [[v1 r1]|] eqn:Hun; [|done]. simpl in Hp.
  destruct r1; [|done].
  apply (unpack_extend _ (S (length (p ++ x))) _ _ _ x) in Hun;
    [|rewrite length_app; lia].
  rewrite Hun in Hbs. simpl in Hbs. by destruct x.
Qed.

End MsgpackPrefixFacts.

(** ** The TCP transport *)
Module TransportFacts.
Import Utils Connection Msgpack MsgpackFacts MsgpackPrefixFacts Worker Transport.
Local Open Scope list_scope.

Lemma lstrip_suffix bs : lstrip bs `suffix_of` bs.
Proof.
  induction bs as [|b bs IH]; simpl; [done|].
  destruct (is_space b); [by apply suffix_cons_r|done].
Qed.

Lemma lstrip_head bs b : head bs = Some b → is_space b = false → lstrip bs = bs.
Proof. destruct bs as [|b' bs]; [done|]. simpl. by intros [= ->] ->. Qed.

Lemma rstrip_prefix bs : rstrip bs `prefix_of` bs.
Proof.
  unfold rstrip. rewrite <- (reverse_involutive bs) at 2.
  apply suffix_prefix_reverse, lstrip_suffix.
Qed.

Lemma rstrip_shorter bs b :
  last bs = Some b → is_space b = true → (length (rstrip bs) < length bs)%nat.
Proof.
  intros Hlast Hb. unfold rstrip. rewrite length_reverse.
  rewrite <- (length_reverse bs). rewrite <- head_reverse in Hlast.
  destruct (reverse bs) as [|b' l]; [done|]. simpl in *. simplify_eq. rewrite Hb.
  pose proof (suffix_length _ _ (lstrip_suffix l)). lia.
Qed.

(** What the handler decodes is a proper prefix of what was sent. *)
Lemma strip_received_proper_prefix sent received b0 :
  head sent = Some b0 → is_space b0 = false →
  recv 1024 sent received →
  (1024 < length sent)%nat ∨ (∃ b, last sent = Some b ∧ is_space b = true) →
  ∃ x, sent = strip received ++ x ∧ x ≠ [].
Proof.
  intros Hhead Hb0 [Hprefix Hlen] Hbad. unfold strip.
  assert (Hl : lstrip received = received).
  { destruct received as [|b r]; [done|]. apply (lstrip_head _ b0); [|done].
    destruct Hprefix as [k ->]. done. }
  rewrite Hl.
  assert (Hp : rstrip received `prefix_of` sent).
  { etrans; [apply rstrip_prefix|done]. }
  destruct Hp as [x Hx]. exists x. split; [done|]. intros ->.
  rewrite app_nil_r in Hx.
  assert (Hrs : (length (rstrip received) ≤ length received)%nat)
    by apply prefix_length, rstrip_prefix.
  destruct Hbad as [Hlong|(b & Hlast & Hb)].
  - rewrite Hx in Hlong. lia.
  - assert (received = sent) as ->.
    { apply (anti_symm prefix); [done|]. rewrite Hx at 1. apply rstrip_prefix. }
    pose proof (rstrip_shorter _ _ Hlast Hb) as Hshort. rewrite <- Hx in Hshort. lia.
Qed.

Lemma request_head now items sent :
  pack (VDict (request_mapping now items)) = Ok sent →
  head sent = Some (byte_of_Z 0x82).
Proof.
  unfold request_mapping. cbn [pack]. unfold pack_len. cbn [length].
  change (Z.of_nat 2 <? 16)%Z with true. cbn [mbind result_bind].
  match goal with
  | |- (?packed ≫= _) = _ → _ => destruct packed as [body|]; [|done]
  end.
  by intros [= <-].
Qed.

Section worker.
Context {C : Type} `{Driver C}.
Implicit Types w : Worker (C:=C).

(** X27: the TCP handler strips ASCII whitespace from the bytes it received
    and reads at most 1024 of them.  A request whose encoding ends in a
    whitespace byte (the integers 9 to 13 and 32 are encoded as such a byte)
    or is longer than 1024 bytes therefore reaches the worker cut short: the
    decoding fails, no item is processed and the worker is left as it
    was. *)
Theorem tcp_handler_cuts_request w now items sent received :
  packable (VDict (request_mapping now items)) →
  encode_transaction (request_mapping now items) = Ok sent →
  recv 1024 sent received →
  (1024 < length sent)%nat ∨ (∃ b, last sent = Some b ∧ is_space b = true) →
  ∃ e, decode_request (strip received) = Raise e ∧
       Worker.handle (strip received) w = (Raise e, w).
Proof.
  intros Hpack Henc Hrecv Hbad.
  pose proof (unpackb_pack _ Hpack) as Hround.
  unfold encode_transaction in Henc. cbn [dumps msgpack_codec] in Henc.
  rewrite Henc in Hround. simpl in Hround.
  destruct (strip_received_proper_prefix sent received (byte_of_Z 0x82))
    as (x & Hsent & Hx); [by eapply request_head|done|done|done|].
  destruct (unpackb_rejects_proper_prefix _ _ _ _ Hround Hsent Hx) as [e He].
  exists e.
  assert (Hdecode : decode_request (strip received) = Raise e).
  { unfold decode_request, _decode_transaction. cbn [loads msgpack_codec].
    by rewrite He. }
  split; [done|]. unfold Worker.handle, mbind, M_bind, lift. by rewrite Hdecode.
Qed.

End worker.

Import DebugPlatform.

Lemma tcp_handler_cuts_request_witness :
  let items := [item "add" "component"
                  [("key", VStr "led"); ("type", VStr "output");
                   ("setup", VDict [("pin_id", VInt 10)])]] in
  let sent := payload_of (request_mapping 0x3ff8000000000000 items) in
  last sent = Some (byte_of_Z 10) ∧
  ∃ e, decode_request (strip sent) = Raise e ∧
       Worker.handle (strip sent) debug_worker = (Raise e, debug_worker).
Proof.
  intros items sent. split; [vm_compute; reflexivity|].
  apply (tcp_handler_cuts_request debug_worker 0x3ff8000000000000 items sent sent).
  - repeat split; try lia; try (vm_compute; lia); repeat constructor;
      try (vm_compute; lia); set_solver.
  - vm_compute. reflexivity.
  - split; [done|]. apply Nat.leb_le. vm_compute. reflexivity.
  - right. exists (byte_of_Z 10). split; vm_compute; reflexivity.
Defined.

End TransportFacts.
(** ** The requests of the controller and the handlers of the worker *)
Module ControllerFacts.
Import Utils Connection Worker Controller.

Section controller.
Context {C : Type} `{Driver C} `{Codec}.
Variable iter_names : list string → list string.

Lemma add_request_item_Ok method resource kwargs m r c out c' :
  lower_strip method = Ok m → lower_strip resource = Ok r →
  add_request_item method resource kwargs c = (out, c') →
  out = Ok tt →
  _request_items c' = (_request_items c ++ [(m, r, kwargs)])%list.
Proof.
  intros Hm Hr. unfold add_request_item, mbind, M_bind, get, lift, modify, throw.
  destruct (client_is_set c); [|by intros [= <- <-]].
  rewrite Hm, Hr. by intros [= <- <-].
Qed.

Lemma _check_platform_is_set_same c out c' :
  _check_platform_is_set c = (out, c') → c' = c.
Proof.
  unfold _check_platform_is_set, mbind, M_bind, get, throw, mret, M_ret.
  destruct (_platform_type_key c); by intros [= <- <-].
Qed.

(** The shape of the eight methods that check the platform and then store
    an item. *)
Lemma checked_item_Ok method resource kwargs m r c c' :
  lower_strip method = Ok m → lower_strip resource = Ok r →
  (_check_platform_is_set;; add_request_item method resource kwargs) c = (Ok tt, c') →
  _request_items c' = (_request_items c ++ [(m, r, kwargs)])%list.
Proof.
  intros Hm Hr. unfold mbind at 1, M_bind at 1.
  destruct (_check_platform_is_set c) as [[key|e] c1] eqn:Hcheck; [|done].
  apply _check_platform_is_set_same in Hcheck as ->.
  intros Hitem. by eapply add_request_item_Ok.
Qed.

(** X28: every item that a method of the controller stores is one that the
    worker can dispatch: its method and its resource name a handler of the
    worker's table, and its keyword arguments bind to the parameters of
    that handler. *)
Theorem controller_items_bind (c : call) ctl ctl' :
  perform iter_names c ctl = (Ok tt, ctl') →
  ∃ method resource kwargs handlers h args,
    _request_items ctl' = (_request_items ctl ++ [(method, resource, kwargs)])%list ∧
    dict_get method_handlers method = Some handlers ∧
    dict_get handlers resource = Some h ∧
    bind_arguments (handler_name h) (parameters h) kwargs = Ok args.
Proof.
  destruct c; cbn [perform]; intros Hcall.
  - unfold add_platform in Hcall. unfold mbind at 1, M_bind at 1, lift at 1 in Hcall.
    destruct (_check_resource_type _ _ _ _) as [name|]; [|done].
    unfold mbind at 1, M_bind at 1, modify at 1 in Hcall.
    eapply (add_request_item_Ok _ _ _ "add" "platform") in Hcall; [|done..].
    eexists "add", "platform", _, _, _, _. split; [exact Hcall|]. done.
  - unfold add_component in Hcall. unfold mbind at 1, M_bind at 1 in Hcall.
    destruct (_check_platform_is_set ctl) as [[key0|e] c1] eqn:Hcheck; [|done].
    apply _check_platform_is_set_same in Hcheck as ->.
    unfold mbind at 1, M_bind at 1, lift at 1 in Hcall.
    destruct (get_available_platform_components key0); [|done].
    unfold mbind at 1, M_bind at 1, lift at 1 in Hcall.
    destruct (_check_resource_type _ _ _ _); [|done].
    eapply (add_request_item_Ok _ _ _ "add" "component") in Hcall; [|done..].
    eexists "add", "component", _, _, _, _. split; [exact Hcall|]. done.
  - eapply (checked_item_Ok _ _ _ "add" "routine") in Hcall; [|done..].
    eexists "add", "routine", _, _, _, _. split; [exact Hcall|]. done.
  - eapply (add_request_item_Ok _ _ _ "remove" "platform") in Hcall; [|done..].
    eexists "remove", "platform", _, _, _, _. split; [exact Hcall|]. done.
  - eapply (checked_item_Ok _ _ _ "remove" "component") in Hcall; [|done..].
    eexists "remove", "component", _, _, _, _. split; [exact Hcall|]. done.
  - eapply (checked_item_Ok _ _ _ "remove" "routine") in Hcall; [|done..].
    eexists "remove", "routine", _, _, _, _. split; [exact Hcall|]. done.
  - eapply (checked_item_Ok _ _ _ "execute" "component") in Hcall; [|done..].
    eexists "execute", "component", _, _, _, _. split; [exact Hcall|]. done.
  - eapply (checked_item_Ok _ _ _ "get" "observations") in Hcall; [|done..].
    eexists "get", "observations", _, _, _, _. split; [exact Hcall|]. done.
  - eapply (checked_item_Ok _ _ _ "get" "components") in Hcall; [|done..].
    eexists "get", "components", _, _, _, _. split; [exact Hcall|]. done.
  - eapply (checked_item_Ok _ _ _ "get" "routines") in Hcall; [|done..].
    eexists "get", "routines", _, _, _, _. split; [exact Hcall|]. done.
Qed.

End controller.
Import DebugPlatform.

Lemma controller_items_bind_witness :
  let ctl := {| client_is_set := true; _request_items := [];
                _platform_type_key := Some "debug" |} in
  let kwargs := [("key", VStr "led"); ("type", VStr "output");
                 ("setup", VDict [("pin_id", VInt 3)])] in
  let ctl' := with_request_items [("add", "component", kwargs)] ctl in
  perform (C:=debug_component) id
    (AddComponent (VStr "led") (VStr "output") [("pin_id", VInt 3)]) ctl
  = (Ok tt, ctl') ∧
  ∃ method resource kwargs handlers h args,
    _request_items ctl' = (_request_items ctl ++ [(method, resource, kwargs)])%list ∧
    dict_get (method_handlers (C:=debug_component)) method = Some handlers ∧
    dict_get handlers resource = Some h ∧
    bind_arguments (handler_name h) (parameters h) kwargs = Ok args.
Proof.
  intros ctl kwargs ctl'.
  assert (Hrun : perform (C:=debug_component) id
                   (AddComponent (VStr "led") (VStr "output") [("pin_id", VInt 3)]) ctl
                 = (Ok tt, ctl')) by (vm_compute; reflexivity).
  split; [exact Hrun|].
  exact (controller_items_bind id _ ctl ctl' Hrun).
Defined.

End ControllerFacts.

(** ** A controller and a worker after the platform is removed *)
Module ControllerWorkerFacts.
Import Utils Connection Worker Controller ControllerFacts WorkerFacts.

Section both.
Context {C : Type} `{Driver C} `{Codec}.
Implicit Types w : Worker (C:=C).

(** X29: the controller does not forget the platform when it asks the
    worker to remove it: [remove_platform] leaves [_platform_type_key] set,
    so a later [get_components] passes the check of the controller and is
    stored.  The worker removes its platform at the first item and raises
    [TypeError] at the second; [_on_receive] does not catch it, so no reply
    is made. *)
Theorem removed_platform_is_not_tracked ctl key w received sent_time t1 t2 :
  client_is_set ctl = true → _platform_type_key ctl = Some key →
  ∃ ctl',
    (remove_platform;; get_components) ctl = (Ok tt, ctl') ∧
    _request_items ctl'
      = (_request_items ctl
         ++ [("remove", "platform", []); ("get", "components", [])])%list ∧
    _platform_type_key ctl' = Some key ∧
    (decode_request received
       = Ok (Request sent_time
               (VList [item "remove" "platform" []; item "get" "components" []])) →
     respond received t1 t2 w
       = (raise TypeError "'NoneType' object is not iterable", with_platform None w)).
Proof.
  intros Hclient Hkey. eexists. split_and!.
  - unfold remove_platform, get_components, add_request_item, _check_platform_is_set.
    unfold mbind, M_bind, get, lift, modify, throw, mret, M_ret. simpl.
    rewrite Hclient. simpl. rewrite Hkey. simpl. rewrite ?Hclient. reflexivity.
  - simpl. by rewrite <- app_assoc.
  - done.
  - intros Hdecode. unfold respond. erewrite handle_request by done.
    reflexivity.
Qed.

End both.
Import Msgpack DebugPlatform.

Lemma removed_platform_is_not_tracked_witness :
  let ctl := {| client_is_set := true; _request_items := [];
                _platform_type_key := Some "debug" |} in
  let received :=
    Msgpack.payload_of
      (request [item "remove" "platform" []; item "get" "components" []]) in
  ∃ ctl',
    (remove_platform;; get_components) ctl = (Ok tt, ctl') ∧
    _request_items ctl' = [("remove", "platform", []); ("get", "components", [])] ∧
    _platform_type_key ctl' = Some "debug" ∧
    respond received 1 2 debug_worker
      = (raise TypeError "'NoneType' object is not iterable",
         with_platform None debug_worker).
Proof.
  intros ctl received.
  destruct (removed_platform_is_not_tracked ctl "debug" debug_worker received
              (VFloat 0x3ff8000000000000) 1 2 eq_refl eq_refl)
    as (ctl' & Hrun & Hitems & Hkey & Hrespond).
  exists ctl'. split_and!; [exact Hrun|exact Hitems|exact Hkey|].
  apply Hrespond. vm_compute. reflexivity.
Defined.

End ControllerWorkerFacts.

(** ** Observations of selected components *)
Module ReadingsFacts.
Import Utils Connection Worker Readings DictFacts.

Lemma dict_set_same {A} (d : dict A) k v : dict_get d k = Some v → dict_set d k v = d.
Proof.
  induction d as [|[j x] d IH]; simpl; [done|].
  destruct (String.eqb j k) eqn:Hjk; [by intros [= ->]|].
  intros Hd. by rewrite IH.
Qed.

Lemma dict_set_fresh {A} (d : dict A) k v :
  dict_get d k = None → dict_set d k v = (d ++ [(k, v)])%list.
Proof.
  induction d as [|[j x] d IH]; simpl; [done|].
  destruct (String.eqb j k) eqn:Hjk; [done|]. intros Hd. by rewrite IH.
Qed.

Section readings.
Context {C : Type} `{Driver C} `{Codec}.
Implicit Types (w : Worker (C:=C)) (p : Platform (C:=C)).

Lemma with_components_same p : with_components (components p) p = p.
Proof. by destruct p. Qed.

Lemma read_loop p tags (l : dict C) (acc : dict value) :
  NoDup (dict_keys (components p)) →
  (∀ tag c reader, (tag, c) ∈ components p → read c = Some reader →
     ∃ v, reader c = (Ok v, c)) →
  (∀ entry, entry ∈ l → entry ∈ components p) →
  NoDup (dict_keys l) →
  (∀ k, k ∈ dict_keys l → dict_get acc k = None) →
  for_eachM (read_selected (Some tags)) l acc p
  = (Ok (acc ++ selected_readings tags l)%list, p).
Proof.
  intros Hnd Hpure. revert acc.
  induction l as [|[tag c] l IH]; intros acc Hin Hl Hacc.
  - simpl. by rewrite app_nil_r.
  - cbn [for_eachM]. unfold mbind at 1, M_bind at 1.
    apply NoDup_cons in Hl as [Htag Hl].
    assert (Hstep : read_selected (Some tags) acc (tag, c) p
              = (Ok (acc ++ selected_readings tags [(tag, c)])%list, p)).
    { unfold read_selected, selected_readings, reading. cbn [fst snd omap list_omap].
      destruct (read c) as [reader|] eqn:Hread.
      - destruct (Hpure tag c reader) as [v Hv]; [apply Hin; set_solver|done|].
        case_bool_decide.
        + unfold mbind, M_bind, on_component, mret, M_ret. rewrite Hv.
          rewrite (dict_set_same (components p) tag c)
            by (apply (dict_get_elem _ _ _ Hnd), Hin; set_solver).
          rewrite with_components_same. simpl.
          rewrite dict_set_fresh by (apply Hacc; set_solver). done.
        + simpl. unfold mret, M_ret. do 2 f_equal. symmetry. apply app_nil_r.
      - assert (Hnone : (if bool_decide (tag ∈ tags)
                         then (λ v, (tag, v)) <$> @None value else None) = None)
          by by case_bool_decide.
        rewrite Hnone. simpl. unfold mret, M_ret. do 2 f_equal. symmetry.
        apply app_nil_r. }
    rewrite Hstep. rewrite IH.
    + unfold selected_readings. cbn [omap list_omap fst snd].
      rewrite <- app_assoc. do 2 f_equal.
      destruct (if bool_decide (tag ∈ tags) then _ else _); reflexivity.
    + intros entry ?. apply Hin. set_solver.
    + done.
    + intros k Hk. unfold selected_readings. cbn [omap list_omap fst snd].
      assert (k ≠ tag) by (intros ->; done).
      destruct (if bool_decide (tag ∈ tags) then _ else _) as [[k' v']|] eqn:Hsel.
      * assert (k' = tag) as ->.
        { case_bool_decide; [|done]. destruct (reading c); by simplify_eq/=. }
        apply dict_get_None. unfold dict_keys. rewrite fmap_app. simpl.
        intros [Hk'|Hk']%elem_of_app; [|set_solver].
        assert (dict_get acc k = None) as Hn by (apply Hacc; set_solver).
        by apply dict_get_None in Hn.
      * rewrite app_nil_r. apply Hacc. set_solver.
Qed.

Lemma selected_tags_strings tags : selected_tags (VList (VStr <$> tags)) = Ok tags.
Proof.
  unfold selected_tags.
  assert (Hmap : mapM lookup_key (VStr <$> tags) = Ok (Some <$> tags)).
  { induction tags as [|t tags IH]; [done|]. cbn. rewrite IH. reflexivity. }
  rewrite Hmap. clear Hmap. simpl. f_equal. induction tags as [|t tags IH]; [done|].
  rewrite fmap_cons. change (t :: omap id (Some <$> tags) = t :: tags). by f_equal.
Qed.

(** X30: [get_observations] with a selection reads the components whose tag
    is selected and that have a [read], in the order in which the platform
    holds them; a selected tag that is not on the platform is passed over
    without an error, and the worker is left as it was. *)
Theorem get_observations_selected w p tags :
  _platform w = Some p → NoDup (dict_keys (components p)) → tags ≠ [] →
  (∀ tag c reader, (tag, c) ∈ components p → read c = Some reader →
     ∃ v, reader c = (Ok v, c)) →
  get_observations [("selected", VList (VStr <$> tags))] w
  = (Ok (VDict (selected_readings tags (components p))), w).
Proof.
  intros Hp Hnd Htags Hpure. unfold get_observations.
  change (arg [("selected", VList (VStr <$> tags))] "selected")
    with (VList (VStr <$> tags)).
  assert (Htruthy : truthy (VList (VStr <$> tags)) = true) by by destruct tags.
  rewrite Htruthy. rewrite selected_tags_strings.
  unfold mbind at 1, M_bind at 1, lift at 1. cbn [fmap result_fmap].
  unfold mbind at 1, M_bind at 1, on_platform at 1. rewrite Hp.
  unfold mbind at 1, M_bind at 1, get at 1.
  rewrite (read_loop p tags (components p) []); try done.
  simpl. unfold mret, M_ret. f_equal. destruct w. simpl in *. by subst.
Qed.

End readings.
Import DebugPlatform.

Lemma get_observations_selected_witness :
  let led := DebugOutputPin (VInt 3) false in
  let pwm := DebugPWMPin (VInt 4) (VInt 50) (VFloat 0) in
  let p := {| component_types := debug_component_types;
              components := [("led", led); ("pwm", pwm)] |} in
  let w := with_platform (Some p) new_worker in
  get_observations [("selected", VList [VStr "pwm"; VStr "ghost"; VStr "led"])] w
  = (Ok (VDict [("led", VDict [("state", VBool false)])]), w).
Proof.
  intros led pwm p w.
  refine (eq_trans (get_observations_selected w p ["pwm"; "ghost"; "led"]
                      eq_refl _ _ _) _).
  - apply (bool_decide_unpack _). vm_compute. reflexivity.
  - discriminate.
  - intros tag c reader Hin Hread.
    apply elem_of_cons in Hin as [[= -> ->]|Hin].
    + injection Hread as <-. by eexists.
    + apply elem_of_cons in Hin as [[= -> ->]|Hin]; [discriminate|].
      by apply elem_of_nil in Hin.
  - reflexivity.
Defined.

End ReadingsFacts.


(** ** The envelope over the wire format *)
Module RoundTripFacts.
Import Connection Msgpack MsgpackFacts ConnectionFacts.
Local Open Scope list_scope.










End RoundTripFacts.
